(** * Cute-Writing-Assistant: knowledge matching, prompt budget, text
      segmentation and duplicate merging

    A shallow embedding of the TypeScript sources
      - the AI module (getMatchedKnowledge, getAllKnowledgeSummary,
        formatKnowledgeDetails, sendToAI),
      - [LongTextImport.tsx] (splitText, handleAnalyze),
      - [MergeDuplicates.tsx] (getBaseName, findDuplicates, handleMerge,
        handleMergeAll),
      - the reduction [mergedResults] of [LongTextImport.tsx] and the
        export module (sanitizeFileName, escapeHtml, htmlToPlainText),
    together with the properties stated about them.  The modules
    [./types] and [./store] are not among the sources: their types are
    modelled from their use and from the specification, their table
    [CATEGORY_FIELDS] and function [createEmptyDetails] are parameters.

    JavaScript strings are sequences of UTF-16 code units; they are
    modelled as [list N].  String literals are written as UTF-8 text and
    decoded by [js]. *)

From Stdlib Require Import String Ascii.
From Stdlib Require Import List NArith ZArith Bool Lia Arith.
From Stdlib Require Import Sorting.Sorted Sorting.Permutation.
Import ListNotations.

Set Warnings "-register-all".

(* ================================================================== *)
(** * JavaScript strings *)
(* ================================================================== *)

Module JS.

Definition jsstring := list N.

(** Decoding of UTF-8 bytes into UTF-16 code units (a character outside
    the basic plane becomes a surrogate pair). *)
Fixpoint utf16 (bs : list N) : jsstring :=
  match bs with
  | [] => []
  | b0 :: t0 =>
    if (b0 <? 0x80)%N then b0 :: utf16 t0
    else match t0 with
    | [] => []
    | b1 :: t1 =>
      if (b0 <? 0xE0)%N
      then ((b0 - 0xC0) * 64 + (b1 - 0x80))%N :: utf16 t1
      else match t1 with
      | [] => []
      | b2 :: t2 =>
        if (b0 <? 0xF0)%N
        then ((b0 - 0xE0) * 4096 + (b1 - 0x80) * 64 + (b2 - 0x80))%N
               :: utf16 t2
        else match t2 with
        | [] => []
        | b3 :: t3 =>
          let cp := ((b0 - 0xF0) * 262144 + (b1 - 0x80) * 4096
                     + (b2 - 0x80) * 64 + (b3 - 0x80))%N in
          let v := (cp - 0x10000)%N in
          (0xD800 + v / 1024)%N :: (0xDC00 + v mod 1024)%N :: utf16 t3
        end
      end
    end
  end.

Definition js (s : string) : jsstring :=
  utf16 (map (fun b => N.of_nat (Byte.to_nat b)) (list_byte_of_string s)).

(** [s.length] *)
Definition len (s : jsstring) : Z := Z.of_nat (length s).

Fixpoint jseqb (a b : jsstring) : bool :=
  match a, b with
  | [], [] => true
  | x :: a', y :: b' => (x =? y)%N && jseqb a' b'
  | _, _ => false
  end.

(** ** Character classes *)

Definition NL : N := 10%N.
Definition SPACE : N := 32%N.

(** [\s] of a regular expression and the characters removed by [trim]:
    ECMAScript WhiteSpace and LineTerminator. *)
Definition isWhiteSpace (c : N) : bool :=
  ((9 <=? c) && (c <=? 13) || (c =? 32) || (c =? 0xA0) || (c =? 0x1680)
   || (0x2000 <=? c) && (c <=? 0x200A) || (c =? 0x2028) || (c =? 0x2029)
   || (c =? 0x202F) || (c =? 0x205F) || (c =? 0x3000) || (c =? 0xFEFF))%N.

(** [\d] *)
Definition isDigit (c : N) : bool := ((48 <=? c) && (c <=? 57))%N.

Definition isNL (c : N) : bool := (c =? NL)%N.

(** ** Library functions on strings *)

Fixpoint dropWhile (p : N -> bool) (s : jsstring) : jsstring :=
  match s with
  | [] => []
  | c :: s' => if p c then dropWhile p s' else s
  end.

Fixpoint takeWhile (p : N -> bool) (s : jsstring) : jsstring :=
  match s with
  | [] => []
  | c :: s' => if p c then c :: takeWhile p s' else []
  end.

Definition trimStart (s : jsstring) : jsstring := dropWhile isWhiteSpace s.

(** Removal of the trailing white space: a character is kept when some
    character that is not white space follows it or it is none itself. *)
Fixpoint trimEnd (s : jsstring) : jsstring :=
  match s with
  | [] => []
  | c :: s' => if forallb isWhiteSpace (c :: s') then [] else c :: trimEnd s'
  end.

(** [s.trim()] *)
Definition trim (s : jsstring) : jsstring := trimEnd (trimStart s).

Fixpoint startsWith (s p : jsstring) : bool :=
  match p, s with
  | [], _ => true
  | x :: p', y :: s' => (x =? y)%N && startsWith s' p'
  | _ :: _, [] => false
  end.

(** [s.includes(sub)] *)
Fixpoint includes (s sub : jsstring) : bool :=
  startsWith s sub ||
  match s with
  | [] => false
  | _ :: s' => includes s' sub
  end.

(** [parts.join(sep)] *)
Fixpoint join (sep : jsstring) (parts : list jsstring) : jsstring :=
  match parts with
  | [] => []
  | [p] => p
  | p :: rest => p ++ sep ++ join sep rest
  end.

(** [s.slice(0, n)] for [0 <= n] *)
Definition slice0 (n : nat) (s : jsstring) : jsstring := firstn n s.

(** A JavaScript value is truthy; for strings: is not empty. *)
Definition nonEmpty (s : jsstring) : bool :=
  match s with [] => false | _ => true end.

(** Decimal digits of a natural number, as [String(n)] gives them. *)
Fixpoint digitsFuel (fuel : nat) (n : N) (acc : jsstring) : jsstring :=
  match fuel with
  | O => acc
  | S f =>
    let acc' := (48 + n mod 10)%N :: acc in
    if (n / 10 =? 0)%N then acc' else digitsFuel f (n / 10)%N acc'
  end.

Definition numberToString (z : Z) : jsstring :=
  let n := Z.abs_N z in
  let ds := digitsFuel (S (N.to_nat (N.log2 n))) n [] in
  if (z <? 0)%Z then 45%N :: ds else ds.

(** Lower-casing of the letters A-Z; the other code units are kept.  It
    agrees with [toLowerCase] on texts whose cased letters are all in
    Basic Latin (CJK text has no case). *)
Definition asciiLower (s : jsstring) : jsstring :=
  map (fun c => if ((65 <=? c) && (c <=? 90))%N then (c + 32)%N else c) s.

End JS.
Import JS.

(* ================================================================== *)
(** * Data model *)
(* ================================================================== *)

(** JSON values, as [JSON.parse] and [res.json()] produce them.  Of a
    number the code only uses whether it is zero. *)
Inductive json : Type :=
| JNull
| JBool (b : bool)
| JNum (n : Z)
| JStr (s : jsstring)
| JArr (items : list json)
| JObj (props : list (jsstring * json)).

(** Modelled from the spec: the type [KnowledgeCategory] of [./types],
    "a fixed closed set of domain categories"; the same union type is
    spelled out in the source for [ExtractedItem.category]. *)
Inductive KnowledgeCategory : Type :=
| Person | WorldView | Plot | Setting | Other.

Definition categoryName (c : KnowledgeCategory) : jsstring :=
  Eval cbv in
  match c with
  | Person => js "人物"
  | WorldView => js "世界观"
  | Plot => js "剧情"
  | Setting => js "设定"
  | Other => js "其他"
  end.

(** Modelled from the spec: the type [KnowledgeEntry] of [./types], with
    the fields that the code reads.  The defensive run-time checks of the
    code ([typeof kw === 'string'], [typeof v === 'string']) are kept, so
    a keyword and a detail value are JSON values; [details] lists the
    properties of the object in the order of [Object.values]. *)
Record KnowledgeEntry : Type := mkEntry {
  id : jsstring;
  category : KnowledgeCategory;
  title : jsstring;
  keywords : list json;
  details : list (jsstring * json)
}.

(** An entry with a title and an id only, for the examples. *)
Definition entryOf (c : KnowledgeCategory) (t : string) (i : string)
  : KnowledgeEntry :=
  {| id := js i; category := c; title := js t; keywords := [];
     details := [] |}.

(* ================================================================== *)
(** * MergeDuplicates.tsx: getBaseName *)
(* ================================================================== *)

Module Merge.

Definition isOpenParen (c : N) : bool := ((c =? 0xFF08) || (c =? 40))%N.
Definition isCloseParen (c : N) : bool := ((c =? 41) || (c =? 0xFF09))%N.

(** The text [s] is matched as a whole by
    [\s*[（(]\d+[)）]\s*$]: the four character classes are disjoint, so
    the greedy match is the only one. *)
Definition matchesSuffix (s : jsstring) : bool :=
  match dropWhile isWhiteSpace s with
  | c :: r =>
    isOpenParen c &&
    match takeWhile isDigit r, dropWhile isDigit r with
    | _ :: _, c' :: r' => isCloseParen c' && forallb isWhiteSpace r'
    | _, _ => false
    end
  | [] => false
  end.

(** [title.replace(/\s*[（(]\d+[)）]\s*$/, '')]: the regular expression
    has no [g] flag, so the leftmost match is removed; being anchored by
    [$] a match runs to the end of the text. *)
Fixpoint stripSuffix (s : jsstring) : jsstring :=
  if matchesSuffix s then []
  else match s with
       | [] => []
       | c :: s' => c :: stripSuffix s'
       end.

Definition getBaseName (title : jsstring) : jsstring :=
  trim (stripSuffix title).

(** The regular expression of [getBaseName] finds a match in [s]
    ([/\s*[（(]\d+[)）]\s*$/.test(s)]): some tail of [s] is matched as a
    whole. *)
Fixpoint hasNumberSuffix (s : jsstring) : bool :=
  matchesSuffix s ||
  match s with
  | [] => false
  | _ :: s' => hasNumberSuffix s'
  end.

(** *** findDuplicates *)

Record DuplicateGroup : Type := mkGroup {
  baseName : jsstring;
  groupCategory : jsstring;
  entries : list KnowledgeEntry
}.

(** [`${entry.category}::${baseName}`] *)
Definition COLONS : jsstring := [58; 58]%N.

Definition groupKey (entry : KnowledgeEntry) : jsstring :=
  categoryName (category entry) ++ COLONS ++ getBaseName (title entry).

(** [Map<string, KnowledgeEntry[]>]: a JavaScript Map is iterated in the
    order in which its keys were inserted, hence an association list. *)
Definition groupMap : Type := list (jsstring * list KnowledgeEntry).

(** [groups.has(key)] *)
Definition mapHas (key : jsstring) (groups : groupMap) : bool :=
  existsb (fun kv => jseqb (fst kv) key) groups.

(** [groups.set(key, [])] for a key that is not in the map *)
Definition mapSetEmpty (key : jsstring) (groups : groupMap) : groupMap :=
  groups ++ [(key, [])].

(** [groups.get(key)!.push(entry)] *)
Fixpoint mapPush (key : jsstring) (entry : KnowledgeEntry)
    (groups : groupMap) : groupMap :=
  match groups with
  | [] => []
  | (k, es) :: rest =>
    if jseqb k key then (k, es ++ [entry]) :: rest
    else (k, es) :: mapPush key entry rest
  end.

(** The body of the first loop. *)
Definition addEntry (groups : groupMap) (entry : KnowledgeEntry) : groupMap :=
  let key := groupKey entry in
  let groups1 := if mapHas key groups then groups
                 else mapSetEmpty key groups in
  mapPush key entry groups1.

Definition collectGroups (knowledge : list KnowledgeEntry) : groupMap :=
  fold_left addEntry knowledge [].

(** [key.split('::')] *)
Fixpoint splitColons (s cur : jsstring) : list jsstring :=
  match s with
  | [] => [rev cur]
  | c :: s' =>
    match s' with
    | c2 :: s'' =>
      if ((c =? 58) && (c2 =? 58))%N then rev cur :: splitColons s'' []
      else splitColons s' (c :: cur)
    | [] => splitColons s' (c :: cur)
    end
  end.

(** The second loop: the groups with more than one entry, in the order of
    the map; [[category, baseName] = key.split('::')]. *)
Definition groupOfKey (kv : jsstring * list KnowledgeEntry)
  : list DuplicateGroup :=
  let (key, es) := kv in
  if (1 <? length es)%nat then
    let parts := splitColons key [] in
    [ {| baseName := nth 1 parts [];
         groupCategory := nth 0 parts [];
         entries := es |} ]
  else [].

Definition groupSize (g : DuplicateGroup) : nat := length (entries g).

(** [duplicates.sort((a, b) => b.entries.length - a.entries.length)].
    [Array.prototype.sort] is stable; with this comparator every stable
    sort gives the list below, here by insertion from the right: [g] is
    placed after the groups that are strictly larger. *)
Fixpoint insertGroup (g : DuplicateGroup) (l : list DuplicateGroup)
  : list DuplicateGroup :=
  match l with
  | [] => [g]
  | h :: t => if (groupSize g <? groupSize h)%nat then h :: insertGroup g t
              else g :: h :: t
  end.

(** The order of the result: the larger group first. *)
Definition bySize (a b : DuplicateGroup) : Prop :=
  (groupSize b <= groupSize a)%nat.

Definition sortGroups (l : list DuplicateGroup) : list DuplicateGroup :=
  fold_right insertGroup [] l.

Definition findDuplicates (knowledge : list KnowledgeEntry)
  : list DuplicateGroup :=
  sortGroups (flat_map groupOfKey (collectGroups knowledge)).

(** [x] stands in [l] at some place and [y] at a later one. *)
Inductive Before {A : Type} (x y : A) : list A -> Prop :=
| Before_here (l : list A) : In y l -> Before x y (x :: l)
| Before_later (z : A) (l : list A) : Before x y l -> Before x y (z :: l).

(** The keys of a list in the order of their first occurrence, and the
    map that the first loop builds, in closed form. *)
Definition memKey (key : jsstring) (ks : list jsstring) : bool :=
  existsb (fun k => jseqb k key) ks.

Definition firstOcc (ks : list jsstring) : list jsstring :=
  fold_left (fun acc k => if memKey k acc then acc else acc ++ [k]) ks [].

Definition keyIs (k : jsstring) (e : KnowledgeEntry) : bool :=
  jseqb (groupKey e) k.

Definition groupsOf (knowledge : list KnowledgeEntry) : groupMap :=
  map (fun k => (k, filter (keyIs k) knowledge))
      (firstOcc (map groupKey knowledge)).

(** The group [g1] is met before the group [g2] while going through
    [knowledge]: some entry of [g1] has no entry of [g2] in front of it. *)
Definition FirstSeenBefore (knowledge : list KnowledgeEntry)
    (g1 g2 : DuplicateGroup) : Prop :=
  exists pre e1 post,
    knowledge = pre ++ e1 :: post /\ In e1 (entries g1) /\
    forall e2, In e2 (entries g2) -> ~ In e2 pre.

End Merge.


(* ================================================================== *)
(** * LongTextImport.tsx: splitText *)
(* ================================================================== *)

Module Segment.

Record TextChunk : Type := mkChunk {
  content : jsstring;
  chapter : option jsstring
}.

(** ** The chapter pattern, with the flags [g] and [i]: one capturing
    group around two alternatives,
      - [第], one or more of [一二三四五六七八九十百千\d], [章], the rest of
        the line;
      - [Chapter], white space if any, one or more digits, the rest of
        the line. *)

Definition CJK_NUMERALS : list N :=
  [0x4E00; 0x4E8C; 0x4E09; 0x56DB; 0x4E94; 0x516D; 0x4E03; 0x516B;
   0x4E5D; 0x5341; 0x767E; 0x5343]%N.

Definition isChapterNumeral (c : N) : bool :=
  existsb (N.eqb c) CJK_NUMERALS || isDigit c.

Definition notNL (c : N) : bool := negb (isNL c).

(** [s] starts with [word], letters A-Z compared without case (flag [i]);
    [word] is given in lower case. *)
Fixpoint startsWithCI (s word : jsstring) : bool :=
  match word, s with
  | [], _ => true
  | x :: word', y :: s' =>
    ((if (65 <=? y) && (y <=? 90) then y + 32 else y) =? x)%N
    && startsWithCI s' word'
  | _ :: _, [] => false
  end.

Definition CHAPTER : jsstring := Eval cbv in js "chapter".

(** The pattern matched at the start of [s]: the length of the match.
    In both alternatives the repeated classes are disjoint from what
    follows them, so the greedy match is the only one. *)
Definition matchChapterLen (s : jsstring) : option nat :=
  match s with
  | [] => None
  | c :: r =>
    if (c =? 0x7B2C)%N then
      let nums := takeWhile isChapterNumeral r in
      match nums, dropWhile isChapterNumeral r with
      | _ :: _, z :: rest =>
        if (z =? 0x7AE0)%N
        then Some (2 + length nums + length (takeWhile notNL rest))%nat
        else None
      | _, _ => None
      end
    else if startsWithCI s CHAPTER then
      let r1 := skipn 7 s in
      let ws := takeWhile isWhiteSpace r1 in
      let r2 := dropWhile isWhiteSpace r1 in
      let ds := takeWhile isDigit r2 in
      match ds with
      | [] => None
      | _ :: _ =>
        Some (7 + length ws + length ds
              + length (takeWhile notNL (dropWhile isDigit r2)))%nat
      end
    else None
  end.

(** [text.split(chapterPattern)]: the texts between the matches and, the
    pattern being one capturing group, the matches themselves.  [cur] is
    the text since the last match, reversed; a match is never empty, so
    [fuel] above the length of [s] is never used up. *)
Fixpoint splitByChapter (fuel : nat) (s cur : jsstring) : list jsstring :=
  match fuel with
  | O => [rev cur ++ s]
  | S fuel' =>
    match s with
    | [] => [rev cur]
    | c :: s' =>
      match matchChapterLen s with
      | Some n => rev cur :: firstn n s
                    :: splitByChapter fuel' (skipn n s) []
      | None => splitByChapter fuel' s' (c :: cur)
      end
    end
  end.

Definition splitChapters (text : jsstring) : list jsstring :=
  splitByChapter (S (length text)) text [].

(** The first match at or after the start of [s], which is at index
    [pos] of the text: the index just after it. *)
Fixpoint searchChapter (s : jsstring) (pos : nat) : option nat :=
  match matchChapterLen s with
  | Some n => Some (pos + n)%nat
  | None => match s with
            | [] => None
            | _ :: s' => searchChapter s' (S pos)
            end
  end.

(** [chapterPattern.test(part)] for the global pattern: the search
    starts at [lastIndex]; a match moves [lastIndex] after it, a failure
    sets it to 0.  The result and the new [lastIndex]. *)
Definition regexTest (lastIndex : nat) (part : jsstring) : bool * nat :=
  if (length part <? lastIndex)%nat then (false, O)
  else match searchChapter (skipn lastIndex part) lastIndex with
       | Some e => (true, e)
       | None => (false, O)
       end.

(** ** Paragraphs: [part.split(/\n\n+/)].  [inSep] holds while the
    characters read belong to a separator. *)
Fixpoint splitParagraphsFrom (s cur : jsstring) (inSep : bool)
  : list jsstring :=
  match s with
  | [] => [rev cur]
  | c :: s' =>
    if isNL c then
      if inSep then splitParagraphsFrom s' cur true
      else match s' with
           | c2 :: _ =>
             if isNL c2 then rev cur :: splitParagraphsFrom s' [] true
             else splitParagraphsFrom s' (c :: cur) false
           | [] => splitParagraphsFrom s' (c :: cur) false
           end
    else splitParagraphsFrom s' (c :: cur) false
  end.

Definition splitParagraphs (part : jsstring) : list jsstring :=
  splitParagraphsFrom part [] false.

(** [currentChapter || undefined] *)
Definition chapterLabel (currentChapter : jsstring) : option jsstring :=
  if nonEmpty currentChapter then Some currentChapter else None.

(** The loop over the paragraphs of a part that is longer than [maxLen]:
    the chunks pushed and the buffer [current] that is left. *)
Fixpoint accumulate (maxLen : nat) (currentChapter : jsstring)
    (paragraphs : list jsstring) (current : jsstring)
    (chunks : list TextChunk) : list TextChunk * jsstring :=
  match paragraphs with
  | [] => (chunks, current)
  | p :: rest =>
    if (maxLen <? length (current ++ p))%nat && nonEmpty current
    then accumulate maxLen currentChapter rest p
           (chunks ++ [mkChunk (trim current) (chapterLabel currentChapter)])
    else accumulate maxLen currentChapter rest
           (current ++ [NL; NL] ++ p) chunks
  end.

(** The state of the loop over the parts. *)
Record splitState : Type := mkSplitState {
  chunks : list TextChunk;
  currentChapter : jsstring;
  lastIndex : nat
}.

Definition splitStep (maxLen : nat) (st : splitState) (raw : jsstring)
  : splitState :=
  let part := trim raw in
  if negb (nonEmpty part) then st
  else
    let (isHeading, li) := regexTest (lastIndex st) part in
    if isHeading then
      (* chapterPattern.lastIndex = 0; currentChapter = part *)
      mkSplitState (chunks st) part O
    else if (length part <? 50)%nat then
      mkSplitState (chunks st) (currentChapter st) li
    else if (length part <=? maxLen)%nat then
      mkSplitState
        (chunks st ++ [mkChunk part (chapterLabel (currentChapter st))])
        (currentChapter st) li
    else
      let (pushed, current) :=
        accumulate maxLen (currentChapter st) (splitParagraphs part) []
                   (chunks st) in
      if (50 <? length (trim current))%nat then
        mkSplitState
          (pushed ++ [mkChunk (trim current)
                              (chapterLabel (currentChapter st))])
          (currentChapter st) li
      else mkSplitState pushed (currentChapter st) li.

Definition splitText (text : jsstring) (maxLen : nat) : list TextChunk :=
  chunks (fold_left (splitStep maxLen) (splitChapters text)
                    (mkSplitState [] [] O)).

(** [maxLen = 3000] *)
Definition defaultMaxLen : nat := 3000.




End Segment.

(* ================================================================== *)
(** * The AI module: getMatchedKnowledge *)
(* ================================================================== *)

Module Knowledge.

(** Modelled from the spec: the part of the state of [./store] that the
    matcher reads with [useStore.getState()], the local and the external
    knowledge list. *)
Record storeState : Type := mkStore {
  knowledge : list KnowledgeEntry;
  externalKnowledge : list KnowledgeEntry
}.

(** [s.split(re)] for a pattern [c+] over a character class [sep]: the
    texts between the runs of separators; [inSep] holds inside a run. *)
Fixpoint splitRunsFrom (sep : N -> bool) (s cur : jsstring) (inSep : bool)
  : list jsstring :=
  match s with
  | [] => [rev cur]
  | c :: s' =>
    if sep c then
      if inSep then splitRunsFrom sep s' cur true
      else rev cur :: splitRunsFrom sep s' [] true
    else splitRunsFrom sep s' (c :: cur) false
  end.

Definition splitRuns (sep : N -> bool) (s : jsstring) : list jsstring :=
  splitRunsFrom sep s [] false.

(** The character class of the tokenizer: the listed full-width marks
    and the ASCII double and single quote (each written twice in the
    source). *)
Definition QUERY_PUNCT : list N :=
  [0xFF0C; 0x3002; 0xFF1F; 0xFF01; 0x3001; 0x22; 0x22; 0x27; 0x27;
   0xFF1A; 0xFF1B; 0xFF08; 0xFF09; 0x3010; 0x3011]%N.

Definition isQueryPunct (c : N) : bool := existsb (N.eqb c) QUERY_PUNCT.

(** [.replace(/[...]/g, ' ')] *)
Definition replacePunct (s : jsstring) : jsstring :=
  map (fun c => if isQueryPunct c then SPACE else c) s.

(** [queryWords]: [.replace(...).split(/\s+/).filter(w => w.length >= 2)] *)
Definition queryWords (normalizedText : jsstring) : list jsstring :=
  filter (fun w => (2 <=? length w)%nat)
         (splitRuns isWhiteSpace (replacePunct normalizedText)).

(** [Object.values(details).filter(v => typeof v === 'string')] *)
Fixpoint stringValues (props : list (jsstring * json)) : list jsstring :=
  match props with
  | [] => []
  | (_, JStr v) :: rest => v :: stringValues rest
  | _ :: rest => stringValues rest
  end.

Section Matcher.

(** [String.prototype.toLowerCase], of which nothing is assumed. *)
Variable toLowerCase : jsstring -> jsstring.

(** The callback of [keywords.some] in step 2. *)
Definition keywordMatches (normalizedText : jsstring) (kw : json) : bool :=
  match kw with
  | JStr s =>
    let keyword := toLowerCase (trim s) in
    if negb (nonEmpty keyword) then false
    else includes normalizedText keyword
  | _ => false
  end.

Definition detailsText (k : KnowledgeEntry) : jsstring :=
  toLowerCase (join [SPACE] (stringValues (details k))).

(** The callback of [queryWords.filter] in step 3. *)
Definition wordMatches (k : KnowledgeEntry) (w : jsstring) : bool :=
  includes (toLowerCase (title k)) w
  || existsb (fun kw => match kw with
                        | JStr s => includes (toLowerCase s) w
                        | _ => false
                        end) (keywords k)
  || includes (detailsText k) w.

(** The callback of [allKnowledge.filter]. *)
Definition isRelevant (normalizedText : jsstring)
    (words : list jsstring) (k : KnowledgeEntry) : bool :=
  if nonEmpty (title k) && includes normalizedText (toLowerCase (title k))
  then true
  else if existsb (keywordMatches normalizedText) (keywords k) then true
  else
    let matchCount := length (filter (wordMatches k) words) in
    (2 <=? matchCount)%nat.

Definition getMatchedKnowledge (st : storeState) (text : jsstring)
  : list KnowledgeEntry :=
  let allKnowledge := knowledge st ++ externalKnowledge st in
  let normalizedText := toLowerCase text in
  let words := queryWords normalizedText in
  filter (isRelevant normalizedText words) allKnowledge.

(** *** The three rules, stated as relations *)

Definition Substring (sub s : jsstring) : Prop :=
  exists pre post, s = pre ++ sub ++ post.

Definition TitleHit (text : jsstring) (k : KnowledgeEntry) : Prop :=
  title k <> [] /\ Substring (toLowerCase (title k)) (toLowerCase text).

Definition KeywordHit (text : jsstring) (k : KnowledgeEntry) : Prop :=
  exists s, In (JStr s) (keywords k) /\
            toLowerCase (trim s) <> [] /\
            Substring (toLowerCase (trim s)) (toLowerCase text).

Definition TokenHit (k : KnowledgeEntry) (w : jsstring) : Prop :=
  Substring w (toLowerCase (title k)) \/
  (exists s, In (JStr s) (keywords k) /\ Substring w (toLowerCase s)) \/
  Substring w (toLowerCase (join [SPACE] (stringValues (details k)))).

(** The tokens of the query: the runs of characters of the lower-cased
    text that are neither white space nor in the punctuation class, two
    characters long at least. *)
Definition tokens (text : jsstring) : list jsstring :=
  filter (fun w => (2 <=? length w)%nat)
         (splitRuns (fun c => isWhiteSpace c || isQueryPunct c)
                    (toLowerCase text)).

(** Two tokens of the query, at different places, both hit. *)
Definition CoOccurrence (text : jsstring) (k : KnowledgeEntry) : Prop :=
  exists i j w1 w2,
    (i < j)%nat /\
    nth_error (tokens text) i = Some w1 /\
    nth_error (tokens text) j = Some w2 /\
    TokenHit k w1 /\ TokenHit k w2.

(** *** The rules as the specification words them.  The punctuation
    class has the curly quotes; in rule 3 the tokens are looked for in the
    title, in the keywords and in the concatenation of the string values
    of the details. *)

Definition CLAIMED_PUNCT : list N :=
  [0xFF0C; 0x3002; 0xFF1F; 0xFF01; 0x3001; 0x201C; 0x201D; 0x2018; 0x2019;
   0xFF1A; 0xFF1B; 0xFF08; 0xFF09; 0x3010; 0x3011]%N.

Definition claimedTokens (text : jsstring) : list jsstring :=
  filter (fun w => (2 <=? length w)%nat)
    (splitRuns isWhiteSpace
       (map (fun c => if existsb (N.eqb c) CLAIMED_PUNCT then SPACE else c)
            (toLowerCase text))).

Definition claimedTokenHit (k : KnowledgeEntry) (w : jsstring) : bool :=
  includes (title k) w
  || existsb (fun kw => match kw with
                        | JStr s => includes s w
                        | _ => false
                        end) (keywords k)
  || includes (concat (stringValues (details k))) w.

Definition claimedRelevant (text : jsstring) (k : KnowledgeEntry) : bool :=
  (nonEmpty (title k)
   && includes (toLowerCase text) (toLowerCase (title k)))
  || existsb (keywordMatches (toLowerCase text)) (keywords k)
  || (2 <=? length (filter (claimedTokenHit k) (claimedTokens text)))%nat.

(** *** Queries without quotation marks.  The full-width marks of the
    punctuation class, the quotation marks (ASCII and curly), and the
    tokens of a query cut at white space and at the full-width marks. *)

Definition FULLWIDTH_MARKS : list N :=
  [0xFF0C; 0x3002; 0xFF1F; 0xFF01; 0x3001;
   0xFF1A; 0xFF1B; 0xFF08; 0xFF09; 0x3010; 0x3011]%N.

Definition isFullWidthMark (c : N) : bool :=
  existsb (N.eqb c) FULLWIDTH_MARKS.

Definition isQuotationMark (c : N) : bool :=
  ((c =? 0x22) || (c =? 0x27) || (c =? 0x201C) || (c =? 0x201D)
   || (c =? 0x2018) || (c =? 0x2019))%N.

Definition noQuotationMark (s : jsstring) : bool :=
  forallb (fun c => negb (isQuotationMark c)) s.

Definition markTokens (text : jsstring) : list jsstring :=
  filter (fun w => (2 <=? length w)%nat)
         (splitRuns (fun c => isWhiteSpace c || isFullWidthMark c)
                    (toLowerCase text)).

(** Two tokens of the query, at different places, both hit. *)
Definition MarkCoOccurrence (text : jsstring) (k : KnowledgeEntry)
  : Prop :=
  exists i j w1 w2,
    (i < j)%nat /\
    nth_error (markTokens text) i = Some w1 /\
    nth_error (markTokens text) j = Some w2 /\
    TokenHit k w1 /\ TokenHit k w2.

End Matcher.

End Knowledge.

(* ================================================================== *)
(** * The AI module: formatKnowledgeDetails and the knowledge section of
      the system prompt *)
(* ================================================================== *)

Module Prompt.

(** An element of [CATEGORY_FIELDS[category]]. *)
Record Field : Type := mkField {
  key : jsstring;
  label : jsstring
}.

(** [details[key]] *)
Fixpoint getDetail (props : list (jsstring * json)) (k : jsstring)
  : option json :=
  match props with
  | [] => None
  | (k', v) :: rest => if jseqb k' k then Some v else getDetail rest k
  end.

(** [const maxTotalChars = 50000] *)
Definition maxTotalChars : Z := 50000.

(** What is appended to [systemPrompt] between the lines 144 and 187, one
    piece for every [systemPrompt += ...]. *)
Inductive piece : Type :=
| Intro
| FullBlock (k : KnowledgeEntry)
| SummaryHeader
| SummaryLine (k : KnowledgeEntry)
| Trailer (omitted : Z).

Definition isFullBlock (p : piece) : bool :=
  match p with FullBlock _ => true | _ => false end.

Definition isSummaryLine (p : piece) : bool :=
  match p with SummaryLine _ => true | _ => false end.

Definition isTrailer (p : piece) : bool :=
  match p with Trailer _ => true | _ => false end.

Section Assembler.

(** The table [CATEGORY_FIELDS] of [./types]; [None] where the table has
    no entry for the category (the defensive branch of the code). *)
Variable CATEGORY_FIELDS : KnowledgeCategory -> option (list Field).

Definition formatKnowledgeDetails (entry : KnowledgeEntry) : jsstring :=
  match CATEGORY_FIELDS (category entry) with
  | None =>
    join [NL] (filter nonEmpty (Knowledge.stringValues (details entry)))
  | Some fields =>
    join [NL]
      (flat_map
         (fun field =>
            match getDetail (details entry) (key field) with
            | Some (JStr value) =>
              if nonEmpty value && nonEmpty (trim value)
              then [label field ++ js "：" ++ value]
              else []
            | _ => []
            end)
         fields)
  end.

(** The text of a full-detail block. *)
Definition fullText (k : KnowledgeEntry) : jsstring :=
  let detailsText := formatKnowledgeDetails k in
  [NL] ++ js "【" ++ categoryName (category k) ++ js "】" ++ title k
       ++ js "：" ++ [NL] ++ detailsText ++ [NL].

(** The text of a summary line. *)
Definition summaryText (k : KnowledgeEntry) : jsstring :=
  let detailsText := formatKnowledgeDetails k in
  let summary := if (200 <? length detailsText)%nat
                 then slice0 200 detailsText ++ js "..."
                 else detailsText in
  js "• " ++ categoryName (category k) ++ js " - " ++ title k ++ js ": "
     ++ map (fun c => if isNL c then SPACE else c) summary ++ [NL].

Definition pieceText (p : piece) : jsstring :=
  match p with
  | Intro => [NL; NL] ++ js "以下是与问题相关的详细设定资料：" ++ [NL]
  | FullBlock k => fullText k
  | SummaryHeader => [NL; NL] ++ js "【更多相关条目摘要】" ++ [NL]
  | SummaryLine k => summaryText k
  | Trailer n =>
    [NL] ++ js "（注：还有 " ++ numberToString n ++ js " 个相关条目未显示）"
  end.

(** The body of both [forEach] loops: the pieces appended so far and
    [usedChars]. *)
Definition appendIfFits (mk : KnowledgeEntry -> piece)
    (st : list piece * Z) (k : KnowledgeEntry) : list piece * Z :=
  let (pieces, usedChars) := st in
  let entryText := pieceText (mk k) in
  if (usedChars + len entryText <? maxTotalChars)%Z
  then (pieces ++ [mk k], (usedChars + len entryText)%Z)
  else (pieces, usedChars).

Definition knowledgeSection (matched : list KnowledgeEntry) : list piece :=
  if (0 <? length matched)%nat then
    let fullDetailEntries := firstn 10 matched in
    let summaryEntries := firstn 20 (skipn 10 matched) in
    let st1 := fold_left (appendIfFits FullBlock) fullDetailEntries
                         ([Intro], 0%Z) in
    let st2 :=
      if (0 <? length summaryEntries)%nat
         && (snd st1 <? maxTotalChars - 2000)%Z
      then fold_left (appendIfFits SummaryLine) summaryEntries
                     (fst st1 ++ [SummaryHeader], snd st1)
      else st1 in
    if (30 <? length matched)%nat
    then fst st2 ++ [Trailer (Z.of_nat (length matched) - 30)]
    else fst st2
  else [].

(** The text appended to the system prompt. *)
Definition renderSection (matched : list KnowledgeEntry) : jsstring :=
  concat (map pieceText (knowledgeSection matched)).

(** The characters counted against the budget: those of the full-detail
    blocks and of the summary lines. *)
Definition budgetOf (p : piece) : Z :=
  match p with
  | FullBlock _ | SummaryLine _ => len (pieceText p)
  | _ => 0%Z
  end.

Definition usedBy (pieces : list piece) : Z :=
  fold_right (fun p acc => (budgetOf p + acc)%Z) 0%Z pieces.

(** The length of the texts of the entries [l], all together. *)
Definition totalChars (text : KnowledgeEntry -> jsstring)
    (l : list KnowledgeEntry) : Z :=
  fold_right (fun k acc => (len (text k) + acc)%Z) 0%Z l.

End Assembler.

(** A table for the examples. *)
Definition sampleFields (c : KnowledgeCategory) : option (list Field) :=
  match c with
  | Person => Some [mkField (js "appearance") (js "外貌");
                    mkField (js "personality") (js "性格")]
  | Other => None
  | _ => Some [mkField (js "description") (js "描述")]
  end.

Definition sampleEntry (n : nat) : KnowledgeEntry :=
  mkEntry (numberToString (Z.of_nat n)) Person
          (js "角色" ++ numberToString (Z.of_nat n)) []
          [(js "appearance", JStr (js "高大")); (js "personality", JStr [])].

End Prompt.

(* ================================================================== *)
(** * Requests to the completion API: effects *)
(* ================================================================== *)

Module Effects.

(** ** Errors, responses, requests *)

Inductive errorKind : Type := PlainError | TypeError | SyntaxError.

(** A thrown [Error] object: its class and its [message]. *)
Record jserror : Type := mkError {
  errKind : errorKind;
  message : jsstring
}.

(** [await res.json()]: the parsed body, or the rejection. *)
Inductive bodyJson : Type :=
| JsonOk (data : json)
| JsonFails (e : jserror).

Record response : Type := mkResponse {
  status : Z;
  body : bodyJson
}.

(** [res.ok]: the status is in the range 200-299. *)
Definition ok (r : response) : bool :=
  ((200 <=? status r) && (status r <=? 299))%Z.

(** [await fetch(...)]: a response, whatever its status, or a rejection
    (network failure). *)
Inductive fetchOutcome : Type :=
| Rejected (e : jserror)
| Responded (r : response).

(** Modelled from the spec: the types [Message] and [AISettings] of
    [./types], with the fields that the code reads. *)
Record Message : Type := mkMessage {
  role : jsstring;
  msgContent : jsstring
}.

Record AISettings : Type := mkSettings {
  apiUrl : jsstring;
  apiKey : jsstring;
  model : jsstring;
  systemPrompt : jsstring
}.

(** What a request body is built from; the fixed instruction text around
    these values is not reproduced. *)
Inductive promptData : Type :=
| ChatPrompt (system : jsstring) (messages : list Message)
| ExtractPrompt (chapterHint : jsstring) (chunkContent : jsstring)
| MergePrompt (group : Merge.DuplicateGroup).

Record request : Type := mkRequest {
  reqUrl : jsstring;
  reqKey : jsstring;
  reqModel : jsstring;
  reqPrompt : promptData
}.

(** The argument of [addKnowledge] in [handleMerge]. *)
Record newEntry : Type := mkNewEntry {
  newCategory : jsstring;
  newTitle : json;
  newKeywords : list json;
  newDetails : list (jsstring * json)
}.

(** [setMergeResult]: the empty text, or the line that reports the count
    of merged entries and [parsed.title]. *)
Inductive mergeResultText : Type :=
| NoResult
| MergedInto (count : Z) (mergedTitle : option json).

(** What a run does to the outside: requests, waiting, the console, the
    component state and the knowledge store. *)
Inductive event : Type :=
| EvFetch (req : request)
| EvSleep (ms : Z)
| EvConsoleError (index : Z) (e : jserror)
| EvSetProgress (current total : Z)
| EvSetLoading (b : bool)
| EvSetError (msg : jsstring)
| EvSetResults (items : list json)
| EvSetMerging (b : bool)
| EvSetMergeResult (t : mergeResultText)
| EvSetSelectedGroup (g : option Z)
| EvAddKnowledge (e : newEntry)
| EvDeleteKnowledge (entryId : jsstring).

Definition isFetch (e : event) : bool :=
  match e with EvFetch _ => true | _ => false end.

Definition isSleep (e : event) : bool :=
  match e with EvSleep _ => true | _ => false end.

Definition isStoreOp (e : event) : bool :=
  match e with
  | EvAddKnowledge _ | EvDeleteKnowledge _ => true
  | _ => false
  end.

Definition isConsoleError (e : event) : bool :=
  match e with EvConsoleError _ _ => true | _ => false end.

Definition isSetError (e : event) : bool :=
  match e with EvSetError _ => true | _ => false end.

(** ** A monad for code that throws and acts on the outside *)

Inductive result (A : Type) : Type :=
| Ok (a : A)
| Throw (e : jserror).
Arguments Ok {A} a.
Arguments Throw {A} e.

(** A computation extends the trace of events and returns or throws. *)
Definition Eff (A : Type) : Type := list event -> result A * list event.

Definition ret {A : Type} (a : A) : Eff A := fun tr => (Ok a, tr).

Definition throw {A : Type} (e : jserror) : Eff A := fun tr => (Throw e, tr).

Definition bind {A B : Type} (m : Eff A) (k : A -> Eff B) : Eff B :=
  fun tr =>
    match m tr with
    | (Ok a, tr') => k a tr'
    | (Throw e, tr') => (Throw e, tr')
    end.

Definition emit (e : event) : Eff unit := fun tr => (Ok tt, tr ++ [e]).

(** [try { m } catch (e) { handler e }] *)
Definition tryCatch {A : Type} (m : Eff A) (handler : jserror -> Eff A)
  : Eff A :=
  fun tr =>
    match m tr with
    | (Ok a, tr') => (Ok a, tr')
    | (Throw e, tr') => handler e tr'
    end.

(** [try { m } finally { final }] *)
Definition tryFinally {A : Type} (m : Eff A) (final : Eff unit) : Eff A :=
  fun tr =>
    match m tr with
    | (r, tr') =>
      match final tr' with
      | (Ok _, tr'') => (r, tr'')
      | (Throw e, tr'') => (Throw e, tr'')
      end
    end.

Definition liftResult {A : Type} (r : result A) : Eff A :=
  fun tr => (r, tr).

Declare Scope eff_scope.
Delimit Scope eff_scope with eff.
Notation "x <- m ;; k" := (bind m (fun x => k))
  (at level 61, m at next level, right associativity) : eff_scope.
Notation "m ;;; k" := (bind m (fun _ => k))
  (at level 61, right associativity) : eff_scope.

(** ** Reading the completion out of the parsed body *)

(** [v.name] for a value [v] that is not null and one of the property
    names of the code (choices, message, content, title, keywords), none
    of which is a property of a string, an array, a number or a boolean;
    [None] is [undefined]. *)
Definition getProp (v : json) (name : jsstring) : option json :=
  match v with
  | JObj props => Prompt.getDetail props name
  | _ => None
  end.

(** [v[0]] for a value [v] that is not null. *)
Definition getIndex0 (v : json) : option json :=
  match v with
  | JArr (x :: _) => Some x
  | JStr (c :: _) => Some (JStr [c])
  | JObj props => Prompt.getDetail props [48%N]
  | _ => None
  end.

Definition truthy (v : option json) : bool :=
  match v with
  | None | Some JNull => false
  | Some (JBool b) => b
  | Some (JNum n) => negb (n =? 0)%Z
  | Some (JStr s) => nonEmpty s
  | Some (JArr _) | Some (JObj _) => true
  end.

(** The optional chain [o?.p]: [undefined] when [o] is null or
    undefined. *)
Definition optChain (o : option json) (get : json -> option json)
  : option json :=
  match o with
  | None | Some JNull => None
  | Some v => get v
  end.

Definition NULL_READ : jserror :=
  mkError TypeError (js "Cannot read properties of null (reading 'choices')").

(** [data.choices?.[0]?.message?.content]: reading [choices] of [null]
    throws. *)
Definition choiceContent (data : json) : result (option json) :=
  match data with
  | JNull => Throw NULL_READ
  | _ =>
    let choices := getProp data (js "choices") in
    let first := optChain choices getIndex0 in
    let msg := optChain first (fun v => getProp v (js "message")) in
    Ok (optChain msg (fun v => getProp v (js "content")))
  end.

(** [content.match(re)[0]] for a pattern [o[\s\S]*c], with [o] and [c]
    the brackets: from the first [o] to the last [c] after it. *)
Definition matchBracketed (o c : N) (s : jsstring) : option jsstring :=
  match dropWhile (fun x => negb (x =? o)%N) s with
  | [] => None
  | _ :: r =>
    match rev (dropWhile (fun x => negb (x =? c)%N) (rev r)) with
    | [] => None
    | inner => Some (o :: inner)
    end
  end.

Definition NOT_A_FUNCTION : jserror :=
  mkError TypeError (js "content.match is not a function").

(** The messages of the TypeErrors are those of V8; nothing depends on
    their wording. *)

(** ** Messages *)

Definition MSG_NO_KEY : jsstring := js "请先在 AI设置 中配置 API Key".
Definition MSG_FORMAT : jsstring := js "AI 返回格式错误，请重试".
Definition MSG_MERGE_FAILED : jsstring := js "合并失败: ".
Definition MSG_API_ERROR_MERGE : jsstring := js "API 错误: ".
Definition MSG_API_ERROR_CHAT : jsstring := js "API错误: ".
Definition MSG_NO_RESPONSE : jsstring := js "无响应".

Section Calls.

(** The server: the outcome of the [n]-th request of a run. *)
Variable server : nat -> request -> fetchOutcome.

(** [JSON.parse] of a text that begins with an opening square bracket,
    respectively brace: the elements, respectively the properties, when
    the text parses, and the SyntaxError thrown when it does not. *)
Variable JSON_parse_array : jsstring -> result (list json).
Variable JSON_parse_object : jsstring -> result (list (jsstring * json)).

Definition requestsMade (tr : list event) : nat :=
  length (filter isFetch tr).

(** [await fetch(url, ...)] *)
Definition fetch (req : request) : Eff response :=
  fun tr =>
    match server (requestsMade tr) req with
    | Rejected e => (Throw e, tr ++ [EvFetch req])
    | Responded r => (Ok r, tr ++ [EvFetch req])
    end.

(** [await res.json()] *)
Definition resJson (r : response) : Eff json :=
  match body r with
  | JsonOk data => ret data
  | JsonFails e => throw e
  end.

Local Open Scope eff_scope.

(** ** LongTextImport.tsx: handleAnalyze *)

Definition extractRequest (aiSettings : AISettings)
    (chunk : Segment.TextChunk) : request :=
  let chapterHint := match Segment.chapter chunk with
                     | Some c => [NL] ++ js "当前章节：" ++ c
                     | None => []
                     end in
  mkRequest (apiUrl aiSettings) (apiKey aiSettings) (model aiSettings)
            (ExtractPrompt chapterHint (Segment.content chunk)).

(** The body of the [try] block: the items pushed to [allResults]. *)
Definition analyzeChunk (aiSettings : AISettings)
    (chunk : Segment.TextChunk) (allResults : list json)
  : Eff (list json) :=
  res <- fetch (extractRequest aiSettings chunk) ;;
  data <- resJson res ;;
  picked <- liftResult (choiceContent data) ;;
  let content := if truthy picked then picked else Some (JStr (js "[]")) in
  match content with
  | Some (JStr text) =>
    match matchBracketed 91 93 text with
    | Some m =>
      items <- liftResult (JSON_parse_array m) ;;
      ret (allResults ++ items)
    | None => ret allResults
    end
  | _ => throw NOT_A_FUNCTION
  end.

(** The loop [for (let i = 0; i < chunks.length; i++)], from index [i]. *)
Fixpoint analyzeFrom (aiSettings : AISettings) (total i : Z)
    (chunks : list Segment.TextChunk) (allResults : list json)
  : Eff (list json) :=
  match chunks with
  | [] => ret allResults
  | chunk :: rest =>
    emit (EvSetProgress (i + 1) total) ;;;
    allResults' <-
      tryCatch (analyzeChunk aiSettings chunk allResults)
               (fun e => emit (EvConsoleError (i + 1) e) ;;;
                         ret allResults) ;;
    emit (EvSleep 500) ;;;
    analyzeFrom aiSettings total (i + 1) rest allResults'
  end.

Definition handleAnalyze (aiSettings : AISettings) (text : jsstring)
  : Eff unit :=
  if negb (nonEmpty (trim text)) then ret tt
  else if negb (nonEmpty (apiKey aiSettings)) then
    emit (EvSetError MSG_NO_KEY)
  else
    let chunks := Segment.splitText text Segment.defaultMaxLen in
    let total := Z.of_nat (length chunks) in
    emit (EvSetProgress 0 total) ;;;
    emit (EvSetLoading true) ;;;
    emit (EvSetError []) ;;;
    allResults <- analyzeFrom aiSettings total 0 chunks [] ;;
    emit (EvSetResults allResults) ;;;
    emit (EvSetLoading false).

(** What the outcome of the request of a chunk contributes: the items,
    or the error that is caught. *)
Definition chunkItems (o : fetchOutcome) : result (list json) :=
  match o with
  | Rejected e => Throw e
  | Responded r =>
    match body r with
    | JsonFails e => Throw e
    | JsonOk data =>
      match choiceContent data with
      | Throw e => Throw e
      | Ok picked =>
        match (if truthy picked then picked else Some (JStr (js "[]"))) with
        | Some (JStr text) =>
          match matchBracketed 91 93 text with
          | Some m => JSON_parse_array m
          | None => Ok []
          end
        | _ => Throw NOT_A_FUNCTION
        end
      end
    end
  end.

Definition itemsOf (o : fetchOutcome) : list json :=
  match chunkItems o with Ok items => items | Throw _ => [] end.

(** The requests of the chunks, and the same with the pause after
    each. *)
Definition requestsOf (aiSettings : AISettings)
    (chunks : list Segment.TextChunk) : list event :=
  map (fun c => EvFetch (extractRequest aiSettings c)) chunks.

Definition pacedRequests (aiSettings : AISettings)
    (chunks : list Segment.TextChunk) : list event :=
  flat_map (fun c => [EvFetch (extractRequest aiSettings c); EvSleep 500])
           chunks.

(** The events of the loop for the chunks [chunks], the first of which
    has the index [i] and makes the [n]-th request. *)
Fixpoint loopEvents (aiSettings : AISettings) (total i : Z) (n : nat)
    (chunks : list Segment.TextChunk) : list event :=
  match chunks with
  | [] => []
  | chunk :: rest =>
    [EvSetProgress (i + 1) total; EvFetch (extractRequest aiSettings chunk)]
    ++ match chunkItems (server n (extractRequest aiSettings chunk)) with
       | Ok _ => []
       | Throw e => [EvConsoleError (i + 1) e]
       end
    ++ [EvSleep 500]
    ++ loopEvents aiSettings total (i + 1) (S n) rest
  end.

Definition isThrow {A : Type} (r : result A) : bool :=
  match r with Throw _ => true | Ok _ => false end.

Fixpoint loopItems (aiSettings : AISettings) (n : nat)
    (chunks : list Segment.TextChunk) : list json :=
  match chunks with
  | [] => []
  | chunk :: rest =>
    itemsOf (server n (extractRequest aiSettings chunk))
    ++ loopItems aiSettings (S n) rest
  end.

(** ** MergeDuplicates.tsx: handleMerge *)

(** The table [CATEGORY_FIELDS] and the function [createEmptyDetails] of
    [./types]. *)
Variable CATEGORY_FIELDS : KnowledgeCategory -> option (list Prompt.Field).
Variable createEmptyDetails : jsstring -> list (jsstring * json).

Definition UNDEFINED_MAP : jserror :=
  mkError TypeError
    (js "Cannot read properties of undefined (reading 'map')").

Definition hasFields (e : KnowledgeEntry) : bool :=
  match CATEGORY_FIELDS (category e) with
  | Some _ => true
  | None => false
  end.

(** [allContent]: the text is part of the request; building it calls
    [fields.map] for every entry, which throws when the table has no
    fields for the category of an entry. *)
Definition collectContent (group : Merge.DuplicateGroup) : Eff unit :=
  if forallb hasFields (Merge.entries group) then ret tt
  else throw UNDEFINED_MAP.

Definition mergeRequest (aiSettings : AISettings)
    (group : Merge.DuplicateGroup) : request :=
  mkRequest (apiUrl aiSettings) (apiKey aiSettings) (model aiSettings)
            (MergePrompt group).

(** [const firstKey = Object.keys(mergedDetails)[0];
     if (firstKey) mergedDetails[firstKey] = v] *)
Definition setFirstKey (mergedDetails : list (jsstring * json)) (v : json)
  : list (jsstring * json) :=
  match mergedDetails with
  | (firstKey, old) :: rest =>
    if nonEmpty firstKey then (firstKey, v) :: rest else mergedDetails
  | [] => []
  end.

(** [v || d] *)
Definition orElse (v : option json) (d : json) : json :=
  match v with
  | Some x => if truthy v then x else d
  | None => d
  end.

Definition mergedEntry (group : Merge.DuplicateGroup)
    (parsed : list (jsstring * json)) : newEntry :=
  let mergedDetails :=
    setFirstKey (createEmptyDetails (Merge.groupCategory group))
                (orElse (Prompt.getDetail parsed (js "content")) (JStr []))
  in
  mkNewEntry
    (Merge.groupCategory group)
    (orElse (Prompt.getDetail parsed (js "title"))
            (JStr (Merge.baseName group ++ js "（合并）")))
    (match Prompt.getDetail parsed (js "keywords") with
     | Some (JArr kws) => kws
     | _ => []
     end)
    mergedDetails.

(** [for (const entry of group.entries) deleteKnowledge(entry.id)] *)
Fixpoint deleteAll (es : list KnowledgeEntry) : Eff unit :=
  match es with
  | [] => ret tt
  | e :: rest => emit (EvDeleteKnowledge (id e)) ;;; deleteAll rest
  end.

Definition apiError (prefix : jsstring) (res : response) : jserror :=
  mkError PlainError (prefix ++ numberToString (status res)).

Definition RAW_NOT_A_FUNCTION : jserror :=
  mkError TypeError (js "rawContent.match is not a function").

(** The [try] block of [handleMerge]. *)
Definition mergeBody (aiSettings : AISettings) (deleteOriginals : bool)
    (group : Merge.DuplicateGroup) : Eff unit :=
  res <- fetch (mergeRequest aiSettings group) ;;
  (if negb (ok res) then throw (apiError MSG_API_ERROR_MERGE res)
   else ret tt) ;;;
  data <- resJson res ;;
  picked <- liftResult (choiceContent data) ;;
  let rawContent := if truthy picked then picked else Some (JStr []) in
  match rawContent with
  | Some (JStr text) =>
    match matchBracketed 123 125 text with
    | Some m =>
      parsed <- liftResult (JSON_parse_object m) ;;
      emit (EvAddKnowledge (mergedEntry group parsed)) ;;;
      (if deleteOriginals then deleteAll (Merge.entries group)
       else ret tt) ;;;
      emit (EvSetMergeResult
              (MergedInto (Z.of_nat (length (Merge.entries group)))
                          (Prompt.getDetail parsed (js "title")))) ;;;
      emit (EvSetSelectedGroup None)
    | None => emit (EvSetError MSG_FORMAT)
    end
  | _ => throw RAW_NOT_A_FUNCTION
  end.

Definition handleMerge (aiSettings : AISettings) (deleteOriginals : bool)
    (group : Merge.DuplicateGroup) : Eff unit :=
  if negb (nonEmpty (apiKey aiSettings)) then emit (EvSetError MSG_NO_KEY)
  else
    emit (EvSetMerging true) ;;;
    emit (EvSetError []) ;;;
    emit (EvSetMergeResult NoResult) ;;;
    collectContent group ;;;
    tryFinally
      (tryCatch (mergeBody aiSettings deleteOriginals group)
                (fun e => emit (EvSetError (MSG_MERGE_FAILED ++ message e))))
      (emit (EvSetMerging false)).

(** What the response to the merge request holds: the properties of the
    merged object, no text in braces at all, or a failure. *)
Inductive mergeReply : Type :=
| Parsed (props : list (jsstring * json))
| NoObject
| Failed (e : jserror).

Definition replyOf (o : fetchOutcome) : mergeReply :=
  match o with
  | Rejected e => Failed e
  | Responded r =>
    if negb (ok r) then Failed (apiError MSG_API_ERROR_MERGE r)
    else match body r with
    | JsonFails e => Failed e
    | JsonOk data =>
      match choiceContent data with
      | Throw e => Failed e
      | Ok picked =>
        match (if truthy picked then picked else Some (JStr [])) with
        | Some (JStr text) =>
          match matchBracketed 123 125 text with
          | Some m => match JSON_parse_object m with
                      | Ok parsed => Parsed parsed
                      | Throw e => Failed e
                      end
          | None => NoObject
          end
        | _ => Failed RAW_NOT_A_FUNCTION
        end
      end
    end
  end.

(** The events of the [try] block after the request. *)
Definition afterReply (deleteOriginals : bool)
    (group : Merge.DuplicateGroup) (reply : mergeReply) : list event :=
  match reply with
  | Parsed parsed =>
    [EvAddKnowledge (mergedEntry group parsed)]
    ++ (if deleteOriginals
        then map (fun e => EvDeleteKnowledge (id e)) (Merge.entries group)
        else [])
    ++ [EvSetMergeResult
          (MergedInto (Z.of_nat (length (Merge.entries group)))
                      (Prompt.getDetail parsed (js "title")));
        EvSetSelectedGroup None]
  | NoObject => [EvSetError MSG_FORMAT]
  | Failed _ => []
  end.

(** [handleMergeAll]: the loop over [duplicates], from the index [i];
    the list is the one of the render in which the handler was made. *)
Fixpoint mergeAllFrom (aiSettings : AISettings) (deleteOriginals : bool)
    (i : Z) (duplicates : list Merge.DuplicateGroup) : Eff unit :=
  match duplicates with
  | [] => ret tt
  | group :: rest =>
    emit (EvSetSelectedGroup (Some i)) ;;;
    handleMerge aiSettings deleteOriginals group ;;;
    emit (EvSleep 2000) ;;;
    mergeAllFrom aiSettings deleteOriginals (i + 1) rest
  end.

Definition handleMergeAll (aiSettings : AISettings)
    (deleteOriginals : bool) (duplicates : list Merge.DuplicateGroup)
  : Eff unit :=
  mergeAllFrom aiSettings deleteOriginals 0 duplicates.

(** The requests of the groups with the pause after each, and what the
    run does to the store for the group [g] whose request is the [n]-th. *)
Definition pacedMerges (aiSettings : AISettings)
    (duplicates : list Merge.DuplicateGroup) : list event :=
  flat_map (fun g => [EvFetch (mergeRequest aiSettings g); EvSleep 2000])
           duplicates.

Definition storeOpsOf (aiSettings : AISettings) (deleteOriginals : bool)
    (n : nat) (g : Merge.DuplicateGroup) : list event :=
  filter isStoreOp
    (afterReply deleteOriginals g
       (replyOf (server n (mergeRequest aiSettings g)))).

(** ** The AI module: sendToAI *)

Variable toLowerCase : jsstring -> jsstring.

(** [messages[messages.length - 1]?.content || ''] *)
Definition lastUserMsg (messages : list Message) : jsstring :=
  match rev messages with
  | m :: _ => msgContent m
  | [] => []
  end.

(** [byCategory[k.category].push(k.title)], the object keeping its keys
    in the order of their insertion. *)
Fixpoint pushTitle (cat t : jsstring)
    (byCategory : list (jsstring * list jsstring))
  : list (jsstring * list jsstring) :=
  match byCategory with
  | [] => [(cat, [t])]
  | (c, ts) :: rest =>
    if jseqb c cat then (c, ts ++ [t]) :: rest
    else (c, ts) :: pushTitle cat t rest
  end.

Definition getAllKnowledgeSummary (st : Knowledge.storeState) : jsstring :=
  let allKnowledge :=
    Knowledge.knowledge st ++ Knowledge.externalKnowledge st in
  match allKnowledge with
  | [] => []
  | _ :: _ =>
    let byCategory :=
      fold_left (fun acc k =>
                   pushTitle (categoryName (category k)) (title k) acc)
                allKnowledge [] in
    js "【知识库索引】" ++ [NL]
    ++ concat (map (fun ct => fst ct ++ js ": "
                              ++ join (js "、") (snd ct) ++ [NL])
                   byCategory)
  end.

(** [currentContent.replace(/<[^>]*>/g, '')]: a tag runs from an opening
    angle bracket to the next closing one. *)
Fixpoint stripTagsFrom (s : jsstring) (inTag : bool) : jsstring :=
  match s with
  | [] => []
  | c :: s' =>
    if inTag then stripTagsFrom s' (negb (c =? 62)%N)
    else if ((c =? 60)%N && existsb (N.eqb 62) s')
    then stripTagsFrom s' true
    else c :: stripTagsFrom s' false
  end.

Definition DEFAULT_PROMPT : jsstring :=
  js "你是一个专业的小说写作助手。帮助用户进行创作、润色、分析角色、构思情节等。
回答要简洁实用，直接给出建议或修改后的内容。".

Definition KNOWLEDGE_NOTE : jsstring :=
  js "

【重要】你拥有一个知识库，里面存储了小说的人物、设定、剧情等信息。
当用户问到与小说相关的问题时（如角色关系、见面次数、地点、事件等），请根据知识库中的信息回答。
如果知识库中没有相关信息，请诚实告知用户" ++ [34%N]
  ++ js "知识库中未找到相关信息" ++ [34%N] ++ js "。".

Definition buildSystemPrompt (st : Knowledge.storeState)
    (messages : list Message) (settings : AISettings)
    (currentContent : option jsstring) : jsstring :=
  let matched :=
    Knowledge.getMatchedKnowledge toLowerCase st (lastUserMsg messages) in
  let knowledgeSummary := getAllKnowledgeSummary st in
  let p0 := if nonEmpty (systemPrompt settings) then systemPrompt settings
            else DEFAULT_PROMPT in
  let p1 := p0 ++ KNOWLEDGE_NOTE in
  let p2 := if nonEmpty knowledgeSummary
            then p1 ++ [NL; NL] ++ knowledgeSummary else p1 in
  let p3 := p2 ++ Prompt.renderSection CATEGORY_FIELDS matched in
  match currentContent with
  | Some c =>
    if nonEmpty c then
      let plainText := trim (stripTagsFrom c false) in
      if (0 <? length plainText)%nat
      then p3 ++ [NL; NL] ++ js "当前文档内容：" ++ [NL]
              ++ slice0 3000 plainText
      else p3
    else p3
  | None => p3
  end.

Definition chatRequest (st : Knowledge.storeState)
    (messages : list Message) (settings : AISettings)
    (currentContent : option jsstring) : request :=
  mkRequest (apiUrl settings) (apiKey settings) (model settings)
    (ChatPrompt (buildSystemPrompt st messages settings currentContent)
                messages).

Definition sendToAI (st : Knowledge.storeState) (messages : list Message)
    (settings : AISettings) (currentContent : option jsstring)
  : Eff json :=
  res <- fetch (chatRequest st messages settings currentContent) ;;
  if negb (ok res) then throw (apiError MSG_API_ERROR_CHAT res)
  else
    data <- resJson res ;;
    picked <- liftResult (choiceContent data) ;;
    ret (orElse picked (JStr MSG_NO_RESPONSE)).

(** The value at a path of property names and indices of a JSON value,
    as the optional chain reads it: nothing is found below [null], below
    a missing property or beside the listed cases. *)
Inductive pathStep : Type :=
| Prop_ (name : jsstring)
| Index0.

Inductive AtPath : json -> list pathStep -> json -> Prop :=
| AtPath_here (v : json) : AtPath v [] v
| AtPath_prop (props : list (jsstring * json)) (name : jsstring)
    (x v : json) (rest : list pathStep) :
    Prompt.getDetail props name = Some x ->
    AtPath x rest v ->
    AtPath (JObj props) (Prop_ name :: rest) v
| AtPath_index (w x v : json) (rest : list pathStep) :
    getIndex0 w = Some x ->
    AtPath x rest v ->
    AtPath w (Index0 :: rest) v.

(** [choices[0].message.content] *)
Definition CONTENT_PATH : list pathStep :=
  [Prop_ (js "choices"); Index0; Prop_ (js "message"); Prop_ (js "content")].

End Calls.

(** *** Fixtures for the examples *)

Definition sampleSettings : AISettings :=
  mkSettings (js "https://api.example/v1/chat") (js "sk-1") (js "m") [].

(** A body as the completion API sends it, with the text [content]. *)
Definition completion (content : json) : json :=
  JObj [(js "choices",
         JArr [JObj [(js "message", JObj [(js "content", content)])]])].

(** A server that gives every request the same response. *)
Definition always (r : response) : nat -> request -> fetchOutcome :=
  fun _ _ => Responded r.

(** The body of an error response. *)
Definition errorBody : json :=
  JObj [(js "error", JObj [(js "message", JStr (js "overloaded"))])].

(** A text of one paragraph of 60 characters. *)
Definition sampleText : jsstring := repeat 97%N 60.

(** [JSON.parse] on the text of the empty array; other texts are not
    needed by the examples. *)
Definition parseEmptyArray (s : jsstring) : result (list json) :=
  if jseqb s (js "[]") then Ok []
  else Throw (mkError SyntaxError (js "Unexpected token")).

(** [JSON.parse] on the text of the array of the number 1. *)
Definition parseOneItem (s : jsstring) : result (list json) :=
  if jseqb s (js "[1]") then Ok [JNum 1]
  else Throw (mkError SyntaxError (js "Unexpected token")).

Definition parseNothing (s : jsstring)
  : result (list (jsstring * json)) :=
  Throw (mkError SyntaxError (js "Unexpected token")).

Definition emptyStore : Knowledge.storeState := Knowledge.mkStore [] [].

Definition userAsks : list Message := [mkMessage (js "user") (js "你好")].

End Effects.

(* ================================================================== *)
(** * LongTextImport.tsx: the merge of the extracted items *)
(* ================================================================== *)

Module ImportMerge.

(** [interface ExtractedItem]; the items are taken to have the declared
    type. *)
Record ExtractedItem : Type := mkItem {
  itemCategory : jsstring;
  itemTitle : jsstring;
  itemKeywords : list jsstring;
  itemContent : jsstring
}.

(** The test of [acc.find]:
    [a.title === item.title && a.category === item.category] *)
Definition sameItem (a item : ExtractedItem) : bool :=
  jseqb (itemTitle a) (itemTitle item)
  && jseqb (itemCategory a) (itemCategory item).

(** [[...new Set(l)]]: the elements in the order of their first
    occurrence. *)
Definition setOf (l : list jsstring) : list jsstring := Merge.firstOcc l.

(** The update of [existing] in place. *)
Definition absorb (existing item : ExtractedItem) : ExtractedItem :=
  mkItem (itemCategory existing) (itemTitle existing)
         (setOf (itemKeywords existing ++ itemKeywords item))
         (itemContent existing ++ [NL; NL] ++ itemContent item).

(** The callback of [results.reduce]: [find] returns the first element
    that passes the test. *)
Fixpoint mergeItem (acc : list ExtractedItem) (item : ExtractedItem)
  : list ExtractedItem :=
  match acc with
  | [] => [item]
  | a :: rest =>
    if sameItem a item then absorb a item :: rest
    else a :: mergeItem rest item
  end.

Definition mergedResults (results : list ExtractedItem)
  : list ExtractedItem :=
  fold_left mergeItem results [].

(** The title and the category of an item. *)
Definition itemKey (i : ExtractedItem) : jsstring * jsstring :=
  (itemTitle i, itemCategory i).

End ImportMerge.

(* ================================================================== *)
(** * The export module: sanitizeFileName, escapeHtml, htmlToPlainText *)
(* ================================================================== *)

Module ExportDoc.

(** The class of the first replacement of [sanitizeFileName]: the
    characters that a file name cannot hold and the control characters. *)
Definition isIllegal (c : N) : bool :=
  ((c =? 60) || (c =? 62) || (c =? 58) || (c =? 34) || (c =? 47)
   || (c =? 92) || (c =? 124) || (c =? 63) || (c =? 42) || (c <=? 0x1F))%N.

Definition UNDERSCORE : N := 95%N.

Definition replaceIllegal (s : jsstring) : jsstring :=
  map (fun c => if isIllegal c then UNDERSCORE else c) s.

(** [.replace(/\s+/g, ' ')]: every run of white space becomes one
    space; [inRun] holds inside a run. *)
Fixpoint collapseFrom (s : jsstring) (inRun : bool) : jsstring :=
  match s with
  | [] => []
  | c :: s' =>
    if isWhiteSpace c then
      if inRun then collapseFrom s' true else SPACE :: collapseFrom s' true
    else c :: collapseFrom s' false
  end.

Definition collapseSpaces (s : jsstring) : jsstring := collapseFrom s false.

Definition isDotOrSpace (c : N) : bool := ((c =? 46) || (c =? 32))%N.

(** [.replace(/[. ]+$/g, '')]: the dots and spaces that end the text are
    removed. *)
Fixpoint stripTrailing (s : jsstring) : jsstring :=
  match s with
  | [] => []
  | c :: s' =>
    if forallb isDotOrSpace (c :: s') then [] else c :: stripTrailing s'
  end.

Definition DOCUMENT : jsstring := Eval cbv in js "document".

(** The constant [cleaned] of [sanitizeFileName]. *)
Definition cleaned (name : jsstring) : jsstring :=
  stripTrailing (trim (collapseSpaces (replaceIllegal name))).

Definition sanitizeFileName (name : jsstring) : jsstring :=
  if nonEmpty (cleaned name) then cleaned name else DOCUMENT.

(** [.replace(/c/g, rep)] for one character [c] *)
Definition replaceChar (c : N) (rep s : jsstring) : jsstring :=
  flat_map (fun x => if (x =? c)%N then rep else [x]) s.

Definition escapeHtml (text : jsstring) : jsstring :=
  replaceChar 39 (js "&#39;")
    (replaceChar 34 (js "&quot;")
       (replaceChar 62 (js "&gt;")
          (replaceChar 60 (js "&lt;")
             (replaceChar 38 (js "&amp;") text)))).

(** The characters that delimit tags and attribute values. *)
Definition isMarkupChar (c : N) : bool :=
  ((c =? 60) || (c =? 62) || (c =? 34) || (c =? 39))%N.

(** The entity of a character, when [escapeHtml] has one for it. *)
Definition entityOf (c : N) : jsstring :=
  if (c =? 38)%N then js "&amp;"
  else if (c =? 60)%N then js "&lt;"
  else if (c =? 62)%N then js "&gt;"
  else if (c =? 34)%N then js "&quot;"
  else if (c =? 39)%N then js "&#39;"
  else [c].

(** [.replace(re, rep)] with the flag [g] for a pattern whose matches are
    not empty: [matchLen] gives the length of the match at the start of a
    text, [skip] counts the characters of a match that are still to be
    passed. *)
Fixpoint replaceAllFrom (matchLen : jsstring -> option nat)
    (rep s : jsstring) (skip : nat) : jsstring :=
  match s with
  | [] => []
  | c :: s' =>
    match skip with
    | S k => replaceAllFrom matchLen rep s' k
    | O =>
      match matchLen s with
      | Some (S n) => rep ++ replaceAllFrom matchLen rep s' n
      | _ => c :: replaceAllFrom matchLen rep s' O
      end
    end
  end.

Definition replaceAll (matchLen : jsstring -> option nat)
    (rep s : jsstring) : jsstring :=
  replaceAllFrom matchLen rep s O.

(** A literal pattern, letters compared without case when the pattern is
    given in lower case (flag [i]). *)
Definition literalCI (pat s : jsstring) : option nat :=
  if Segment.startsWithCI s pat then Some (length pat) else None.

(** A literal pattern. *)
Definition literal (pat s : jsstring) : option nat :=
  if startsWith s pat then Some (length pat) else None.

(** The pattern of a line break tag: the characters of an opening
    angle bracket and of br, white space if any, a slash if any, a
    closing angle bracket; without case. *)
Definition matchBr (s : jsstring) : option nat :=
  if Segment.startsWithCI s (js "<br") then
    let r := skipn 3 s in
    let ws := takeWhile isWhiteSpace r in
    match dropWhile isWhiteSpace r with
    | c :: r' =>
      if (c =? 47)%N then
        match r' with
        | c' :: _ => if (c' =? 62)%N then Some (5 + length ws)%nat else None
        | [] => None
        end
      else if (c =? 62)%N then Some (4 + length ws)%nat
      else None
    | [] => None
    end
  else None.

(** The pattern of the end tag of a heading, [h1] to [h6]; without
    case. *)
Definition matchHeadingEnd (s : jsstring) : option nat :=
  if Segment.startsWithCI s (js "</h") then
    match skipn 3 s with
    | d :: c :: _ =>
      if ((49 <=? d) && (d <=? 54) && (c =? 62))%N then Some 5%nat
      else None
    | _ => None
    end
  else None.

Definition htmlToPlainText (html : jsstring) : jsstring :=
  let s1 := replaceAll matchBr [NL] html in
  let s2 := replaceAll (literalCI (js "</p>")) [NL; NL] s1 in
  let s3 := replaceAll (literalCI (js "</div>")) [NL] s2 in
  let s4 := replaceAll matchHeadingEnd [NL; NL] s3 in
  let s5 := Effects.stripTagsFrom s4 false in
  let s6 := replaceAll (literal (js "&nbsp;")) [SPACE] s5 in
  let s7 := replaceAll (literal (js "&lt;")) [60%N] s6 in
  let s8 := replaceAll (literal (js "&gt;")) [62%N] s7 in
  let s9 := replaceAll (literal (js "&amp;")) [38%N] s8 in
  trim s9.

(** [saveAs(blob, name)]: the name and the text of the file saved. *)
Definition exportToTxt (title content : jsstring) : jsstring * jsstring :=
  let text := htmlToPlainText content in
  let safeTitle := sanitizeFileName title in
  (safeTitle ++ js ".txt", text).

Definition wordDocument (safeTitle content : jsstring) : jsstring :=
  [NL] ++ js "    <html xmlns:o=" ++ [34%N]
  ++ js "urn:schemas-microsoft-com:office:office" ++ [34%N] ++ js " "
  ++ [NL] ++ js "          xmlns:w=" ++ [34%N]
  ++ js "urn:schemas-microsoft-com:office:word" ++ [34%N] ++ js ">"
  ++ [NL] ++ js "    <head><meta charset=" ++ [34%N] ++ js "utf-8"
  ++ [34%N] ++ js "><title>" ++ escapeHtml safeTitle
  ++ js "</title></head>"
  ++ [NL] ++ js "    <body>" ++ content ++ js "</body>"
  ++ [NL] ++ js "    </html>" ++ [NL] ++ js "  ".

Definition exportToWord (title content : jsstring) : jsstring * jsstring :=
  let safeTitle := sanitizeFileName title in
  (safeTitle ++ js ".doc", wordDocument safeTitle content).

End ExportDoc.

(* ================================================================== *)
(** * Properties *)
(* ================================================================== *)

(** ** Strings *)

Section StringFacts.

Example numberToString_ex :
  numberToString 0 = js "0" /\ numberToString 5 = js "5" /\
  numberToString 500 = js "500" /\ numberToString 1234567 = js "1234567" /\
  numberToString (-42) = js "-42".
Proof. repeat split; vm_compute; reflexivity. Qed.

Example trim_ex : trim (js "  a b 　
") = js "a b".
Proof. vm_compute. reflexivity. Qed.

Lemma takeWhile_dropWhile (p : N -> bool) (s : jsstring) :
  takeWhile p s ++ dropWhile p s = s.
Proof.
  induction s as [|c s IH]; simpl; [reflexivity|].
  destruct (p c); simpl; [now rewrite IH | reflexivity].
Qed.

Lemma takeWhile_all (p : N -> bool) (s : jsstring) :
  forallb p (takeWhile p s) = true.
Proof.
  induction s as [|c s IH]; simpl; [reflexivity|].
  destruct (p c) eqn:E; simpl; [now rewrite E | reflexivity].
Qed.

Lemma dropWhile_all (p : N -> bool) (s : jsstring) :
  forallb p s = true -> dropWhile p s = [].
Proof.
  induction s as [|c s IH]; simpl; [reflexivity|].
  intros H. apply andb_true_iff in H as [Hc Hs]. now rewrite Hc, IH.
Qed.

Lemma dropWhile_app_all (p : N -> bool) (x s : jsstring) :
  forallb p x = true -> dropWhile p (x ++ s) = dropWhile p s.
Proof.
  induction x as [|c x IH]; simpl; [reflexivity|].
  intros H. apply andb_true_iff in H as [Hc Hx]. now rewrite Hc, IH.
Qed.

Lemma dropWhile_incl (p : N -> bool) (s : jsstring) (c : N) :
  In c (dropWhile p s) -> In c s.
Proof.
  induction s as [|d s IH]; simpl; [tauto|].
  destruct (p d); simpl; tauto.
Qed.

Lemma dropWhile_head (p : N -> bool) (s r : jsstring) (c : N) :
  dropWhile p s = c :: r -> p c = false.
Proof.
  induction s as [|d s IH]; simpl; [discriminate|].
  destruct (p d) eqn:E; [exact IH|].
  intros H. injection H as -> _. exact E.
Qed.

Lemma trimEnd_not_all (s : jsstring) :
  forallb isWhiteSpace s = false -> forallb isWhiteSpace (trimEnd s) = false.
Proof.
  induction s as [|c s IH]; [discriminate|].
  intros E. cbn [trimEnd]. rewrite E.
  cbn [forallb] in *. apply andb_false_iff in E as [E|E].
  - now rewrite E.
  - rewrite (IH E). apply andb_false_r.
Qed.

Lemma trimEnd_idem (s : jsstring) : trimEnd (trimEnd s) = trimEnd s.
Proof.
  induction s as [|c s IH]; [reflexivity|].
  cbn [trimEnd]. destruct (forallb isWhiteSpace (c :: s)) eqn:E;
    [reflexivity|].
  cbn [trimEnd].
  pose proof (trimEnd_not_all _ E) as H.
  cbn [trimEnd] in H. rewrite E in H. now rewrite H, IH.
Qed.

Lemma trimStart_trimEnd (s : jsstring) :
  trimStart (trimEnd s) = trimEnd (trimStart s).
Proof.
  unfold trimStart.
  induction s as [|c s IH]; [reflexivity|].
  cbn [trimEnd]. destruct (forallb isWhiteSpace (c :: s)) eqn:E.
  - now rewrite (dropWhile_all _ _ E).
  - cbn [dropWhile]. destruct (isWhiteSpace c) eqn:Hc.
    + exact IH.
    + cbn [trimEnd]. now rewrite E.
Qed.

Lemma trim_trimEnd (s : jsstring) : trim (trimEnd s) = trim s.
Proof.
  unfold trim. now rewrite trimStart_trimEnd, trimEnd_idem.
Qed.

Lemma trim_idem (s : jsstring) : trim (trim s) = trim s.
Proof.
  unfold trim at 2. rewrite trim_trimEnd.
  unfold trim, trimStart.
  assert (H : forall t, dropWhile isWhiteSpace (dropWhile isWhiteSpace t)
                        = dropWhile isWhiteSpace t).
  { induction t as [|c t IH]; [reflexivity|].
    cbn [dropWhile]. destruct (isWhiteSpace c) eqn:E; [exact IH|].
    cbn [dropWhile]. now rewrite E. }
  now rewrite H.
Qed.

Lemma nonEmpty_true (s : jsstring) : nonEmpty s = true <-> s <> [].
Proof. destruct s; simpl; split; congruence. Qed.

End StringFacts.

(** ** getBaseName *)

Section BaseName.
Import Merge.

Example getBaseName_ex1 :
  getBaseName (js "张三 (2)") = js "张三".
Proof. vm_compute. reflexivity. Qed.

Example getBaseName_ex2 :
  getBaseName (js " 张三（12） ") = js "张三".
Proof. vm_compute. reflexivity. Qed.

Example getBaseName_ex3 :
  getBaseName (js "a(1)(2)") = js "a(1)".
Proof. vm_compute. reflexivity. Qed.

Lemma openParen_other (c : N) :
  isOpenParen c = true ->
  isWhiteSpace c = false /\ isDigit c = false /\ isCloseParen c = false.
Proof.
  unfold isOpenParen. intros H.
  apply orb_true_iff in H as [H|H]; apply N.eqb_eq in H; subst c;
    repeat split; reflexivity.
Qed.

(** A text matched by the expression holds an opening parenthesis. *)
Lemma matchesSuffix_open (s : jsstring) :
  matchesSuffix s = true -> exists c, In c s /\ isOpenParen c = true.
Proof.
  unfold matchesSuffix.
  destruct (dropWhile isWhiteSpace s) as [|c r] eqn:E; [discriminate|].
  intros H. apply andb_true_iff in H as [H _].
  exists c. split; [|exact H].
  apply (dropWhile_incl isWhiteSpace). rewrite E. now left.
Qed.

(** What follows the opening parenthesis of a match: digits, a closing
    parenthesis and white space only. *)
Lemma matched_tail_chars (r : jsstring) :
  match takeWhile isDigit r, dropWhile isDigit r with
  | _ :: _, c' :: r' => isCloseParen c' && forallb isWhiteSpace r'
  | _, _ => false
  end = true ->
  forall c, In c r ->
    isDigit c = true \/ isCloseParen c = true \/ isWhiteSpace c = true.
Proof.
  intros H c Hc.
  rewrite <- (takeWhile_dropWhile isDigit r) in Hc.
  pose proof (takeWhile_all isDigit r) as Hd.
  destruct (takeWhile isDigit r) as [|d ds]; [discriminate|].
  destruct (dropWhile isDigit r) as [|c' r']; [discriminate|].
  apply andb_true_iff in H as [Hcl Hws].
  apply in_app_or in Hc as [Hc|Hc].
  - left. rewrite forallb_forall in Hd. now apply Hd.
  - destruct Hc as [<-|Hc]; [now (right; left)|].
    right; right. rewrite forallb_forall in Hws. now apply Hws.
Qed.

Lemma matchesSuffix_app (x suf : jsstring) :
  matchesSuffix suf = true ->
  matchesSuffix (x ++ suf) = forallb isWhiteSpace x.
Proof.
  intros Hsuf. induction x as [|c x IH]; [exact Hsuf|].
  cbn [forallb app]. destruct (isWhiteSpace c) eqn:Hc.
  - rewrite <- IH. unfold matchesSuffix. cbn [dropWhile]. now rewrite Hc.
  - cbn [andb]. unfold matchesSuffix. cbn [dropWhile]. rewrite Hc.
    destruct (isOpenParen c) eqn:Ho; [|reflexivity].
    cbn [andb].
    match goal with |- ?m = false => destruct m eqn:Hm end;
      [|reflexivity].
    exfalso.
    destruct (matchesSuffix_open _ Hsuf) as (o & Hin & Hop).
    destruct (openParen_other _ Hop) as (W & D & C).
    destruct (matched_tail_chars _ Hm o) as [K|[K|K]]; try congruence.
    apply in_or_app. now right.
Qed.

(** Removing the suffix of [T ++ suffix] also removes the white space
    that ends [T]. *)
Lemma stripSuffix_app (T suf : jsstring) :
  matchesSuffix suf = true -> stripSuffix (T ++ suf) = trimEnd T.
Proof.
  intros Hsuf. induction T as [|c T IH].
  - cbn [app trimEnd]. destruct suf; cbn [stripSuffix]; now rewrite Hsuf.
  - change ((c :: T) ++ suf) with (c :: (T ++ suf)).
    cbn [stripSuffix trimEnd].
    change (c :: (T ++ suf)) with ((c :: T) ++ suf).
    rewrite (matchesSuffix_app (c :: T) suf Hsuf).
    destruct (forallb isWhiteSpace (c :: T)); [reflexivity|].
    now rewrite IH.
Qed.

Lemma stripSuffix_none (s : jsstring) :
  hasNumberSuffix s = false -> stripSuffix s = s.
Proof.
  induction s as [|c s IH]; cbn [hasNumberSuffix stripSuffix]; intros H;
    apply orb_false_iff in H as [H1 H2]; rewrite H1; [reflexivity|].
  now rewrite IH.
Qed.

(** Whatever the title, appending a numbered suffix and normalizing
    gives the trimmed title. *)
Lemma getBaseName_app (T suf : jsstring) :
  matchesSuffix suf = true -> getBaseName (T ++ suf) = trim T.
Proof.
  intros H. unfold getBaseName. rewrite (stripSuffix_app T suf H).
  apply trim_trimEnd.
Qed.

(** C4, as amended.  For every title [T] that does not itself end with a
    numbered suffix and every suffix [suf] of the form "(<digits>)" in
    ASCII or full-width parentheses with optional white space around it,
    [getBaseName (T + suf) = getBaseName T] (both are the trimmed [T]); and
    [getBaseName (getBaseName U) = getBaseName U] for every title [U]
    whose base name carries no further numbered suffix.  One suffix is
    removed by a call, not all of them. *)
Theorem getBaseName_suffix_once (T suf U : jsstring)
    (Hsuf : matchesSuffix suf = true)
    (HT : hasNumberSuffix T = false)
    (HU : hasNumberSuffix (getBaseName U) = false) :
  getBaseName (T ++ suf) = trim T /\
  getBaseName (T ++ suf) = getBaseName T /\
  getBaseName (getBaseName U) = getBaseName U.
Proof.
  assert (E : getBaseName T = trim T).
  { unfold getBaseName. now rewrite (stripSuffix_none T HT). }
  repeat split.
  - now apply getBaseName_app.
  - rewrite E. now apply getBaseName_app.
  - unfold getBaseName at 1. rewrite (stripSuffix_none _ HU).
    unfold getBaseName. apply trim_idem.
Qed.

Lemma getBaseName_suffix_once_witness :
  getBaseName (js "张三 " ++ js " （2） ") = getBaseName (js "张三 ") /\
  getBaseName (getBaseName (js " 李四(3)")) = getBaseName (js " 李四(3)").
Proof.
  split;
    apply (getBaseName_suffix_once (js "张三 ") (js " （2） ") (js " 李四(3)"));
    vm_compute; reflexivity.
Defined.

(** C4 as stated fails: a title that already ends with a numbered suffix
    keeps it when a second one is appended and removed, and normalizing
    such a title twice removes two suffixes. *)
Lemma getBaseName_not_idempotent :
  matchesSuffix (js "(2)") = true /\
  getBaseName (js "a(1)" ++ js "(2)") = js "a(1)" /\
  getBaseName (js "a(1)") = js "a" /\
  getBaseName (js "a(1)" ++ js "(2)") <> getBaseName (js "a(1)") /\
  getBaseName (getBaseName (js "a(1)(2)")) <> getBaseName (js "a(1)(2)").
Proof.
  repeat split; try (vm_compute; reflexivity); vm_compute; discriminate.
Qed.

End BaseName.

(** ** findDuplicates *)

Section Duplicates.
Import Merge.

Example findDuplicates_ex :
  let a1 := entryOf Person "张三" "1" in
  let b1 := entryOf Plot "开端" "2" in
  let a2 := entryOf Person "张三 (2)" "3" in
  let c1 := entryOf Person "李四" "4" in
  let b2 := entryOf Plot "开端（2）" "5" in
  let b3 := entryOf Plot "开端(3)" "6" in
  let w1 := entryOf WorldView "a::b" "7" in
  let w2 := entryOf WorldView "a::b(2)" "8" in
  findDuplicates [a1; b1; a2; c1; b2; b3; w1; w2] =
  [ mkGroup (js "开端") (js "剧情") [b1; b2; b3];
    mkGroup (js "张三") (js "人物") [a1; a2];
    mkGroup (js "a") (js "世界观") [w1; w2] ].
Proof. vm_compute. reflexivity. Qed.

Lemma jseqb_eq (a b : jsstring) : jseqb a b = true <-> a = b.
Proof.
  revert b. induction a as [|x a IH]; intros [|y b]; simpl;
    try (split; [discriminate|discriminate]); [tauto|].
  rewrite andb_true_iff, N.eqb_eq, IH.
  split; [intros [-> ->]; reflexivity | intros H; injection H; tauto].
Qed.

Lemma jseqb_refl (a : jsstring) : jseqb a a = true.
Proof. now apply jseqb_eq. Qed.

Lemma jseqb_neq (a b : jsstring) : jseqb a b = false <-> a <> b.
Proof.
  rewrite <- jseqb_eq. destruct (jseqb a b); split; congruence.
Qed.

(** The category names are distinct and hold no colon, so the key of an
    entry determines its category and its base name. *)
Lemma groupKey_inj (e1 e2 : KnowledgeEntry) :
  groupKey e1 = groupKey e2 ->
  category e1 = category e2 /\
  getBaseName (title e1) = getBaseName (title e2).
Proof.
  unfold groupKey.
  destruct (category e1), (category e2); cbn [categoryName app];
    intros H; try discriminate H; split; try reflexivity;
    repeat (injection H as H); exact H.
Qed.

(** *** Order of occurrence *)

Lemma Before_In {A : Type} (x y : A) (l : list A) :
  Before x y l -> In x l /\ In y l.
Proof.
  induction 1 as [l H | z l _ [IH1 IH2]]; simpl; tauto.
Qed.

Lemma Before_app {A : Type} (x y : A) (l1 l2 : list A) :
  Before x y (l1 ++ l2) ->
  Before x y l1 \/ Before x y l2 \/ (In x l1 /\ In y l2).
Proof.
  induction l1 as [|z l1 IH]; cbn [app]; intros H; [tauto|].
  inversion H as [l Hy | z' l Hb]; subst.
  - apply in_app_or in Hy as [Hy|Hy].
    + left. now constructor.
    + right; right. simpl. tauto.
  - destruct (IH Hb) as [K|[K|[K1 K2]]].
    + left. now constructor 2.
    + tauto.
    + right; right. simpl. tauto.
Qed.

Lemma Before_app_l {A : Type} (x y : A) (l1 l2 : list A) :
  Before x y l1 -> Before x y (l1 ++ l2).
Proof.
  induction 1 as [l H | z l _ IH]; cbn [app].
  - constructor. apply in_or_app. now left.
  - now constructor 2.
Qed.

Lemma Before_map {A B : Type} (f : A -> B) (a b : B) (l : list A) :
  Before a b (map f l) ->
  exists x y, a = f x /\ b = f y /\ Before x y l.
Proof.
  induction l as [|z l IH]; cbn [map]; intros H;
    inversion H as [l' Hy | z' l' Hb]; subst.
  - apply in_map_iff in Hy as (y & <- & Hy).
    exists z, y. repeat split. now constructor.
  - destruct (IH Hb) as (x & y & -> & -> & K).
    exists x, y. repeat split. now constructor 2.
Qed.

Lemma Before_flat_map {A B : Type} (f : A -> list B) (a b : B)
    (l : list A) :
  (forall x, length (f x) <= 1) ->
  Before a b (flat_map f l) ->
  exists x y, In a (f x) /\ In b (f y) /\ Before x y l.
Proof.
  intros Hf. induction l as [|z l IH]; cbn [flat_map]; intros H.
  - inversion H.
  - destruct (Before_app _ _ _ _ H) as [K|[K|[K1 K2]]].
    + exfalso. specialize (Hf z).
      destruct (f z) as [|u [|v r]]; simpl in Hf; try lia;
        inversion K as [l' Hy | z' l' Hb]; subst;
        [destruct Hy | inversion Hb].
    + destruct (IH K) as (x & y & Hx & Hy & Hb).
      exists x, y. repeat split; trivial. now constructor 2.
    + apply in_flat_map in K2 as (y & Hy & Hb).
      exists z, y. repeat split; trivial. now constructor.
Qed.

(** *** Keys in the order of their first occurrence *)

Lemma memKey_In (k : jsstring) (ks : list jsstring) :
  memKey k ks = true <-> In k ks.
Proof.
  unfold memKey. rewrite existsb_exists. split.
  - intros (x & Hx & E). apply jseqb_eq in E. now subst.
  - intros H. exists k. split; [exact H | apply jseqb_refl].
Qed.

Lemma firstOcc_snoc (ks : list jsstring) (k : jsstring) :
  firstOcc (ks ++ [k]) =
  if memKey k (firstOcc ks) then firstOcc ks else firstOcc ks ++ [k].
Proof. unfold firstOcc. now rewrite fold_left_app. Qed.

Lemma firstOcc_In (k : jsstring) (ks : list jsstring) :
  In k (firstOcc ks) <-> In k ks.
Proof.
  revert k. induction ks as [|x ks IH] using rev_ind; intros k;
    [reflexivity|].
  rewrite firstOcc_snoc.
  destruct (memKey x (firstOcc ks)) eqn:E.
  - apply memKey_In in E. apply (proj1 (IH _)) in E.
    rewrite in_app_iff, IH. simpl.
    split; [tauto|]. intros [H|[<-|[]]]; tauto.
  - rewrite !in_app_iff, IH. reflexivity.
Qed.

Lemma firstOcc_NoDup (ks : list jsstring) : NoDup (firstOcc ks).
Proof.
  induction ks as [|x ks IH] using rev_ind; [constructor|].
  rewrite firstOcc_snoc. destruct (memKey x (firstOcc ks)) eqn:E; trivial.
  apply NoDup_app; trivial.
  - repeat constructor. simpl. tauto.
  - intros y Hy [<-|[]].
    apply memKey_In in Hy. congruence.
Qed.

Lemma firstOcc_order (k1 k2 : jsstring) (ks : list jsstring) :
  Before k1 k2 (firstOcc ks) ->
  exists pre post, ks = pre ++ k1 :: post /\ ~ In k2 pre.
Proof.
  induction ks as [|x ks IH] using rev_ind.
  - intros H. inversion H.
  - rewrite firstOcc_snoc.
    assert (K : Before k1 k2 (firstOcc ks) ->
                exists pre post, (ks ++ [x]) = pre ++ k1 :: post /\
                                 ~ In k2 pre).
    { intros H. destruct (IH H) as (pre & post & -> & Hn).
      exists pre, (post ++ [x]). split; trivial.
      now rewrite <- app_assoc. }
    destruct (memKey x (firstOcc ks)) eqn:E; [exact K|].
    intros H. destruct (Before_app _ _ _ _ H) as [H1|[H1|[H1 H2]]].
    + now apply K.
    + inversion H1 as [l Hy | z l Hb]; subst; [destruct Hy | inversion Hb].
    + destruct H2 as [<-|[]].
      apply (proj1 (firstOcc_In _ _)) in H1.
      apply in_split in H1 as (pre & post & ->).
      exists pre, (post ++ [x]). split; [now rewrite <- app_assoc|].
      intros Hin.
      assert (M : memKey x (firstOcc (pre ++ k1 :: post)) = true).
      { apply memKey_In, firstOcc_In, in_or_app. now left. }
      congruence.
Qed.

(** *** The map built by the first loop *)

Lemma jseqb_sym (a b : jsstring) : jseqb a b = jseqb b a.
Proof.
  destruct (jseqb a b) eqn:E.
  - apply jseqb_eq in E. subst. now rewrite jseqb_refl.
  - apply jseqb_neq in E. symmetry. apply jseqb_neq. congruence.
Qed.

Lemma mapHas_map (f : jsstring -> list KnowledgeEntry) (key : jsstring)
    (D : list jsstring) :
  mapHas key (map (fun k => (k, f k)) D) = memKey key D.
Proof.
  unfold mapHas, memKey. induction D as [|k D IH]; simpl; congruence.
Qed.

Lemma mapPush_absent (f : jsstring -> list KnowledgeEntry)
    (key : jsstring) (e : KnowledgeEntry) (D : list jsstring)
    (tl : groupMap) :
  memKey key D = false ->
  mapPush key e (map (fun k => (k, f k)) D ++ tl) =
  map (fun k => (k, f k)) D ++ mapPush key e tl.
Proof.
  unfold memKey. induction D as [|k D IH]; simpl; [reflexivity|].
  intros H. apply orb_false_iff in H as [H1 H2]. now rewrite H1, IH.
Qed.

Lemma mapPush_present (f : jsstring -> list KnowledgeEntry)
    (key : jsstring) (e : KnowledgeEntry) (D : list jsstring) :
  NoDup D ->
  mapPush key e (map (fun k => (k, f k)) D) =
  map (fun k => (k, if jseqb k key then f k ++ [e] else f k)) D.
Proof.
  induction 1 as [|k D Hk Hnd IH]; simpl; [reflexivity|].
  destruct (jseqb k key) eqn:E.
  - f_equal. apply map_ext_in. intros k' Hk'.
    destruct (jseqb k' key) eqn:E'; [|reflexivity].
    apply jseqb_eq in E, E'. congruence.
  - now rewrite IH.
Qed.

Lemma filter_keyIs_absent (k : jsstring) (l : list KnowledgeEntry) :
  ~ In k (map groupKey l) -> filter (keyIs k) l = [].
Proof.
  induction l as [|e l IH]; simpl; [reflexivity|].
  intros H. unfold keyIs at 1.
  destruct (jseqb (groupKey e) k) eqn:E.
  - apply jseqb_eq in E. tauto.
  - apply IH. tauto.
Qed.

Lemma filter_keyIs_snoc (k : jsstring) (l : list KnowledgeEntry)
    (e : KnowledgeEntry) :
  filter (keyIs k) (l ++ [e]) =
  if jseqb k (groupKey e) then filter (keyIs k) l ++ [e]
  else filter (keyIs k) l.
Proof.
  rewrite filter_app. cbn [filter]. unfold keyIs at 2.
  rewrite (jseqb_sym k). destruct (jseqb (groupKey e) k);
    [reflexivity | apply app_nil_r].
Qed.

Lemma addEntry_groupsOf (l : list KnowledgeEntry) (e : KnowledgeEntry) :
  addEntry (groupsOf l) e = groupsOf (l ++ [e]).
Proof.
  unfold addEntry, groupsOf.
  rewrite map_app. cbn [map]. rewrite firstOcc_snoc, mapHas_map.
  set (D := firstOcc (map groupKey l)).
  destruct (memKey (groupKey e) D) eqn:E.
  - rewrite mapPush_present by apply firstOcc_NoDup.
    apply map_ext. intros k. now rewrite filter_keyIs_snoc.
  - unfold mapSetEmpty. rewrite mapPush_absent by exact E.
    rewrite map_app. cbn [mapPush map]. rewrite jseqb_refl.
    f_equal.
    + apply map_ext_in. intros k Hk. rewrite filter_keyIs_snoc.
      destruct (jseqb k (groupKey e)) eqn:E'; [|reflexivity].
      apply jseqb_eq in E'. subst k. apply memKey_In in Hk. congruence.
    + rewrite filter_keyIs_snoc, jseqb_refl.
      rewrite filter_keyIs_absent; [reflexivity|].
      intros Hin. apply firstOcc_In, memKey_In in Hin. fold D in Hin.
      congruence.
Qed.

Lemma collectGroups_groupsOf (l : list KnowledgeEntry) :
  collectGroups l = groupsOf l.
Proof.
  induction l as [|e l IH] using rev_ind; [reflexivity|].
  unfold collectGroups in *. rewrite fold_left_app. cbn [fold_left].
  rewrite IH. apply addEntry_groupsOf.
Qed.

(** *** The sort *)

Lemma insertGroup_In (g h : DuplicateGroup) (l : list DuplicateGroup) :
  In g (insertGroup h l) <-> g = h \/ In g l.
Proof.
  induction l as [|z l IH]; simpl; [intuition congruence|].
  destruct (groupSize h <? groupSize z)%nat; simpl;
    [rewrite IH|]; intuition congruence.
Qed.

Lemma sortGroups_In (g : DuplicateGroup) (l : list DuplicateGroup) :
  In g (sortGroups l) <-> In g l.
Proof.
  induction l as [|h l IH]; simpl; [reflexivity|].
  rewrite insertGroup_In, IH. intuition congruence.
Qed.

Lemma insertGroup_sorted (h : DuplicateGroup) (l : list DuplicateGroup) :
  StronglySorted bySize l -> StronglySorted bySize (insertGroup h l).
Proof.
  induction 1 as [|z l Hs IH Hz]; simpl; [repeat constructor|].
  destruct (groupSize h <? groupSize z)%nat eqn:E.
  - apply Nat.ltb_lt in E. constructor; [exact IH|].
    apply Forall_forall. intros g Hg.
    apply insertGroup_In in Hg as [->|Hg].
    + unfold bySize. lia.
    + rewrite Forall_forall in Hz. now apply Hz.
  - apply Nat.ltb_ge in E. constructor; [now constructor|].
    constructor; [exact E|].
    apply Forall_forall. intros g Hg. rewrite Forall_forall in Hz.
    specialize (Hz g Hg). unfold bySize in *. lia.
Qed.

Lemma sortGroups_sorted (l : list DuplicateGroup) :
  StronglySorted bySize (sortGroups l).
Proof.
  induction l as [|h l IH]; simpl; [constructor|].
  now apply insertGroup_sorted.
Qed.

(** Stability: groups of equal size keep their order. *)
Lemma insertGroup_stable (x y h : DuplicateGroup)
    (l : list DuplicateGroup) :
  groupSize x = groupSize y ->
  Before x y (insertGroup h l) ->
  Before x y l \/ (x = h /\ In y l).
Proof.
  intros Hxy. induction l as [|z l IH]; simpl; intros H.
  - inversion H as [l' Hy | z' l' Hb]; subst; [destruct Hy | inversion Hb].
  - destruct (groupSize h <? groupSize z)%nat eqn:E.
    + apply Nat.ltb_lt in E.
      inversion H as [l' Hy | z' l' Hb]; subst.
      * apply insertGroup_In in Hy as [->|Hy]; [lia|].
        left. now constructor.
      * destruct (IH Hb) as [K|[K1 K2]].
        -- left. now constructor 2.
        -- right. simpl. tauto.
    + inversion H as [l' Hy | z' l' Hb]; subst; [right | left]; tauto.
Qed.

Lemma sortGroups_stable (x y : DuplicateGroup) (l : list DuplicateGroup) :
  groupSize x = groupSize y ->
  Before x y (sortGroups l) -> Before x y l.
Proof.
  intros Hxy. induction l as [|h l IH]; simpl; intros H; [exact H|].
  destruct (insertGroup_stable x y h _ Hxy H) as [K|[-> K]].
  - constructor 2. now apply IH.
  - constructor. now apply sortGroups_In.
Qed.

(** *** The groups of the result *)

Lemma groupOfKey_In (kv : jsstring * list KnowledgeEntry)
    (g : DuplicateGroup) :
  In g (groupOfKey kv) ->
  entries g = snd kv /\ (1 < length (snd kv))%nat.
Proof.
  destruct kv as [k es]. unfold groupOfKey.
  destruct (1 <? length es)%nat eqn:E; [|intros []].
  intros [<-|[]]. split; [reflexivity|]. now apply Nat.ltb_lt.
Qed.

Lemma groupOfKey_short (kv : jsstring * list KnowledgeEntry) :
  (length (groupOfKey kv) <= 1)%nat.
Proof.
  destruct kv as [k es]. unfold groupOfKey.
  destruct (1 <? length es)%nat; simpl; lia.
Qed.

Lemma candidate_entries (knowledge : list KnowledgeEntry)
    (g : DuplicateGroup) :
  In g (flat_map groupOfKey (collectGroups knowledge)) ->
  exists k, entries g = filter (keyIs k) knowledge /\
            (1 < groupSize g)%nat.
Proof.
  rewrite collectGroups_groupsOf. intros H.
  apply in_flat_map in H as (kv & Hkv & Hg).
  apply groupOfKey_In in Hg as [E L].
  unfold groupsOf in Hkv. apply in_map_iff in Hkv as (k & <- & _).
  exists k. unfold groupSize. rewrite E. now split.
Qed.

(** C5.  Every group returned by [findDuplicates] has at least two
    members; the members of a group have the same category and the same
    base name ([getBaseName] of their titles); every member is an entry of
    the input; the groups are listed by non-increasing member count, and
    of two groups with the same count the one met first in the input
    comes first. *)
Theorem findDuplicates_groups (knowledge : list KnowledgeEntry) :
  (forall g, In g (findDuplicates knowledge) -> (2 <= groupSize g)%nat) /\
  (forall g e1 e2, In g (findDuplicates knowledge) ->
     In e1 (entries g) -> In e2 (entries g) ->
     category e1 = category e2 /\
     getBaseName (title e1) = getBaseName (title e2)) /\
  (forall g e, In g (findDuplicates knowledge) ->
     In e (entries g) -> In e knowledge) /\
  StronglySorted bySize (findDuplicates knowledge) /\
  (forall g1 g2, Before g1 g2 (findDuplicates knowledge) ->
     groupSize g1 = groupSize g2 ->
     FirstSeenBefore knowledge g1 g2).
Proof.
  unfold findDuplicates. repeat split.
  - intros g Hg. apply sortGroups_In, candidate_entries in Hg
      as (k & _ & L). lia.
  - apply sortGroups_In, candidate_entries in H as (k & E & _).
    rewrite E in H0, H1.
    apply filter_In in H0 as [_ K0], H1 as [_ K1].
    apply jseqb_eq in K0, K1.
    apply (groupKey_inj e1 e2). congruence.
  - apply sortGroups_In, candidate_entries in H as (k & E & _).
    rewrite E in H0, H1.
    apply filter_In in H0 as [_ K0], H1 as [_ K1].
    apply jseqb_eq in K0, K1.
    apply (groupKey_inj e1 e2). congruence.
  - intros g e Hg He.
    apply sortGroups_In, candidate_entries in Hg as (k & E & _).
    rewrite E in He. now apply filter_In in He.
  - apply sortGroups_sorted.
  - intros g1 g2 Hb Hsz.
    apply (sortGroups_stable _ _ _ Hsz) in Hb.
    apply (Before_flat_map _ _ _ _ groupOfKey_short) in Hb
      as (kv1 & kv2 & H1 & H2 & Hb).
    apply groupOfKey_In in H1 as [E1 L1], H2 as [E2 _].
    rewrite collectGroups_groupsOf in Hb. unfold groupsOf in Hb.
    apply Before_map in Hb as (k1 & k2 & -> & -> & Hb).
    cbn [snd] in *.
    apply firstOcc_order in Hb as (pre & post & Hks & Hn).
    apply map_eq_app in Hks as (lpre & l2 & -> & <- & Hks).
    apply map_eq_cons in Hks as (e1 & lpost & -> & Hk1 & _).
    exists lpre, e1, lpost. repeat split.
    + rewrite E1. apply filter_In. split.
      * apply in_or_app. right. now left.
      * unfold keyIs. now apply jseqb_eq.
    + intros e2 He2 Hin. apply Hn.
      rewrite E2 in He2. apply filter_In in He2 as [_ K].
      apply jseqb_eq in K. subst k2. now apply in_map.
Qed.

End Duplicates.

(** ** splitText *)

Section Segmenter.
Import Segment.

Example splitChapters_ex :
  splitChapters (js "序
第一章 开端
正文 Chapter 2 next
end") =
  [js "序
"; js "第一章 开端"; js "
正文 "; js "Chapter 2 next"; js "
end"].
Proof. vm_compute. reflexivity. Qed.

Example splitParagraphs_ex :
  splitParagraphs (js "a

b
c



d") = [js "a"; js "b
c"; js "d"].
Proof. vm_compute. reflexivity. Qed.

(** The example of the specification: two chapters, two chunks. *)
Example splitText_two_chapters :
  splitText (js "第一章 开端

" ++ repeat 65%N 3000 ++ js "

第二章 发展

" ++ repeat 66%N 100) 3000 =
  [ mkChunk (repeat 65%N 3000) (Some (js "第一章 开端"));
    mkChunk (repeat 66%N 100) (Some (js "第二章 发展")) ].
Proof. vm_compute. reflexivity. Qed.

Example splitText_empty :
  splitText [] 3000 = [] /\ splitText (js "  
 ") 3000 = [].
Proof. split; vm_compute; reflexivity. Qed.

(** A match of the chapter pattern is never empty, so the splitting
    never runs out of fuel: more fuel than the length of the text gives
    the same parts. *)
Lemma matchChapterLen_pos (s : jsstring) (n : nat) :
  matchChapterLen s = Some n -> (1 <= n)%nat.
Proof.
  unfold matchChapterLen. destruct s as [|c r]; [discriminate|].
  destruct (c =? 0x7B2C)%N.
  - destruct (takeWhile isChapterNumeral r); [discriminate|].
    destruct (dropWhile isChapterNumeral r) as [|z rest]; [discriminate|].
    destruct (z =? 0x7AE0)%N; [|discriminate].
    intros H. injection H as <-. lia.
  - destruct (startsWithCI (c :: r) CHAPTER); [|discriminate].
    destruct (takeWhile isDigit _); [discriminate|].
    intros H. injection H as <-. lia.
Qed.

Lemma splitByChapter_fuel (f1 : nat) :
  forall (f2 : nat) (s cur : jsstring),
  (length s < f1)%nat -> (length s < f2)%nat ->
  splitByChapter f1 s cur = splitByChapter f2 s cur.
Proof.
  induction f1 as [|f1 IH]; intros f2 s cur H1 H2; [lia|].
  destruct f2 as [|f2]; [lia|].
  cbn [splitByChapter]. destruct s as [|c s']; [reflexivity|].
  destruct (matchChapterLen (c :: s')) as [n|] eqn:E.
  - apply matchChapterLen_pos in E. do 2 f_equal.
    apply IH; rewrite length_skipn; cbn [length] in *; lia.
  - apply IH; cbn [length] in *; lia.
Qed.




Section Accumulation.
Variable maxLen : nat.
Variable chap : jsstring.

(** [Par] holds of the paragraphs of the part at hand; [Good] of every
    chunk that is short enough or one such paragraph. *)
Variable Par : jsstring -> Prop.
Variable Good : TextChunk -> Prop.
Hypothesis Good_short :
  forall c, (length (content c) <= maxLen + 2)%nat -> Good c.
Hypothesis Good_paragraph :
  forall c p, Par p -> content c = trim p -> Good c.



End Accumulation.


(** C1 fails on the code.  Three paragraphs of 3000, 1500 and 1500
    characters with the default [maxLen = 3000]: after the first chunk is
    flushed the buffer restarts with the second paragraph, and the test
    [(current + p).length > maxLen] does not count the two line feeds that
    are put between the paragraphs, so the second chunk, built from two
    paragraphs, has 3002 characters. *)
Theorem splitText_overlong_chunk :
  let a := repeat 97%N 3000 in
  let b := repeat 98%N 1500 in
  let c := repeat 99%N 1500 in
  splitText (a ++ [NL; NL] ++ b ++ [NL; NL] ++ c) defaultMaxLen
    = [mkChunk a None; mkChunk (b ++ [NL; NL] ++ c) None] /\
  splitParagraphs (b ++ [NL; NL] ++ c) = [b; c] /\
  length (b ++ [NL; NL] ++ c) = 3002%nat /\
  (defaultMaxLen <? length (b ++ [NL; NL] ++ c))%nat = true.
Proof. repeat split; vm_compute; reflexivity. Qed.

(** C6 fails on the code.  A paragraph of two characters followed by a
    paragraph of 3001: the buffer that holds the short paragraph is
    flushed when the long one arrives, without the test of the length
    that the final flush has, and a chunk of two characters is emitted. *)
Theorem splitText_short_chunk :
  splitText (js "ab" ++ [NL; NL] ++ repeat 120%N 3001) defaultMaxLen
    = [mkChunk (js "ab") None; mkChunk (repeat 120%N 3001) None] /\
  length (trim (js "ab")) = 2%nat.
Proof. split; vm_compute; reflexivity. Qed.

End Segmenter.

(** ** getMatchedKnowledge *)

Section MatcherFacts.
Import Knowledge.

Example queryWords_ex :
  queryWords (js "他带着宝剑，走向 湖边。a bc") =
  [js "他带着宝剑"; js "走向"; js "湖边"; js "bc"].
Proof. vm_compute. reflexivity. Qed.

Example matcher_title_ex :
  getMatchedKnowledge asciiLower
    (mkStore [mkEntry (js "1") Person (js "龙傲天") [JStr (js "主角")] []] [])
    (js "龙傲天今天很开心")
  = [mkEntry (js "1") Person (js "龙傲天") [JStr (js "主角")] []].
Proof. vm_compute. reflexivity. Qed.

Example matcher_cooccurrence_ex :
  let k := mkEntry (js "1") Setting (js "X") []
             [(js "a", JStr (js "一把宝剑")); (js "b", JStr (js "在湖边"))] in
  getMatchedKnowledge asciiLower (mkStore [k] []) (js "宝剑 湖边") = [k] /\
  getMatchedKnowledge asciiLower (mkStore [k] []) (js "宝剑 山顶") = [].
Proof. split; vm_compute; reflexivity. Qed.

Lemma startsWith_prefix (s p : jsstring) :
  startsWith s p = true <-> exists post, s = p ++ post.
Proof.
  revert s. induction p as [|x p IH]; intros s.
  - split; [intros _; now exists s | intros _; now destruct s].
  - destruct s as [|y s].
    + split; [discriminate | intros [post H]; discriminate].
    + cbn [startsWith app].
      rewrite andb_true_iff, N.eqb_eq, IH. split.
      * intros [-> [post ->]]. now exists post.
      * intros [post H]. injection H as -> ->. split; [reflexivity|].
        now exists post.
Qed.

Lemma includes_Substring (s sub : jsstring) :
  includes s sub = true <-> Substring sub s.
Proof.
  unfold Substring. induction s as [|c s IH].
  - cbn [includes]. rewrite orb_false_r, startsWith_prefix. split.
    + intros [post H]. now exists [], post.
    + intros (pre & post & H). destruct pre; [now exists post|].
      discriminate.
  - cbn [includes]. rewrite orb_true_iff, startsWith_prefix, IH. split.
    + intros [[post H]|(pre & post & H)].
      * now exists [], post.
      * exists (c :: pre), post. cbn [app]. now rewrite H.
    + intros (pre & post & H). destruct pre as [|d pre].
      * left. now exists post.
      * right. injection H as _ H. now exists pre, post.
Qed.

(** Replacing the punctuation by spaces and splitting at white space is
    splitting at white space and punctuation. *)
Lemma splitRuns_replacePunct (s cur : jsstring) (inSep : bool) :
  splitRunsFrom isWhiteSpace (replacePunct s) cur inSep =
  splitRunsFrom (fun c => isWhiteSpace c || isQueryPunct c) s cur inSep.
Proof.
  revert cur inSep. induction s as [|c s IH]; intros cur inSep;
    [reflexivity|].
  cbn [replacePunct map splitRunsFrom]. fold (replacePunct s).
  destruct (isQueryPunct c) eqn:P.
  - rewrite orb_true_r. change (isWhiteSpace SPACE) with true.
    cbv iota. destruct inSep; now rewrite IH.
  - rewrite orb_false_r. destruct (isWhiteSpace c), inSep; now rewrite IH.
Qed.

Lemma queryWords_tokens (toLowerCase : jsstring -> jsstring)
    (text : jsstring) :
  queryWords (toLowerCase text) = tokens toLowerCase text.
Proof.
  unfold queryWords, tokens, splitRuns.
  now rewrite splitRuns_replacePunct.
Qed.

(** At least two elements of a list pass a test: two places of the list
    hold elements that pass it. *)
Lemma two_pass {A : Type} (f : A -> bool) (l : list A) :
  (2 <= length (filter f l))%nat <->
  exists i j x y, (i < j)%nat /\ nth_error l i = Some x /\
                  nth_error l j = Some y /\ f x = true /\ f y = true.
Proof.
  induction l as [|a l IH].
  - simpl. split; [lia|]. intros (i & j & x & y & _ & H & _).
    destruct i; discriminate.
  - cbn [filter]. split.
    + intros H. destruct (f a) eqn:Fa.
      * cbn [length] in H.
        destruct (filter f l) as [|y r] eqn:E; [simpl in H; lia|].
        assert (Hy : In y (filter f l)) by (rewrite E; now left).
        apply filter_In in Hy as [Hy Fy].
        apply In_nth_error in Hy as [j Hj].
        exists O, (S j), a, y. repeat split; trivial. lia.
      * apply IH in H as (i & j & x & y & L & Hi & Hj & Fx & Fy).
        exists (S i), (S j), x, y. repeat split; trivial. lia.
    + intros (i & j & x & y & L & Hi & Hj & Fx & Fy).
      destruct j as [|j]; [lia|]. cbn [nth_error] in Hj.
      destruct i as [|i].
      * cbn [nth_error] in Hi. injection Hi as ->. rewrite Fx.
        cbn [length].
        assert (Hy : In y (filter f l)).
        { apply filter_In. split; [|exact Fy].
          eapply nth_error_In; eassumption. }
        destruct (filter f l); [destruct Hy | simpl; lia].
      * cbn [nth_error] in Hi.
        assert (K : (2 <= length (filter f l))%nat).
        { apply IH. exists i, j, x, y. repeat split; trivial. lia. }
        destruct (f a); cbn [length]; lia.
Qed.

Section Rules.
Variable toLowerCase : jsstring -> jsstring.

Lemma keywordMatches_KeywordHit (text : jsstring) (k : KnowledgeEntry) :
  existsb (keywordMatches toLowerCase (toLowerCase text)) (keywords k)
    = true
  <-> KeywordHit toLowerCase text k.
Proof.
  unfold KeywordHit. rewrite existsb_exists. split.
  - intros (kw & Hin & H). destruct kw; try discriminate. cbn in H.
    destruct (nonEmpty (toLowerCase (trim s))) eqn:E; [|discriminate].
    cbn in H. exists s. repeat split; trivial.
    + now apply nonEmpty_true.
    + now apply includes_Substring.
  - intros (s & Hin & Hne & Hsub). exists (JStr s). split; trivial.
    cbn. apply nonEmpty_true in Hne. rewrite Hne. cbn.
    now apply includes_Substring.
Qed.

Lemma wordMatches_TokenHit (k : KnowledgeEntry) (w : jsstring) :
  wordMatches toLowerCase k w = true <-> TokenHit toLowerCase k w.
Proof.
  unfold wordMatches, TokenHit, detailsText.
  rewrite !orb_true_iff, !includes_Substring, existsb_exists.
  split.
  - intros [[H|(kw & Hin & H)]|H]; auto.
    destruct kw; try discriminate.
    right; left. exists s. split; trivial. now apply includes_Substring.
  - intros [H|[(s & Hin & H)|H]]; auto.
    left; right. exists (JStr s). split; trivial.
    now apply includes_Substring.
Qed.

Lemma isRelevant_rules (text : jsstring) (k : KnowledgeEntry) :
  isRelevant toLowerCase (toLowerCase text)
             (queryWords (toLowerCase text)) k = true
  <-> TitleHit toLowerCase text k \/ KeywordHit toLowerCase text k
      \/ CoOccurrence toLowerCase text k.
Proof.
  unfold isRelevant.
  assert (T : nonEmpty (title k)
              && includes (toLowerCase text) (toLowerCase (title k)) = true
              <-> TitleHit toLowerCase text k).
  { unfold TitleHit.
    now rewrite andb_true_iff, nonEmpty_true, includes_Substring. }
  assert (C : (2 <=? length (filter (wordMatches toLowerCase k)
                               (queryWords (toLowerCase text))))%nat = true
              <-> CoOccurrence toLowerCase text k).
  { rewrite Nat.leb_le, two_pass, queryWords_tokens. unfold CoOccurrence.
    split; intros (i & j & x & y & L & Hi & Hj & Fx & Fy);
      exists i, j, x, y; repeat split; trivial;
      now apply wordMatches_TokenHit. }
  pose proof (keywordMatches_KeywordHit text k) as K.
  destruct (nonEmpty (title k)
            && includes (toLowerCase text) (toLowerCase (title k))).
  - split; [intros _; left; now apply T | reflexivity].
  - destruct (existsb (keywordMatches toLowerCase (toLowerCase text))
                      (keywords k)).
    + split; [intros _; right; left; now apply K | reflexivity].
    + rewrite C. split; [tauto|].
      intros [H|[H|H]]; trivial.
      * apply T in H. discriminate.
      * apply K in H. discriminate.
Qed.

End Rules.

(** The rules of the filter, with the tokens cut by the punctuation
    class as the source has it; this holds whatever [toLowerCase] does. *)
Lemma getMatchedKnowledge_filter (toLowerCase : jsstring -> jsstring)
    (st : storeState) (text : jsstring) :
  exists keep : KnowledgeEntry -> bool,
    getMatchedKnowledge toLowerCase st text =
      filter keep (knowledge st ++ externalKnowledge st) /\
    forall k, keep k = true <->
      TitleHit toLowerCase text k \/ KeywordHit toLowerCase text k
      \/ CoOccurrence toLowerCase text k.
Proof.
  exists (isRelevant toLowerCase (toLowerCase text)
                     (queryWords (toLowerCase text))).
  split; [reflexivity|]. intros k. apply isRelevant_rules.
Qed.

Lemma splitRunsFrom_ext (f g : N -> bool) (s : jsstring) :
  (forall c, In c s -> f c = g c) ->
  forall (cur : jsstring) (inSep : bool),
  splitRunsFrom f s cur inSep = splitRunsFrom g s cur inSep.
Proof.
  induction s as [|c s IH]; intros H cur inSep; [reflexivity|].
  cbn [splitRunsFrom]. rewrite (H c) by now left.
  assert (H' : forall x, In x s -> f x = g x)
    by (intros x Hx; apply H; now right).
  destruct (g c), inSep; now rewrite (IH H').
Qed.

(** On a character that is no quotation mark the class of the source is
    the class of the full-width marks. *)
Lemma isQueryPunct_mark (c : N) :
  isQuotationMark c = false -> isQueryPunct c = isFullWidthMark c.
Proof.
  unfold isQuotationMark, isQueryPunct, isFullWidthMark.
  cbn [existsb QUERY_PUNCT FULLWIDTH_MARKS]. intros H.
  repeat (apply orb_false_iff in H as [H ?]).
  rewrite !(N.eqb_sym c) in *.
  repeat match goal with
         | E : (_ =? _)%N = false |- _ => rewrite E; clear E
         end.
  cbn [orb]. now rewrite !orb_false_r.
Qed.

Lemma tokens_markTokens (toLowerCase : jsstring -> jsstring)
    (text : jsstring) :
  noQuotationMark (toLowerCase text) = true ->
  tokens toLowerCase text = markTokens toLowerCase text.
Proof.
  intros H. unfold tokens, markTokens, splitRuns. f_equal.
  apply splitRunsFrom_ext. intros c Hc.
  unfold noQuotationMark in H. rewrite forallb_forall in H.
  specialize (H c Hc). apply negb_true_iff in H.
  now rewrite (isQueryPunct_mark c H).
Qed.

(** C2, as amended.  For a query whose lower-cased form holds no
    quotation mark, [getMatchedKnowledge] filters the concatenation of
    the local and the external list, keeping the order, and keeps an
    entry exactly when (1) its title is not empty and its lower-cased form
    is a substring of the lower-cased query, or (2) some keyword that is a
    string is, trimmed and lower-cased, not empty and a substring of the
    lower-cased query, or (3) two of the query's tokens are substrings of
    the lower-cased title, of a lower-cased keyword or of the lower-cased
    string values of the details joined by single spaces.  The tokens are
    the runs of the lower-cased query between white space and the
    full-width marks ，。？！、：；（）【】, of two characters or more.
    This holds whatever [toLowerCase] does; what becomes of quotation
    marks in a query is not stated. *)
Theorem getMatchedKnowledge_rules_unquoted
    (toLowerCase : jsstring -> jsstring)
    (st : storeState) (text : jsstring)
    (Hq : noQuotationMark (toLowerCase text) = true) :
  exists keep : KnowledgeEntry -> bool,
    getMatchedKnowledge toLowerCase st text =
      filter keep (knowledge st ++ externalKnowledge st) /\
    forall k, keep k = true <->
      TitleHit toLowerCase text k \/ KeywordHit toLowerCase text k
      \/ MarkCoOccurrence toLowerCase text k.
Proof.
  destruct (getMatchedKnowledge_filter toLowerCase st text)
    as (keep & E & K).
  exists keep. split; [exact E|]. intros k. rewrite K.
  unfold CoOccurrence, MarkCoOccurrence.
  now rewrite (tokens_markTokens toLowerCase text Hq).
Qed.

Lemma getMatchedKnowledge_rules_unquoted_witness :
  let k := mkEntry (js "1") Setting (js "X") []
             [(js "a", JStr (js "一把宝剑")); (js "b", JStr (js "在湖边"))] in
  exists keep : KnowledgeEntry -> bool,
    getMatchedKnowledge asciiLower (mkStore [k] []) (js "宝剑，湖边") =
      filter keep ([k] ++ []) /\
    forall k', keep k' = true <->
      TitleHit asciiLower (js "宝剑，湖边") k'
      \/ KeywordHit asciiLower (js "宝剑，湖边") k'
      \/ MarkCoOccurrence asciiLower (js "宝剑，湖边") k'.
Proof.
  intros k.
  apply (getMatchedKnowledge_rules_unquoted asciiLower (mkStore [k] [])
           (js "宝剑，湖边")).
  vm_compute. reflexivity.
Defined.

(** C2 as stated fails, on queries without any quotation mark.  The
    first entry is kept by the code, which lower-cases the title before
    looking for the tokens, and is not kept when the tokens are looked
    for in the title as it is.  The second entry is not kept by the code,
    which joins the string values of the details by spaces, and is kept
    when the tokens are looked for in their plain concatenation. *)
Lemma getMatchedKnowledge_not_as_stated :
  let k1 := mkEntry (js "1") Plot (js "Dragon Sword Saga") [] [] in
  let q1 := js "dragon sword" in
  let k2 := mkEntry (js "2") Setting (js "zz") []
              [(js "a", JStr (js "ab")); (js "b", JStr (js "cd"))] in
  let q2 := js "abcd bc" in
  (noQuotationMark q1 = true /\
   claimedRelevant asciiLower q1 k1 = false /\
   getMatchedKnowledge asciiLower (mkStore [k1] []) q1 = [k1]) /\
  (noQuotationMark q2 = true /\
   claimedRelevant asciiLower q2 k2 = true /\
   getMatchedKnowledge asciiLower (mkStore [k2] []) q2 = []).
Proof. repeat split; vm_compute; reflexivity. Qed.

End MatcherFacts.

(** ** The knowledge section of the system prompt *)

Section Budget.
Import Prompt.

Example formatKnowledgeDetails_ex :
  formatKnowledgeDetails sampleFields (sampleEntry 7) = js "外貌：高大".
Proof. vm_compute. reflexivity. Qed.

Example knowledgeSection_ex :
  knowledgeSection sampleFields (map sampleEntry (seq 1 12)) =
  [Intro] ++ map FullBlock (map sampleEntry (seq 1 10))
  ++ [SummaryHeader] ++ map SummaryLine (map sampleEntry (seq 11 2)).
Proof. vm_compute. reflexivity. Qed.

Example renderSection_ex :
  renderSection sampleFields (map sampleEntry (seq 1 31)) =
  js "

以下是与问题相关的详细设定资料：
" ++ concat (map (fullText sampleFields) (map sampleEntry (seq 1 10)))
  ++ js "

【更多相关条目摘要】
" ++ concat (map (summaryText sampleFields) (map sampleEntry (seq 11 20)))
  ++ js "
（注：还有 1 个相关条目未显示）".
Proof. vm_compute. reflexivity. Qed.

Example summaryText_ex :
  summaryText sampleFields (sampleEntry 11) = js "• 人物 - 角色11: 外貌：高大
".
Proof. vm_compute. reflexivity. Qed.

Section Shape.
Variable fields : KnowledgeCategory -> option (list Field).

Local Open Scope Z_scope.

Lemma len_nonneg (t : jsstring) : 0 <= len t.
Proof. unfold len. lia. Qed.

Lemma totalChars_nonneg (text : KnowledgeEntry -> jsstring)
    (l : list KnowledgeEntry) : 0 <= totalChars text l.
Proof.
  induction l as [|k l IH]; simpl; [lia|].
  pose proof (len_nonneg (text k)). lia.
Qed.

(** A loop appends a selection of its entries, in order, and counts
    their characters; the count stays under the budget, and nothing is
    left out when the whole fits. *)
Lemma appendIfFits_fold (mk : KnowledgeEntry -> piece)
    (entries : list KnowledgeEntry) :
  forall (ps : list piece) (used : Z),
  exists sel,
    fold_left (appendIfFits fields mk) entries (ps, used)
      = (ps ++ map mk sel,
         used + totalChars (fun k => pieceText fields (mk k)) sel) /\
    incl sel entries /\
    (length sel <= length entries)%nat /\
    (sel <> [] ->
     used + totalChars (fun k => pieceText fields (mk k)) sel
       < maxTotalChars) /\
    (used + totalChars (fun k => pieceText fields (mk k)) entries
       < maxTotalChars -> sel = entries).
Proof.
  induction entries as [|k rest IH]; intros ps used.
  - exists []. simpl. rewrite app_nil_r, Z.add_0_r.
    repeat split; trivial; try easy.
  - cbn [fold_left]. unfold appendIfFits at 2.
    set (n := len (pieceText fields (mk k))).
    pose proof (len_nonneg (pieceText fields (mk k))) as Hn. fold n in Hn.
    pose proof (totalChars_nonneg
                  (fun k => pieceText fields (mk k)) rest) as Hr.
    destruct (used + n <? maxTotalChars) eqn:F.
    + apply Z.ltb_lt in F.
      destruct (IH (ps ++ [mk k]) (used + n))
        as (sel & E & Hin & Hlen & Hlt & Hall).
      exists (k :: sel). cbn [map totalChars fold_right length].
      fold (totalChars (fun k => pieceText fields (mk k)) sel).
      fold (totalChars (fun k => pieceText fields (mk k)) rest).
      fold n. repeat split.
      * rewrite E, <- app_assoc. cbn [app]. f_equal. lia.
      * intros x [<-|Hx]; [now left | right; now apply Hin].
      * lia.
      * intros _. destruct sel as [|k' sel'].
        -- simpl. lia.
        -- assert (K : k' :: sel' <> []) by discriminate.
           specialize (Hlt K). lia.
      * intros H. f_equal. apply Hall. lia.
    + apply Z.ltb_ge in F.
      destruct (IH ps used) as (sel & E & Hin & Hlen & Hlt & Hall).
      exists sel. cbn [totalChars fold_right length].
      fold (totalChars (fun k => pieceText fields (mk k)) rest).
      fold n. repeat split; trivial.
      * intros x Hx. right. now apply Hin.
      * lia.
      * intros H. exfalso. lia.
Qed.

Lemma usedBy_app (a b : list piece) :
  usedBy fields (a ++ b) = usedBy fields a + usedBy fields b.
Proof. induction a as [|p a IH]; simpl; [reflexivity | lia]. Qed.

Lemma usedBy_nonneg (a : list piece) : 0 <= usedBy fields a.
Proof.
  induction a as [|p a IH]; simpl; [lia|].
  assert (0 <= budgetOf fields p); [|lia].
  destruct p; simpl; try lia; apply len_nonneg.
Qed.

Lemma usedBy_firstn (n : nat) (a : list piece) :
  usedBy fields (firstn n a) <= usedBy fields a.
Proof.
  rewrite <- (firstn_skipn n a) at 2. rewrite usedBy_app.
  pose proof (usedBy_nonneg (skipn n a)). lia.
Qed.

Lemma usedBy_full (sel : list KnowledgeEntry) :
  usedBy fields (map FullBlock sel)
  = totalChars (fun k => pieceText fields (FullBlock k)) sel.
Proof. induction sel as [|k sel IH]; simpl; [reflexivity | now rewrite IH]. Qed.

Lemma usedBy_summary (sel : list KnowledgeEntry) :
  usedBy fields (map SummaryLine sel)
  = totalChars (fun k => pieceText fields (SummaryLine k)) sel.
Proof. induction sel as [|k sel IH]; simpl; [reflexivity | now rewrite IH]. Qed.

Lemma filter_map_all {A B : Type} (f : B -> bool) (g : A -> B)
    (l : list A) :
  (forall x, f (g x) = true) -> filter f (map g l) = map g l.
Proof.
  intros H. induction l as [|x l IH]; simpl; [reflexivity|].
  now rewrite H, IH.
Qed.

Lemma filter_map_none {A B : Type} (f : B -> bool) (g : A -> B)
    (l : list A) :
  (forall x, f (g x) = false) -> filter f (map g l) = [].
Proof.
  intros H. induction l as [|x l IH]; simpl; [reflexivity|].
  now rewrite H, IH.
Qed.

(** The shape of the section for a list of matched entries that is not
    empty. *)
Lemma knowledgeSection_shape (matched : list KnowledgeEntry) :
  matched <> [] ->
  exists (sel1 sel2 : list KnowledgeEntry) (hdr : bool),
    knowledgeSection fields matched =
      [Intro] ++ map FullBlock sel1
      ++ (if hdr then SummaryHeader :: map SummaryLine sel2 else [])
      ++ (if (30 <? length matched)%nat
          then [Trailer (Z.of_nat (length matched) - 30)] else []) /\
    incl sel1 (firstn 10 matched) /\
    (length sel1 <= 10)%nat /\
    incl sel2 (firstn 20 (skipn 10 matched)) /\
    (length sel2 <= 20)%nat /\
    (hdr = false -> sel2 = []) /\
    totalChars (fullText fields) sel1 + totalChars (summaryText fields) sel2
      < maxTotalChars /\
    (hdr = true ->
     totalChars (fullText fields) sel1 < maxTotalChars - 2000) /\
    (totalChars (fullText fields) (firstn 10 matched) < maxTotalChars ->
     sel1 = firstn 10 matched).
Proof.
  intros Hne. unfold knowledgeSection.
  destruct matched as [|m0 ms] eqn:Em; [congruence|].
  rewrite <- Em in *. replace (0 <? length matched)%nat with true
    by (subst; reflexivity).
  destruct (appendIfFits_fold FullBlock (firstn 10 matched) [Intro] 0)
    as (sel1 & E1 & In1 & L1 & Lt1 & All1).
  rewrite E1. cbn [fst snd]. rewrite Z.add_0_l in *.
  change (fun k => pieceText fields (FullBlock k)) with (fullText fields)
    in *.
  assert (B1 : totalChars (fullText fields) sel1 < maxTotalChars).
  { destruct sel1; [reflexivity | apply Lt1; discriminate]. }
  assert (L10 : (length sel1 <= 10)%nat).
  { pose proof (firstn_le_length 10 matched). lia. }
  destruct ((0 <? length (firstn 20 (skipn 10 matched)))%nat
            && (totalChars (fullText fields) sel1 <? maxTotalChars - 2000))
    eqn:G.
  - apply andb_true_iff in G as [_ G]. apply Z.ltb_lt in G.
    destruct (appendIfFits_fold SummaryLine
                (firstn 20 (skipn 10 matched))
                (([Intro] ++ map FullBlock sel1) ++ [SummaryHeader])
                (totalChars (fullText fields) sel1))
      as (sel2 & E2 & In2 & L2 & Lt2 & _).
    rewrite E2. cbn [fst snd].
    change (fun k => pieceText fields (SummaryLine k))
      with (summaryText fields) in *.
    exists sel1, sel2, true. repeat split; trivial.
    + destruct (30 <? length matched)%nat;
        rewrite <- ?app_assoc; cbn [app]; now rewrite ?app_nil_r.
    + pose proof (firstn_le_length 20 (skipn 10 matched)). lia.
    + discriminate.
    + destruct sel2; [simpl; lia | apply Lt2; discriminate].
  - exists sel1, [], false. repeat split; trivial.
    + destruct (30 <? length matched)%nat;
        rewrite <- ?app_assoc; cbn [app]; now rewrite ?app_nil_r.
    + intros x [].
    + simpl. lia.
    + simpl. lia.
    + discriminate.
Qed.

Lemma In_map_full (k : KnowledgeEntry) (l : list KnowledgeEntry) :
  In (FullBlock k) (map FullBlock l) -> In k l.
Proof.
  intros H. apply in_map_iff in H as (x & E & Hx). now injection E as ->.
Qed.

Lemma In_map_summary (k : KnowledgeEntry) (l : list KnowledgeEntry) :
  In (SummaryLine k) (map SummaryLine l) -> In k l.
Proof.
  intros H. apply in_map_iff in H as (x & E & Hx). now injection E as ->.
Qed.

Ltac piece_in H :=
  repeat (apply in_app_or in H as [H|H]);
  repeat match type of H with
         | In _ (_ :: _) => destruct H as [H|H]; try discriminate H
         | In _ [] => destruct H
         | In _ (if ?b then _ else _) => destruct b
         | In _ (map _ _) =>
             apply in_map_iff in H as (? & ? & ?); try discriminate
         end.

(** C3, as amended.  In the section of the system prompt built from the
    matched entries: the characters of the full-detail blocks and summary
    lines appended so far stay strictly under [maxTotalChars = 50000] at
    every point; a summary header or line is present only if the
    full-detail blocks left more than 2000 characters of the budget; the
    full-detail blocks come from the first 10 matched entries and the
    summary lines from the entries 11 to 30, so there are at most 10 and
    at most 20 of them and no later entry is rendered; the ten first
    entries all get their block when the ten blocks together are under the
    budget (a block that does not fit is skipped, so there can be fewer);
    when more than 30 entries matched the section ends with the only
    trailer, which reports the count minus 30 (5 for 35 entries),
    whatever the budget; with 30 entries or fewer there is no trailer. *)
Theorem knowledgeSection_budget (matched : list KnowledgeEntry) :
  let out := knowledgeSection fields matched in
  (forall n, usedBy fields (firstn n out) < maxTotalChars) /\
  ((In SummaryHeader out \/ exists k, In (SummaryLine k) out) ->
   usedBy fields (filter isFullBlock out) < maxTotalChars - 2000) /\
  (forall k, In (FullBlock k) out -> In k (firstn 10 matched)) /\
  (forall k, In (SummaryLine k) out ->
             In k (firstn 20 (skipn 10 matched))) /\
  (length (filter isFullBlock out) <= 10)%nat /\
  (length (filter isSummaryLine out) <= 20)%nat /\
  (totalChars (fullText fields) (firstn 10 matched) < maxTotalChars ->
   filter isFullBlock out = map FullBlock (firstn 10 matched)) /\
  ((30 < length matched)%nat ->
   exists body,
     out = body ++ [Trailer (Z.of_nat (length matched) - 30)] /\
     filter isTrailer body = []) /\
  ((length matched <= 30)%nat -> filter isTrailer out = []) /\
  (length matched = 35%nat ->
   exists body, out = body ++ [Trailer 5] /\ filter isTrailer body = []).
Proof.
  intros out.
  assert (Hcase : matched = [] \/ matched <> [])
    by (destruct matched; [now left | right; discriminate]).
  destruct Hcase as [->|Hne].
  { subst out. cbn. repeat split; try lia; try tauto; try discriminate.
    intros n. now destruct n. }
  destruct (knowledgeSection_shape matched Hne)
    as (sel1 & sel2 & hdr & E & In1 & L1 & In2 & L2 & Hno & B & G & All).
  fold out in E.
  assert (FF : filter isFullBlock out = map FullBlock sel1).
  { rewrite E, !filter_app.
    rewrite (filter_map_all isFullBlock FullBlock) by reflexivity.
    cbn [filter isFullBlock app].
    replace (filter isFullBlock
               (if hdr then SummaryHeader :: map SummaryLine sel2 else []))
      with (@nil piece)
      by (destruct hdr; cbn [filter isFullBlock];
          now rewrite ?(filter_map_none isFullBlock SummaryLine)).
    destruct (30 <? length matched)%nat; cbn; now rewrite ?app_nil_r. }
  assert (FS : filter isSummaryLine out = map SummaryLine sel2).
  { rewrite E, !filter_app.
    rewrite (filter_map_none isSummaryLine FullBlock) by reflexivity.
    cbn [filter isSummaryLine app].
    replace (filter isSummaryLine
               (if (30 <? length matched)%nat
                then [Trailer (Z.of_nat (length matched) - 30)] else []))
      with (@nil piece) by (now destruct (30 <? length matched)%nat).
    rewrite app_nil_r. destruct hdr; cbn [filter isSummaryLine].
    - now rewrite (filter_map_all isSummaryLine SummaryLine).
    - now rewrite (Hno eq_refl). }
  assert (U : usedBy fields out
              = totalChars (fullText fields) sel1
                + totalChars (summaryText fields) sel2).
  { rewrite E, !usedBy_app, usedBy_full.
    change (fun k => pieceText fields (FullBlock k))
      with (fullText fields).
    assert (usedBy fields
              (if hdr then SummaryHeader :: map SummaryLine sel2 else [])
            = totalChars (summaryText fields) sel2) as ->.
    { destruct hdr.
      - cbn [usedBy fold_right budgetOf].
        fold (usedBy fields (map SummaryLine sel2)).
        now rewrite usedBy_summary.
      - now rewrite (Hno eq_refl). }
    destruct (30 <? length matched)%nat; cbn; lia. }
  assert (TR : forall b : bool,
            filter isTrailer
              ([Intro] ++ map FullBlock sel1
               ++ (if b then SummaryHeader :: map SummaryLine sel2 else []))
            = []).
  { intros b. rewrite !filter_app. cbn [filter isTrailer app].
    rewrite (filter_map_none isTrailer FullBlock) by reflexivity.
    destruct b; cbn [filter isTrailer app]; trivial.
    now rewrite (filter_map_none isTrailer SummaryLine). }
  assert (TL : (30 < length matched)%nat ->
     exists body,
       out = body ++ [Trailer (Z.of_nat (length matched) - 30)] /\
       filter isTrailer body = []).
  { intros H. apply Nat.ltb_lt in H. rewrite H in E.
    exists ([Intro] ++ map FullBlock sel1
            ++ (if hdr then SummaryHeader :: map SummaryLine sel2 else [])).
    split; [|apply TR]. rewrite E. now rewrite <- !app_assoc. }
  repeat split.
  - intros n. pose proof (usedBy_firstn n out). lia.
  - intros H. rewrite FF, usedBy_full.
    change (fun k => pieceText fields (FullBlock k))
      with (fullText fields).
    apply G. destruct hdr; [reflexivity|]. exfalso.
    rewrite E in H.
    destruct H as [H|[k H]]; piece_in H.
  - intros k H. apply In1, In_map_full. rewrite <- FF.
    apply filter_In. now split.
  - intros k H. apply In2, In_map_summary. rewrite <- FS.
    apply filter_In. now split.
  - rewrite FF, length_map. exact L1.
  - rewrite FS, length_map. exact L2.
  - intros H. rewrite FF. now rewrite (All H).
  - exact TL.
  - intros H. apply Nat.ltb_ge in H. rewrite H in E.
    rewrite E. rewrite !app_assoc, app_nil_r, <- !app_assoc. apply TR.
  - intros H. destruct TL as (body & Eb & Hb); [lia|].
    exists body. split; [|exact Hb]. rewrite Eb, H. reflexivity.
Qed.

End Shape.

(** C3 as stated fails: 35 matched entries of which the first has a title
    of 50000 characters give 9 full-detail blocks, not 10; the block of
    the first entry does not fit and is skipped. *)
Lemma knowledgeSection_nine_blocks :
  let big := mkEntry (js "0") Person (repeat 97%N (N.to_nat 50000)) [] [] in
  let matched := big :: map sampleEntry (seq 1 34) in
  length matched = 35%nat /\
  length (filter isFullBlock (knowledgeSection sampleFields matched))
    = 9%nat /\
  length (filter isSummaryLine (knowledgeSection sampleFields matched))
    = 20%nat /\
  last (knowledgeSection sampleFields matched) Intro = Trailer 5.
Proof. repeat split; vm_compute; reflexivity. Qed.

Lemma knowledgeSection_budget_witness :
  let matched := map sampleEntry (seq 1 35) in
  filter isFullBlock (knowledgeSection sampleFields matched)
    = map FullBlock (firstn 10 matched) /\
  exists body,
    knowledgeSection sampleFields matched = body ++ [Trailer 5] /\
    filter isTrailer body = [].
Proof.
  intros matched.
  pose proof (knowledgeSection_budget sampleFields matched)
    as (_ & _ & _ & _ & _ & _ & H7 & _ & _ & H10).
  split.
  - apply H7. vm_compute. reflexivity.
  - apply H10. vm_compute. reflexivity.
Defined.

End Budget.

(** ** Bulk extraction: handleAnalyze *)

Section Extraction.
Import Effects.

Variable server : nat -> request -> fetchOutcome.
Variable JSON_parse_array : jsstring -> result (list json).
Variable aiSettings : AISettings.

Lemma requestsMade_app (a b : list event) :
  requestsMade (a ++ b) = (requestsMade a + requestsMade b)%nat.
Proof. unfold requestsMade. now rewrite filter_app, length_app. Qed.

(** One turn of the [try] block: the request is made and the block
    returns the items of the chunk, or throws. *)
Lemma analyzeChunk_run (chunk : Segment.TextChunk) (acc : list json)
    (tr : list event) :
  analyzeChunk server JSON_parse_array aiSettings chunk acc tr =
  (match chunkItems JSON_parse_array
           (server (requestsMade tr) (extractRequest aiSettings chunk))
   with
   | Ok items => Ok (acc ++ items)
   | Throw e => Throw e
   end, tr ++ [EvFetch (extractRequest aiSettings chunk)]).
Proof.
  unfold analyzeChunk, bind, fetch, chunkItems.
  destruct (server (requestsMade tr) (extractRequest aiSettings chunk))
    as [e|r]; [reflexivity|].
  unfold resJson. destruct (body r) as [data|e]; [|reflexivity].
  unfold ret, liftResult.
  destruct (choiceContent data) as [picked|e]; [|reflexivity].
  destruct (if truthy picked then picked else Some (JStr (js "[]")))
    as [[| | |text| |]|]; try reflexivity.
  destruct (matchBracketed 91 93 text) as [m|].
  - unfold bind. destruct (JSON_parse_array m); reflexivity.
  - now rewrite app_nil_r.
Qed.

(** The loop never throws; what it does and returns is put together
    chunk by chunk. *)
Lemma analyzeFrom_run (chunks : list Segment.TextChunk) :
  forall (total i : Z) (acc : list json) (tr : list event),
  analyzeFrom server JSON_parse_array aiSettings total i chunks acc tr =
  (Ok (acc ++ loopItems server JSON_parse_array aiSettings
                        (requestsMade tr) chunks),
   tr ++ loopEvents server JSON_parse_array aiSettings total i
                    (requestsMade tr) chunks).
Proof.
  induction chunks as [|chunk rest IH]; intros total i acc tr.
  - cbn. now rewrite !app_nil_r.
  - cbn [analyzeFrom loopItems loopEvents].
    unfold bind at 1. unfold emit at 1.
    unfold bind at 1. unfold tryCatch.
    rewrite analyzeChunk_run.
    rewrite requestsMade_app. cbn [requestsMade filter isFetch length].
    rewrite Nat.add_0_r. unfold itemsOf.
    destruct (chunkItems JSON_parse_array
                (server (requestsMade tr)
                        (extractRequest aiSettings chunk))) as [items|e].
    + unfold bind at 1. unfold emit at 1. rewrite IH.
      rewrite !requestsMade_app. cbn [requestsMade filter isFetch length].
      rewrite !Nat.add_0_r, Nat.add_1_r.
      f_equal; [now rewrite <- app_assoc|].
      rewrite <- !app_assoc. reflexivity.
    + unfold bind at 1. unfold emit at 1. unfold ret at 1.
      unfold bind at 1. unfold emit at 1. rewrite IH.
      rewrite !requestsMade_app. cbn [requestsMade filter isFetch length].
      rewrite !Nat.add_0_r, Nat.add_1_r.
      f_equal. rewrite <- !app_assoc. reflexivity.
Qed.

Lemma loopEvents_fetches (chunks : list Segment.TextChunk) :
  forall (total i : Z) (n : nat),
  filter isFetch
    (loopEvents server JSON_parse_array aiSettings total i n chunks)
  = requestsOf aiSettings chunks.
Proof.
  induction chunks as [|chunk rest IH]; intros total i n; [reflexivity|].
  cbn [loopEvents requestsOf map]. rewrite !filter_app, IH.
  destruct (chunkItems JSON_parse_array _); reflexivity.
Qed.

Lemma loopEvents_pacing (chunks : list Segment.TextChunk) :
  forall (total i : Z) (n : nat),
  filter (fun e => isFetch e || isSleep e)
    (loopEvents server JSON_parse_array aiSettings total i n chunks)
  = pacedRequests aiSettings chunks.
Proof.
  induction chunks as [|chunk rest IH]; intros total i n; [reflexivity|].
  cbn [loopEvents pacedRequests flat_map]. rewrite !filter_app, IH.
  destruct (chunkItems JSON_parse_array _); reflexivity.
Qed.

Lemma loopEvents_logged (chunks : list Segment.TextChunk) :
  forall (total i : Z) (n : nat),
  length (filter isConsoleError
            (loopEvents server JSON_parse_array aiSettings total i n
                        chunks))
  = length (filter (fun jc => isThrow
                      (chunkItems JSON_parse_array
                         (server (fst jc)
                                 (extractRequest aiSettings (snd jc)))))
                   (combine (seq n (length chunks)) chunks)).
Proof.
  induction chunks as [|chunk rest IH]; intros total i n; [reflexivity|].
  cbn [loopEvents length seq combine filter fst snd].
  rewrite !filter_app, !length_app, IH.
  destruct (chunkItems JSON_parse_array _); reflexivity.
Qed.

Lemma loopItems_indexed (chunks : list Segment.TextChunk) :
  forall n : nat,
  loopItems server JSON_parse_array aiSettings n chunks
  = flat_map (fun jc => itemsOf JSON_parse_array
                          (server (fst jc)
                                  (extractRequest aiSettings (snd jc))))
             (combine (seq n (length chunks)) chunks).
Proof.
  induction chunks as [|chunk rest IH]; intros n; [reflexivity|].
  cbn [loopItems length seq combine flat_map fst snd]. now rewrite IH.
Qed.

(** X14.  The extraction loop over any list of chunks never throws.  Its
    requests are those of the chunks, one for each chunk and in their
    order, whatever became of the earlier ones; every request is followed
    by a pause of 500 ms before the next; the items returned are those
    accumulated before followed by the contribution of every chunk in
    turn, a contribution that depends on the outcome of the request of
    that chunk only and is empty when something is thrown inside the
    [try] block (by [fetch], by [res.json()], by reading the content or by
    [JSON.parse]); everything thrown there is logged, once.  A reply
    with a status outside 200..299 throws nothing there. *)
Theorem analyzeFrom_resilient (total i : Z)
    (chunks : list Segment.TextChunk) (acc : list json)
    (tr : list event) :
  let outcomes :=
    map (fun jc => server (fst jc) (extractRequest aiSettings (snd jc)))
        (combine (seq (requestsMade tr) (length chunks)) chunks) in
  exists evs,
    analyzeFrom server JSON_parse_array aiSettings total i chunks acc tr
      = (Ok (acc ++ flat_map (itemsOf JSON_parse_array) outcomes),
         tr ++ evs) /\
    filter isFetch evs = requestsOf aiSettings chunks /\
    filter (fun e => isFetch e || isSleep e) evs
      = pacedRequests aiSettings chunks /\
    length (filter isConsoleError evs)
      = length (filter (fun o => isThrow (chunkItems JSON_parse_array o))
                       outcomes) /\
    (forall o e, chunkItems JSON_parse_array o = Throw e ->
                 itemsOf JSON_parse_array o = []).
Proof.
  intros outcomes.
  exists (loopEvents server JSON_parse_array aiSettings total i
                     (requestsMade tr) chunks).
  repeat split.
  - rewrite analyzeFrom_run, loopItems_indexed. subst outcomes.
    now rewrite flat_map_concat_map, <- map_map, <- flat_map_concat_map.
  - apply loopEvents_fetches.
  - apply loopEvents_pacing.
  - rewrite loopEvents_logged. subst outcomes.
    generalize (combine (seq (requestsMade tr) (length chunks)) chunks).
    intros l. induction l as [|jc l IH]; [reflexivity|].
    cbn [map filter]. destruct (isThrow _); cbn [length]; now rewrite IH.
  - intros o e H. unfold itemsOf. now rewrite H.
Qed.

(** X15.  [handleAnalyze] as a whole, for a text that is not blank and a
    configured key: it ends normally, with the results of the loop. *)
Lemma handleAnalyze_completes (text : jsstring) :
  trim text <> [] -> apiKey aiSettings <> [] ->
  let chunks := Segment.splitText text Segment.defaultMaxLen in
  let total := Z.of_nat (length chunks) in
  handleAnalyze server JSON_parse_array aiSettings text []
  = (Ok tt,
     [EvSetProgress 0 total; EvSetLoading true; EvSetError []]
     ++ loopEvents server JSON_parse_array aiSettings total 0 0 chunks
     ++ [EvSetResults (loopItems server JSON_parse_array aiSettings 0
                                 chunks);
         EvSetLoading false]).
Proof.
  intros Ht Hk chunks total. unfold handleAnalyze.
  apply nonEmpty_true in Ht, Hk. rewrite Ht, Hk. cbn [negb].
  fold chunks. fold total.
  unfold bind at 1, emit at 1. unfold bind at 1, emit at 1.
  unfold bind at 1, emit at 1. unfold bind at 1.
  rewrite analyzeFrom_run. cbn [app requestsMade filter isFetch length].
  unfold bind, emit. cbn [app]. now rewrite <- !app_assoc.
Qed.

End Extraction.

(** ** Merging a group: handleMerge *)

Section Merging.
Import Effects.

Variable server : nat -> request -> fetchOutcome.
Variable JSON_parse_object : jsstring -> result (list (jsstring * json)).
Variable CATEGORY_FIELDS : KnowledgeCategory -> option (list Prompt.Field).
Variable createEmptyDetails : jsstring -> list (jsstring * json).
Variable aiSettings : AISettings.
Variable deleteOriginals : bool.
Variable group : Merge.DuplicateGroup.

Lemma deleteAll_run (es : list KnowledgeEntry) (tr : list event) :
  deleteAll es tr
  = (Ok tt, tr ++ map (fun e => EvDeleteKnowledge (id e)) es).
Proof.
  revert tr. induction es as [|e es IH]; intros tr.
  - cbn. now rewrite app_nil_r.
  - cbn [deleteAll map]. unfold bind, emit. rewrite IH.
    now rewrite <- app_assoc.
Qed.

Lemma mergeBody_run (tr : list event) :
  let reply := replyOf JSON_parse_object
                 (server (requestsMade tr) (mergeRequest aiSettings group))
  in
  mergeBody server JSON_parse_object createEmptyDetails aiSettings
            deleteOriginals group tr
  = (match reply with Failed e => Throw e | _ => Ok tt end,
     tr ++ [EvFetch (mergeRequest aiSettings group)]
        ++ afterReply createEmptyDetails deleteOriginals group reply).
Proof.
  unfold mergeBody, replyOf, bind at 1, fetch.
  destruct (server (requestsMade tr) (mergeRequest aiSettings group))
    as [e|r]; cbn [afterReply].
  { now rewrite app_nil_r. }
  unfold bind at 1. destruct (ok r); cbn [negb].
  2:{ unfold throw. now rewrite app_nil_r. }
  unfold ret at 1. unfold bind at 1, resJson.
  destruct (body r) as [data|e].
  2:{ unfold throw. cbn [afterReply]. now rewrite app_nil_r. }
  unfold ret at 1. unfold bind at 1, liftResult.
  destruct (choiceContent data) as [picked|e].
  2:{ cbn [afterReply]. now rewrite app_nil_r. }
  destruct (if truthy picked then picked else Some (JStr []))
    as [[| | |text| |]|]; cbn [afterReply];
    try (unfold throw; now rewrite app_nil_r).
  destruct (matchBracketed 123 125 text) as [m|].
  - unfold bind at 1, liftResult.
    destruct (JSON_parse_object m) as [parsed|e]; cbn [afterReply].
    + unfold bind, emit. destruct deleteOriginals.
      * rewrite deleteAll_run. now rewrite <- !app_assoc.
      * unfold ret. now rewrite <- !app_assoc.
    + now rewrite app_nil_r.
  - unfold emit. now rewrite <- app_assoc.
Qed.

(** The run of [handleMerge] for a configured key and a group whose
    entries all have their fields. *)
Lemma handleMerge_run (tr : list event) :
  apiKey aiSettings <> [] ->
  forallb (hasFields CATEGORY_FIELDS) (Merge.entries group) = true ->
  let reply := replyOf JSON_parse_object
                 (server (requestsMade tr) (mergeRequest aiSettings group))
  in
  handleMerge server JSON_parse_object CATEGORY_FIELDS createEmptyDetails
              aiSettings deleteOriginals group tr
  = (Ok tt,
     tr ++ [EvSetMerging true; EvSetError []; EvSetMergeResult NoResult;
            EvFetch (mergeRequest aiSettings group)]
        ++ afterReply createEmptyDetails deleteOriginals group reply
        ++ match reply with
           | Failed e => [EvSetError (MSG_MERGE_FAILED ++ message e)]
           | _ => []
           end
        ++ [EvSetMerging false]).
Proof.
  intros Hkey Hfields reply. unfold handleMerge.
  apply nonEmpty_true in Hkey. rewrite Hkey. cbn [negb].
  unfold bind at 1, emit at 1. unfold bind at 1, emit at 1.
  unfold bind at 1, emit at 1. unfold bind at 1, collectContent.
  rewrite Hfields. unfold ret at 1.
  unfold tryFinally, tryCatch. rewrite mergeBody_run.
  assert (R : requestsMade
                ((((tr ++ [EvSetMerging true]) ++ [EvSetError []])
                  ++ [EvSetMergeResult NoResult]))
              = requestsMade tr).
  { rewrite !requestsMade_app. cbn. lia. }
  rewrite R. fold reply.
  destruct reply; unfold emit; cbn [afterReply app];
    rewrite <- ?app_assoc; cbn [app]; rewrite <- ?app_assoc;
    reflexivity.
Qed.

(** C8.  Without an API key [handleMerge] reports the configuration
    error and does nothing else: no request, no change of the store.
    With a key, for a group whose entries have their fields, it makes one
    request and returns normally whatever the reply; when the reply holds
    no text in braces the format error is reported, when the request or
    the parsing fails the failure is reported, and in both cases nothing
    is added to the store and nothing is deleted; only a parsed reply adds
    the merged entry, and the originals are deleted then and only if
    [deleteOriginals] is set. *)
Theorem handleMerge_failures (tr : list event) :
  let run := handleMerge server JSON_parse_object CATEGORY_FIELDS
               createEmptyDetails aiSettings deleteOriginals group tr in
  let reply := replyOf JSON_parse_object
                 (server (requestsMade tr) (mergeRequest aiSettings group))
  in
  (apiKey aiSettings = [] ->
   run = (Ok tt, tr ++ [EvSetError MSG_NO_KEY])) /\
  (apiKey aiSettings <> [] ->
   forallb (hasFields CATEGORY_FIELDS) (Merge.entries group) = true ->
   exists evs,
     run = (Ok tt, tr ++ evs) /\
     filter isFetch evs = [EvFetch (mergeRequest aiSettings group)] /\
     match reply with
     | NoObject =>
       filter isStoreOp evs = [] /\
       filter isSetError evs = [EvSetError []; EvSetError MSG_FORMAT]
     | Failed e =>
       filter isStoreOp evs = [] /\
       filter isSetError evs
         = [EvSetError []; EvSetError (MSG_MERGE_FAILED ++ message e)]
     | Parsed parsed =>
       filter isStoreOp evs
         = EvAddKnowledge (mergedEntry createEmptyDetails group parsed)
           :: (if deleteOriginals
               then map (fun e => EvDeleteKnowledge (id e))
                        (Merge.entries group)
               else [])
     end).
Proof.
  intros run reply. split.
  - intros H. subst run. unfold handleMerge. now rewrite H.
  - intros Hkey Hfields. subst run.
    rewrite (handleMerge_run tr Hkey Hfields). fold reply.
    eexists. split; [reflexivity|].
    destruct reply as [parsed| |e]; cbn [afterReply]; rewrite !filter_app.
    + split.
      * destruct deleteOriginals; cbn [filter isFetch app];
          rewrite ?filter_map_none by reflexivity; reflexivity.
      * destruct deleteOriginals; cbn [filter isStoreOp app];
          rewrite ?filter_map_all by reflexivity;
          now rewrite ?app_nil_r.
    + repeat split; reflexivity.
    + repeat split; reflexivity.
Qed.

End Merging.

Section MergingExamples.
Import Effects.

Lemma handleMerge_failures_witness :
  let group := Merge.mkGroup (js "张三") (js "人物")
                 [entryOf Person "张三" "1"; entryOf Person "张三 (2)" "2"] in
  let settings := mkSettings (js "https://api") (js "sk-1") (js "m") [] in
  let server := fun (_ : nat) (_ : request) =>
    Responded (mkResponse 200 (JsonOk (JObj
      [(js "choices",
        JArr [JObj [(js "message",
                     JObj [(js "content", JStr (js "抱歉，无法合并"))])]])]))) in
  handleMerge server parseNothing Prompt.sampleFields (fun _ => [])
              (mkSettings [] [] [] []) true group []
    = (Ok tt, [EvSetError MSG_NO_KEY]) /\
  exists evs,
    handleMerge server parseNothing Prompt.sampleFields (fun _ => [])
                settings true group [] = (Ok tt, evs) /\
    filter isStoreOp evs = [] /\
    filter isSetError evs = [EvSetError []; EvSetError MSG_FORMAT].
Proof.
  intros group settings server.
  pose proof (handleMerge_failures server parseNothing
                Prompt.sampleFields (fun _ => []) (mkSettings [] [] [] [])
                true group []) as [H1 _].
  pose proof (handleMerge_failures server parseNothing
                Prompt.sampleFields (fun _ => []) settings
                true group []) as [_ H2].
  split.
  - apply H1. reflexivity.
  - destruct H2 as (evs & E & _ & K).
    + discriminate.
    + reflexivity.
    + exists evs. split; [exact E|]. exact K.
Defined.

End MergingExamples.

(** ** The HTTP status and the completion text *)

Section Boundary.
Import Effects.

Section Chat.
Variable server : nat -> request -> fetchOutcome.
Variable CATEGORY_FIELDS : KnowledgeCategory -> option (list Prompt.Field).
Variable toLowerCase : jsstring -> jsstring.
Variable st : Knowledge.storeState.
Variable messages : list Message.
Variable settings : AISettings.
Variable currentContent : option jsstring.

(** What [sendToAI] returns, by the outcome of its request. *)
Lemma sendToAI_run (tr : list event) :
  sendToAI server CATEGORY_FIELDS toLowerCase st messages settings
           currentContent tr
  = (match server (requestsMade tr)
             (chatRequest CATEGORY_FIELDS toLowerCase st messages settings
                          currentContent) with
     | Rejected e => Throw e
     | Responded r =>
       if ok r then
         match body r with
         | JsonFails e => Throw e
         | JsonOk data =>
           match choiceContent data with
           | Throw e => Throw e
           | Ok picked => Ok (orElse picked (JStr MSG_NO_RESPONSE))
           end
         end
       else Throw (apiError MSG_API_ERROR_CHAT r)
     end,
     tr ++ [EvFetch (chatRequest CATEGORY_FIELDS toLowerCase st messages
                                 settings currentContent)]).
Proof.
  unfold sendToAI, bind at 1, fetch.
  destruct (server _ _) as [e|r]; [reflexivity|].
  destruct (ok r); cbn [negb]; [|reflexivity].
  unfold bind at 1, resJson. destruct (body r) as [data|e]; [|reflexivity].
  unfold ret at 1. unfold bind, liftResult.
  destruct (choiceContent data); reflexivity.
Qed.

(** X16.  A status outside 200-299 makes [sendToAI] throw an error whose
    message ends with the status. *)
Lemma sendToAI_status (tr : list event) (r : response) :
  server (requestsMade tr)
         (chatRequest CATEGORY_FIELDS toLowerCase st messages settings
                      currentContent) = Responded r ->
  ok r = false ->
  fst (sendToAI server CATEGORY_FIELDS toLowerCase st messages settings
                currentContent tr)
  = Throw (mkError PlainError
             (MSG_API_ERROR_CHAT ++ numberToString (status r))).
Proof.
  intros H Hok. rewrite sendToAI_run, H, Hok. reflexivity.
Qed.

End Chat.

Lemma optChain_get (o : option json) (get : json -> option json) :
  get JNull = None ->
  optChain o get = match o with Some w => get w | None => None end.
Proof. intros H. destruct o as [[| | | | |]|]; simpl; congruence. Qed.

Lemma AtPath_prop_iff (w : json) (name : jsstring) (rest : list pathStep)
    (v : json) :
  AtPath w (Prop_ name :: rest) v <->
  exists x, getProp w name = Some x /\ AtPath x rest v.
Proof.
  split.
  - intros H. inversion H; subst. eexists. split; [|eassumption].
    assumption.
  - intros (x & E & H). destruct w; try discriminate.
    econstructor; eassumption.
Qed.

Lemma AtPath_index_iff (w : json) (rest : list pathStep) (v : json) :
  AtPath w (Index0 :: rest) v <->
  exists x, getIndex0 w = Some x /\ AtPath x rest v.
Proof.
  split.
  - intros H. inversion H; subst. eexists. split; eassumption.
  - intros (x & E & H). econstructor; eassumption.
Qed.

Lemma AtPath_nil_iff (w v : json) : AtPath w [] v <-> v = w.
Proof.
  split; [intros H; now inversion H | intros ->; constructor].
Qed.

(** The optional chain reads the value at [choices[0].message.content]. *)
Lemma choiceContent_AtPath (data : json) :
  data <> JNull ->
  exists o, choiceContent data = Ok o /\
            forall v, o = Some v <-> AtPath data CONTENT_PATH v.
Proof.
  intros Hnn.
  exists (optChain
            (optChain (optChain (getProp data (js "choices")) getIndex0)
                      (fun v => getProp v (js "message")))
            (fun v => getProp v (js "content"))).
  split; [destruct data; try reflexivity; congruence|].
  intros v. unfold CONTENT_PATH.
  rewrite AtPath_prop_iff. rewrite !optChain_get by reflexivity.
  split.
  - intros H.
    destruct (getProp data (js "choices")) as [c|]; [|discriminate].
    exists c. split; [reflexivity|]. rewrite AtPath_index_iff.
    destruct (getIndex0 c) as [f|]; [|discriminate].
    exists f. split; [reflexivity|]. rewrite AtPath_prop_iff.
    destruct (getProp f (js "message")) as [m|]; [|discriminate].
    exists m. split; [reflexivity|]. rewrite AtPath_prop_iff.
    exists v. split; [exact H | constructor].
  - intros (c & -> & H). apply AtPath_index_iff in H as (f & -> & H).
    apply AtPath_prop_iff in H as (m & -> & H).
    apply AtPath_prop_iff in H as (x & -> & H).
    apply AtPath_nil_iff in H. now subst.
Qed.

(** C10, as amended.  For a response with a status in 200-299 whose
    parsed body is not [null] and has no truthy value at
    [choices[0].message.content] (nothing there, as with an empty
    [choices] array, or a falsy value), [sendToAI] returns the placeholder
    text normally; a response whose completion is that very text gives the
    same result, so the caller cannot tell the two apart. *)
Theorem sendToAI_placeholder
    (server : nat -> request -> fetchOutcome)
    (CATEGORY_FIELDS : KnowledgeCategory -> option (list Prompt.Field))
    (toLowerCase : jsstring -> jsstring)
    (st : Knowledge.storeState) (messages : list Message)
    (settings : AISettings) (currentContent : option jsstring)
    (tr : list event) (r : response) (data : json)
    (Hresp : server (requestsMade tr)
               (chatRequest CATEGORY_FIELDS toLowerCase st messages
                            settings currentContent) = Responded r)
    (Hok : ok r = true)
    (Hbody : body r = JsonOk data)
    (Hnn : data <> JNull)
    (Hlack : forall v, AtPath data CONTENT_PATH v ->
                       truthy (Some v) = false) :
  sendToAI server CATEGORY_FIELDS toLowerCase st messages settings
           currentContent tr
  = (Ok (JStr MSG_NO_RESPONSE),
     tr ++ [EvFetch (chatRequest CATEGORY_FIELDS toLowerCase st messages
                                 settings currentContent)]) /\
  forall (server' : nat -> request -> fetchOutcome) (r' : response)
         (data' : json),
    server' (requestsMade tr)
            (chatRequest CATEGORY_FIELDS toLowerCase st messages
                         settings currentContent) = Responded r' ->
    ok r' = true -> body r' = JsonOk data' ->
    AtPath data' CONTENT_PATH (JStr MSG_NO_RESPONSE) ->
    sendToAI server' CATEGORY_FIELDS toLowerCase st messages settings
             currentContent tr
    = sendToAI server CATEGORY_FIELDS toLowerCase st messages settings
               currentContent tr.
Proof.
  assert (E : sendToAI server CATEGORY_FIELDS toLowerCase st messages
                settings currentContent tr
              = (Ok (JStr MSG_NO_RESPONSE),
                 tr ++ [EvFetch (chatRequest CATEGORY_FIELDS toLowerCase st
                                   messages settings currentContent)])).
  { rewrite sendToAI_run, Hresp, Hok, Hbody.
    destruct (choiceContent_AtPath data Hnn) as (o & -> & Ho).
    destruct o as [v|]; [|reflexivity].
    assert (F : truthy (Some v) = false) by (apply Hlack, Ho; reflexivity).
    unfold orElse. now rewrite F. }
  split; [exact E|].
  intros server' r' data' Hresp' Hok' Hbody' Hat. rewrite E.
  rewrite sendToAI_run, Hresp', Hok', Hbody'.
  assert (Hnn' : data' <> JNull).
  { intros ->. inversion Hat. }
  destruct (choiceContent_AtPath data' Hnn') as (o & -> & Ho).
  apply Ho in Hat. subst o. reflexivity.
Qed.

Lemma sendToAI_placeholder_witness :
  let noChoices := JObj [(js "choices", JArr [])] in
  sendToAI (always (mkResponse 200 (JsonOk noChoices))) Prompt.sampleFields
           asciiLower emptyStore userAsks sampleSettings None []
  = (Ok (JStr MSG_NO_RESPONSE),
     [EvFetch (chatRequest Prompt.sampleFields asciiLower emptyStore
                           userAsks sampleSettings None)]) /\
  sendToAI (always (mkResponse 200
                      (JsonOk (completion (JStr MSG_NO_RESPONSE)))))
           Prompt.sampleFields asciiLower emptyStore userAsks
           sampleSettings None []
  = sendToAI (always (mkResponse 200 (JsonOk noChoices)))
             Prompt.sampleFields asciiLower emptyStore userAsks
             sampleSettings None [].
Proof.
  intros noChoices.
  assert (Hlack : forall v, AtPath noChoices CONTENT_PATH v ->
                            truthy (Some v) = false).
  { intros v H. apply AtPath_prop_iff in H as (c & E & H).
    injection E as <-. apply AtPath_index_iff in H as (f & F & _).
    discriminate F. }
  destruct (sendToAI_placeholder
              (always (mkResponse 200 (JsonOk noChoices)))
              Prompt.sampleFields asciiLower emptyStore userAsks
              sampleSettings None [] (mkResponse 200 (JsonOk noChoices))
              noChoices eq_refl eq_refl eq_refl
              ltac:(discriminate) Hlack) as [H1 H2].
  split; [exact H1|].
  apply (H2 _ (mkResponse 200 (JsonOk (completion (JStr MSG_NO_RESPONSE))))
            (completion (JStr MSG_NO_RESPONSE))); try reflexivity.
  apply AtPath_prop_iff. eexists. split; [reflexivity|].
  apply AtPath_index_iff. eexists. split; [reflexivity|].
  apply AtPath_prop_iff. eexists. split; [reflexivity|].
  apply AtPath_prop_iff. eexists. split; [reflexivity|].
  constructor.
Defined.

(** C10 as stated fails for the body [null]: it has nothing at
    [choices[0].message.content], the status is 200, and [sendToAI]
    throws a TypeError instead of returning the placeholder. *)
Lemma sendToAI_null_body_throws :
  ok (mkResponse 200 (JsonOk JNull)) = true /\
  (forall v, ~ AtPath JNull CONTENT_PATH v) /\
  fst (sendToAI (always (mkResponse 200 (JsonOk JNull)))
                Prompt.sampleFields asciiLower emptyStore userAsks
                sampleSettings None [])
  = Throw NULL_READ /\
  errKind NULL_READ = TypeError.
Proof.
  repeat split.
  intros v H. inversion H.
Qed.

(** *** The extraction loop does not look at the status *)

(** What a response contributes to the extraction does not depend on its
    status. *)
Lemma chunkItems_any_status
    (JSON_parse_array : jsstring -> result (list json))
    (s1 s2 : Z) (b : bodyJson) :
  chunkItems JSON_parse_array (Responded (mkResponse s1 b))
  = chunkItems JSON_parse_array (Responded (mkResponse s2 b)).
Proof. reflexivity. Qed.

(** C9 fails for the extraction calls.  A server that answers every
    request with the status 500 and a JSON body that describes the error:
    [handleAnalyze] makes the request of the only chunk, logs nothing,
    reports no error and ends with an empty list of results, exactly as
    for a status 200 and the completion [[]]; the status is never read. *)
Theorem handleAnalyze_ignores_status :
  ok (mkResponse 500 (JsonOk errorBody)) = false /\
  handleAnalyze (always (mkResponse 500 (JsonOk errorBody)))
                parseEmptyArray sampleSettings sampleText []
  = (Ok tt,
     [EvSetProgress 0 1; EvSetLoading true; EvSetError [];
      EvSetProgress 1 1;
      EvFetch (extractRequest sampleSettings
                 (Segment.mkChunk sampleText None));
      EvSleep 500;
      EvSetResults []; EvSetLoading false]) /\
  handleAnalyze (always (mkResponse 500 (JsonOk errorBody)))
                parseEmptyArray sampleSettings sampleText []
  = handleAnalyze
      (always (mkResponse 200 (JsonOk (completion (JStr (js "[]"))))))
      parseEmptyArray sampleSettings sampleText [].
Proof. repeat split; vm_compute; reflexivity. Qed.

(** C7 fails for a request that the server refuses.  A server that
    answers every request with the status 500 and a body whose completion
    is the text [[1]]: the request of the only chunk has failed, yet
    [handleAnalyze] takes the item 1 from the reply into the results and
    logs nothing.  The status is never read: the outcome is that of the
    same body under the status 200. *)
Theorem handleAnalyze_keeps_failed_reply :
  let refused := mkResponse 500 (JsonOk (completion (JStr (js "[1]")))) in
  let served := mkResponse 200 (JsonOk (completion (JStr (js "[1]")))) in
  ok refused = false /\
  handleAnalyze (always refused) parseOneItem sampleSettings sampleText []
  = (Ok tt,
     [EvSetProgress 0 1; EvSetLoading true; EvSetError [];
      EvSetProgress 1 1;
      EvFetch (extractRequest sampleSettings
                 (Segment.mkChunk sampleText None));
      EvSleep 500;
      EvSetResults [JNum 1]; EvSetLoading false]) /\
  filter isConsoleError
    (snd (handleAnalyze (always refused) parseOneItem sampleSettings
                        sampleText [])) = [] /\
  handleAnalyze (always refused) parseOneItem sampleSettings sampleText []
  = handleAnalyze (always served) parseOneItem sampleSettings sampleText [].
Proof. repeat split; vm_compute; reflexivity. Qed.

(** X17.  A status outside 200-299 makes [handleMerge] show the failure of the
    merge with the status, leave the store alone and end normally. *)
Lemma handleMerge_status
    (JSON_parse_object : jsstring -> result (list (jsstring * json)))
    (CATEGORY_FIELDS : KnowledgeCategory -> option (list Prompt.Field))
    (createEmptyDetails : jsstring -> list (jsstring * json))
    (aiSettings : AISettings) (deleteOriginals : bool)
    (group : Merge.DuplicateGroup) (r : response) :
  apiKey aiSettings <> [] ->
  forallb (hasFields CATEGORY_FIELDS) (Merge.entries group) = true ->
  ok r = false ->
  handleMerge (always r) JSON_parse_object CATEGORY_FIELDS
              createEmptyDetails aiSettings deleteOriginals group []
  = (Ok tt,
     [EvSetMerging true; EvSetError []; EvSetMergeResult NoResult;
      EvFetch (mergeRequest aiSettings group);
      EvSetError (MSG_MERGE_FAILED ++ MSG_API_ERROR_MERGE
                  ++ numberToString (status r));
      EvSetMerging false]).
Proof.
  intros Hkey Hfields Hok.
  rewrite (handleMerge_run (always r) JSON_parse_object CATEGORY_FIELDS
             createEmptyDetails aiSettings deleteOriginals group []
             Hkey Hfields).
  unfold always, replyOf. rewrite Hok. reflexivity.
Qed.

End Boundary.

(* ================================================================== *)
(** * Further properties of the segmenter *)
(* ================================================================== *)

Section SegmenterMore.
Import Segment.

(** The parts of [text.split(chapterPattern)], headings included, put
    together again give the text: nothing is lost by the splitting. *)
Lemma splitByChapter_concat (fuel : nat) :
  forall s cur : jsstring,
  concat (splitByChapter fuel s cur) = rev cur ++ s.
Proof.
  induction fuel as [|fuel IH]; intros s cur.
  - cbn. now rewrite app_nil_r.
  - cbn [splitByChapter]. destruct s as [|c s'].
    + cbn. now rewrite !app_nil_r.
    + destruct (matchChapterLen (c :: s')) as [n|].
      * cbn [concat]. rewrite IH. cbn [rev app].
        now rewrite firstn_skipn.
      * rewrite IH. cbn [rev]. now rewrite <- app_assoc.
Qed.

(** X2.  The parts into which the chapter pattern cuts a text, the headings
    among them, make up the text again when put together: the split loses
    no character. *)
Theorem splitChapters_concat (text : jsstring) :
  concat (splitChapters text) = text.
Proof. unfold splitChapters. now rewrite splitByChapter_concat. Qed.

(** Splitting a part into paragraphs removes line feeds only: the other
    characters of the part are those of the paragraphs, in order. *)
Lemma splitParagraphsFrom_keeps (s : jsstring) :
  forall (cur : jsstring) (inSep : bool),
  filter notNL (concat (splitParagraphsFrom s cur inSep))
  = filter notNL (rev cur ++ s).
Proof.
  induction s as [|c s IH]; intros cur inSep.
  - cbn. now rewrite !app_nil_r.
  - cbn [splitParagraphsFrom]. rewrite (filter_app _ (rev cur) (c :: s)).
    cbn [filter]. unfold notNL at 3.
    destruct (isNL c) eqn:Hc; cbn [negb].
    + destruct inSep.
      * now rewrite IH, filter_app.
      * destruct s as [|c2 s2].
        -- rewrite IH. cbn [rev]. rewrite !filter_app. cbn [filter].
           unfold notNL at 2. rewrite Hc. cbn. now rewrite !app_nil_r.
        -- destruct (isNL c2) eqn:Hc2.
           ++ cbn [concat]. rewrite filter_app, IH. reflexivity.
           ++ rewrite IH. cbn [rev]. rewrite !filter_app. cbn [filter].
              unfold notNL at 2. rewrite Hc. cbn [negb].
              now rewrite app_nil_r.
    + rewrite IH. cbn [rev]. rewrite !filter_app. cbn [filter].
      unfold notNL at 2. rewrite Hc. cbn [negb].
      now rewrite <- app_assoc.
Qed.

(** X3.  The paragraphs of a part hold the characters of the part that are
    not line breaks, all of them and in their order. *)
Theorem splitParagraphs_keeps (part : jsstring) :
  filter notNL (concat (splitParagraphs part)) = filter notNL part.
Proof. unfold splitParagraphs. now rewrite splitParagraphsFrom_keeps. Qed.

(** *** Texts without a heading *)

Lemma searchChapter_none_cons (c : N) (s : jsstring) (p : nat) :
  searchChapter (c :: s) p = None ->
  matchChapterLen (c :: s) = None /\ forall q, searchChapter s q = None.
Proof.
  cbn [searchChapter]. destruct (matchChapterLen (c :: s)); [discriminate|].
  intros H. split; [reflexivity|]. intros q.
  revert p q H. induction s as [|d s IH]; intros p q H.
  - cbn in *. exact H.
  - cbn [searchChapter] in *.
    destruct (matchChapterLen (d :: s)); [discriminate|].
    now apply (IH (S p)).
Qed.

Lemma searchChapter_none_pos (s : jsstring) (p q : nat) :
  searchChapter s p = None -> searchChapter s q = None.
Proof.
  destruct s as [|c s]; [trivial|]. intros H.
  apply searchChapter_none_cons in H as [H1 H2].
  cbn [searchChapter]. rewrite H1. apply H2.
Qed.

Lemma searchChapter_none_tail (f : N -> bool) (s : jsstring) (p q : nat) :
  searchChapter s p = None -> searchChapter (dropWhile f s) q = None.
Proof.
  revert p. induction s as [|c s IH]; intros p H.
  - exact (searchChapter_none_pos [] p q H).
  - cbn [dropWhile]. destruct (f c).
    + apply (IH (S p)). now apply (searchChapter_none_cons c s p).
    + exact (searchChapter_none_pos _ p q H).
Qed.

Lemma while_app_stop (f : N -> bool) (r rest w : jsstring) (z : N) :
  dropWhile f r = z :: rest ->
  takeWhile f (r ++ w) = takeWhile f r /\
  dropWhile f (r ++ w) = z :: rest ++ w.
Proof.
  induction r as [|c r IH]; cbn [dropWhile takeWhile app];
    [discriminate|].
  destruct (f c).
  - intros H. destruct (IH H) as [-> ->]. now split.
  - intros H. injection H as -> ->. now split.
Qed.

Lemma startsWithCI_app (x word w : jsstring) :
  startsWithCI x word = true ->
  startsWithCI (x ++ w) word = true /\ (length word <= length x)%nat.
Proof.
  revert x. induction word as [|a word IH]; intros x.
  - intros _. split; [now destruct (x ++ w) | simpl; lia].
  - destruct x as [|y x]; [discriminate|]. cbn [startsWithCI app length].
    intros H. apply andb_true_iff in H as [H1 H2].
    destruct (IH x H2) as [K1 K2]. rewrite H1, K1. split; [reflexivity|lia].
Qed.

(** A match at the start of a text is a match at the start of every
    longer text. *)
Lemma matchChapterLen_app (x w : jsstring) :
  matchChapterLen (x ++ w) = None -> matchChapterLen x = None.
Proof.
  destruct x as [|c r]; [reflexivity|].
  cbn [app]. unfold matchChapterLen.
  destruct (c =? 0x7B2C)%N.
  - destruct (dropWhile isChapterNumeral r) as [|z rest] eqn:D.
    + now destruct (takeWhile isChapterNumeral r).
    + destruct (while_app_stop isChapterNumeral r rest w z D) as [-> ->].
      destruct (takeWhile isChapterNumeral r); [reflexivity|].
      now destruct (z =? 0x7AE0)%N.
  - destruct (startsWithCI (c :: r) CHAPTER) eqn:S; [|reflexivity].
    destruct (startsWithCI_app (c :: r) CHAPTER w S) as [S' L].
    cbn [app] in S'. rewrite S'.
    change (c :: r ++ w) with ((c :: r) ++ w).
    rewrite skipn_app.
    replace (7 - length (c :: r))%nat with O
      by (cbn [length CHAPTER] in *; lia).
    change (skipn 0 w) with w.
    generalize (skipn 7 (c :: r)). intros r1.
    destruct (dropWhile isWhiteSpace r1) as [|d r2] eqn:D.
    + reflexivity.
    + destruct (while_app_stop isWhiteSpace r1 r2 w d D) as [-> ->].
      cbn [takeWhile]. destruct (isDigit d); [discriminate | reflexivity].
Qed.

Lemma searchChapter_none_prefix (x w : jsstring) :
  forall p q, searchChapter (x ++ w) p = None -> searchChapter x q = None.
Proof.
  induction x as [|c x IH]; intros p q H; [reflexivity|].
  cbn [app] in H. apply searchChapter_none_cons in H as [H1 H2].
  cbn [searchChapter].
  rewrite (matchChapterLen_app (c :: x) w H1). apply (IH O), H2.
Qed.

Lemma trimEnd_prefix (s : jsstring) : exists w, s = trimEnd s ++ w.
Proof.
  induction s as [|c s [w IH]]; [now exists []|].
  cbn [trimEnd]. destruct (forallb isWhiteSpace (c :: s)).
  - now exists (c :: s).
  - exists w. cbn [app]. now rewrite <- IH.
Qed.

(** No heading in the text: none in the trimmed text. *)
Lemma searchChapter_none_trim (text : jsstring) :
  searchChapter text 0 = None -> searchChapter (trim text) 0 = None.
Proof.
  intros H. unfold trim, trimStart.
  destruct (trimEnd_prefix (dropWhile isWhiteSpace text)) as [w E].
  apply (searchChapter_none_prefix _ w 0 0). rewrite <- E.
  now apply (searchChapter_none_tail _ _ 0).
Qed.

Lemma splitByChapter_none (s : jsstring) :
  forall (fuel p : nat) (cur : jsstring),
  searchChapter s p = None ->
  splitByChapter fuel s cur = [rev cur ++ s].
Proof.
  induction s as [|c s IH]; intros fuel p cur H.
  - destruct fuel; cbn; now rewrite ?app_nil_r.
  - destruct fuel as [|fuel]; [reflexivity|].
    apply searchChapter_none_cons in H as [H1 H2].
    cbn [splitByChapter]. rewrite H1, (IH fuel O _ (H2 O)).
    cbn [rev]. now rewrite <- app_assoc.
Qed.

Lemma splitText_single_part (text : jsstring) (maxLen : nat)
    (Hnone : searchChapter text 0 = None) :
  ((length (trim text) < 50)%nat -> splitText text maxLen = []) /\
  ((50 <= length (trim text) <= maxLen)%nat ->
   splitText text maxLen = [mkChunk (trim text) None]).
Proof.
  unfold splitText, splitChapters.
  rewrite (splitByChapter_none text _ 0 [] Hnone).
  cbn [rev app fold_left]. unfold splitStep. cbn [lastIndex].
  assert (T : regexTest 0 (trim text) = (false, O)).
  { unfold regexTest. cbn [skipn Nat.ltb Nat.leb].
    now rewrite (searchChapter_none_trim text Hnone). }
  rewrite T. split.
  - intros H. apply Nat.ltb_lt in H. rewrite H.
    now destruct (nonEmpty (trim text)).
  - intros [H1 H2].
    assert (N : nonEmpty (trim text) = true)
      by (destruct (trim text); [simpl in H1; lia | reflexivity]).
    rewrite N. cbn [negb].
    apply Nat.ltb_ge in H1. rewrite H1.
    apply Nat.leb_le in H2. rewrite H2. reflexivity.
Qed.

(** X4.  A text in which the chapter pattern has no match is one part.  It is
    dropped when its trimmed form is shorter than 50 characters, and it is
    one chunk without a chapter label when that form has between 50 and
    [maxLen] characters. *)
Theorem splitText_no_heading (text : jsstring) (maxLen : nat)
    (Hnone : searchChapter text 0 = None) :
  ((length (trim text) < 50)%nat -> splitText text maxLen = []) /\
  ((50 <= length (trim text) <= maxLen)%nat ->
   splitText text maxLen = [mkChunk (trim text) None]).
Proof. exact (splitText_single_part text maxLen Hnone). Qed.

Lemma splitText_no_heading_witness :
  splitText (js "  " ++ repeat 97%N 60 ++ js " ") 100
  = [mkChunk (repeat 97%N 60) None].
Proof.
  assert (E : repeat 97%N 60 = trim (js "  " ++ repeat 97%N 60 ++ js " "))
    by (vm_compute; reflexivity).
  rewrite E at 2.
  apply (splitText_no_heading (js "  " ++ repeat 97%N 60 ++ js " ") 100).
  - vm_compute. reflexivity.
  - vm_compute. split; repeat constructor.
Defined.

Lemma matchChapterLen_space (c : N) (r : jsstring) :
  isWhiteSpace c = true -> matchChapterLen (c :: r) = None.
Proof.
  intros W. unfold matchChapterLen.
  destruct (c =? 0x7B2C)%N eqn:E.
  - apply N.eqb_eq in E. subst c. discriminate W.
  - cbn [startsWithCI CHAPTER].
    destruct ((65 <=? c) && (c <=? 90))%N eqn:U.
    + destruct (c + 32 =? 99)%N eqn:F; [|reflexivity].
      apply N.eqb_eq in F. assert (c = 67%N) by lia. subst c.
      discriminate W.
    + destruct (c =? 99)%N eqn:F; [|reflexivity].
      apply N.eqb_eq in F. subst c. discriminate W.
Qed.

Lemma searchChapter_blank (s : jsstring) (p : nat) :
  forallb isWhiteSpace s = true -> searchChapter s p = None.
Proof.
  revert p. induction s as [|c s IH]; intros p H; [reflexivity|].
  cbn [forallb] in H. apply andb_true_iff in H as [H1 H2].
  cbn [searchChapter]. rewrite (matchChapterLen_space c s H1). now apply IH.
Qed.

(** X5.  A text of white space only, the empty text included, gives no
    chunk, whatever [maxLen]. *)
Theorem splitText_blank (text : jsstring) (maxLen : nat)
    (Hblank : forallb isWhiteSpace text = true) :
  splitText text maxLen = [].
Proof.
  apply (splitText_single_part text maxLen
           (searchChapter_blank text 0 Hblank)).
  unfold trim, trimStart. rewrite (dropWhile_all _ _ Hblank). cbn. lia.
Qed.

(** *** What every chunk satisfies *)

Lemma accumulate_Forall (P : TextChunk -> Prop) (maxLen : nat)
    (chap : jsstring) :
  (forall t, P (mkChunk (trim t) (chapterLabel chap))) ->
  forall (ps : list jsstring) (current : jsstring)
         (chunks : list TextChunk),
  Forall P chunks ->
  Forall P (fst (accumulate maxLen chap ps current chunks)).
Proof.
  intros HP. induction ps as [|p ps IH]; intros current chunks Hc;
    [exact Hc|].
  cbn [accumulate].
  destruct ((maxLen <? length (current ++ p))%nat && nonEmpty current).
  - apply IH. apply Forall_app. split; [exact Hc|].
    constructor; [apply HP | constructor].
  - now apply IH.
Qed.

Lemma regexTest_false (li : nat) (part : jsstring) :
  fst (regexTest li part) = false -> snd (regexTest li part) = O.
Proof.
  unfold regexTest. destruct (length part <? li)%nat; [reflexivity|].
  now destruct (searchChapter (skipn li part) li).
Qed.

(** The state of the loop: [lastIndex] is 0 before every test, the
    current chapter is empty or a heading, and the chunks pushed so far
    satisfy [P], for every [P] that holds of the chunks that a step can
    push. *)
Lemma splitStep_invariant (text : jsstring) (maxLen : nat)
    (P : TextChunk -> Prop) :
  (forall t chap,
     (chap = [] \/
      exists raw, In raw (splitChapters text) /\ chap = trim raw /\
                  fst (regexTest 0 chap) = true) ->
     P (mkChunk (trim t) (chapterLabel chap))) ->
  forall (parts : list jsstring) (st : splitState),
  incl parts (splitChapters text) ->
  lastIndex st = O ->
  (currentChapter st = [] \/
   exists raw, In raw (splitChapters text) /\
               currentChapter st = trim raw /\
               fst (regexTest 0 (currentChapter st)) = true) ->
  Forall P (chunks st) ->
  Forall P (chunks (fold_left (splitStep maxLen) parts st)).
Proof.
  intros HP. induction parts as [|raw parts IH];
    intros st Hin Hli Hch Hst; [exact Hst|].
  cbn [fold_left].
  assert (Hin' : incl parts (splitChapters text))
    by (intros x Hx; apply Hin; now right).
  assert (Hraw : In raw (splitChapters text)) by (apply Hin; now left).
  unfold splitStep. rewrite Hli.
  destruct (nonEmpty (trim raw)) eqn:Ne; cbn [negb]; [|now apply IH].
  pose proof (regexTest_false 0 (trim raw)) as F.
  destruct (regexTest 0 (trim raw)) as [isHeading li] eqn:T.
  cbn [fst snd] in F. destruct isHeading.
  - apply IH; trivial. right. exists raw. cbn [currentChapter].
    rewrite T. now repeat split.
  - rewrite (F eq_refl).
    destruct (length (trim raw) <? 50)%nat; [now apply IH|].
    destruct (length (trim raw) <=? maxLen)%nat.
    + apply IH; trivial. cbn [chunks]. apply Forall_app.
      split; [exact Hst|]. constructor; [|constructor].
      rewrite <- (trim_idem raw). now apply HP.
    + pose proof (accumulate_Forall P maxLen (currentChapter st)
                    (fun t => HP t _ Hch)
                    (splitParagraphs (trim raw)) [] (chunks st) Hst) as A.
      destruct (accumulate maxLen (currentChapter st)
                  (splitParagraphs (trim raw)) [] (chunks st))
        as [pushed current].
      cbn [fst] in A.
      destruct (50 <? length (trim current))%nat; apply IH; trivial.
      cbn [chunks]. apply Forall_app. split; [exact A|].
      constructor; [now apply HP | constructor].
Qed.

(** X6.  The content of every chunk is trimmed: it neither begins nor ends
    with white space. *)
Theorem splitText_trimmed (text : jsstring) (maxLen : nat) :
  Forall (fun c => trim (content c) = content c) (splitText text maxLen).
Proof.
  unfold splitText.
  apply (splitStep_invariant text maxLen); trivial.
  - intros t chap _. apply trim_idem.
  - apply incl_refl.
  - now left.
Qed.


Lemma splitText_blank_witness :
  splitText [] 3000 = [] /\ splitText (js " 
　 ") 3000 = [].
Proof.
  split; apply splitText_blank; vm_compute; reflexivity.
Defined.

End SegmenterMore.

(* ================================================================== *)
(** * Further properties of the duplicate groups *)
(* ================================================================== *)

Section DuplicatesMore.
Import Merge.

(** A group of the result is made from its key: the two fields come from
    the split key, the entries are the entries of the input with that
    key, in their order. *)
Lemma group_of_key (knowledge : list KnowledgeEntry) (g : DuplicateGroup) :
  In g (findDuplicates knowledge) <->
  exists k, In k (map groupKey knowledge) /\
            (1 < length (filter (keyIs k) knowledge))%nat /\
            g = mkGroup (nth 1 (splitColons k []) [])
                        (nth 0 (splitColons k []) [])
                        (filter (keyIs k) knowledge).
Proof.
  unfold findDuplicates. rewrite sortGroups_In, collectGroups_groupsOf.
  rewrite in_flat_map. unfold groupsOf. split.
  - intros (kv & Hkv & Hg). apply in_map_iff in Hkv as (k & <- & Hk).
    apply (proj1 (firstOcc_In _ _)) in Hk. exists k. split; [exact Hk|].
    cbn [groupOfKey] in Hg.
    destruct (1 <? length (filter (keyIs k) knowledge))%nat eqn:L;
      [|destruct Hg].
    apply Nat.ltb_lt in L. destruct Hg as [<-|[]]. now split.
  - intros (k & Hk & L & ->).
    exists (k, filter (keyIs k) knowledge). split.
    + apply in_map_iff. exists k. split; [reflexivity|].
      now apply firstOcc_In.
    + cbn [groupOfKey]. apply Nat.ltb_lt in L. rewrite L. now left.
Qed.

Lemma same_key (e1 e2 : KnowledgeEntry) :
  category e1 = category e2 ->
  getBaseName (title e1) = getBaseName (title e2) ->
  groupKey e1 = groupKey e2.
Proof. unfold groupKey. now intros -> ->. Qed.

Lemma findDuplicates_pair (knowledge : list KnowledgeEntry)
    (i j : nat) (e1 e2 : KnowledgeEntry)
    (Hij : (i < j)%nat)
    (H1 : nth_error knowledge i = Some e1)
    (H2 : nth_error knowledge j = Some e2)
    (Hcat : category e1 = category e2)
    (Hbase : getBaseName (title e1) = getBaseName (title e2)) :
  exists g, In g (findDuplicates knowledge) /\
            In e1 (entries g) /\ In e2 (entries g).
Proof.
  pose proof (same_key e1 e2 Hcat Hbase) as K.
  set (k := groupKey e1).
  assert (L : (2 <= length (filter (keyIs k) knowledge))%nat).
  { apply two_pass. exists i, j, e1, e2. repeat split; trivial.
    - apply jseqb_refl.
    - unfold keyIs. rewrite <- K. apply jseqb_refl. }
  exists (mkGroup (nth 1 (splitColons k []) []) (nth 0 (splitColons k []) [])
                  (filter (keyIs k) knowledge)).
  split; [|split].
  - apply group_of_key. exists k. repeat split; [|lia].
    apply in_map. eapply nth_error_In; eassumption.
  - cbn [entries]. apply filter_In. split.
    + eapply nth_error_In; eassumption.
    + apply jseqb_refl.
  - cbn [entries]. apply filter_In. split.
    + eapply nth_error_In; eassumption.
    + unfold keyIs. rewrite <- K. apply jseqb_refl.
Qed.

(** X8.  Two entries at different places of the input that have the same
    category and the same base name are members of one returned group. *)
Theorem findDuplicates_complete (knowledge : list KnowledgeEntry)
    (i j : nat) (e1 e2 : KnowledgeEntry)
    (Hij : (i < j)%nat)
    (H1 : nth_error knowledge i = Some e1)
    (H2 : nth_error knowledge j = Some e2)
    (Hcat : category e1 = category e2)
    (Hbase : getBaseName (title e1) = getBaseName (title e2)) :
  exists g, In g (findDuplicates knowledge) /\
            In e1 (entries g) /\ In e2 (entries g).
Proof.
  exact (findDuplicates_pair knowledge i j e1 e2 Hij H1 H2 Hcat Hbase).
Qed.

Lemma findDuplicates_complete_witness :
  let a1 := entryOf Person "张三" "1" in
  let b1 := entryOf Plot "开端" "2" in
  let a2 := entryOf Person "张三 （2）" "3" in
  exists g, In g (findDuplicates [a1; b1; a2]) /\
            In a1 (entries g) /\ In a2 (entries g).
Proof.
  intros a1 b1 a2.
  apply (findDuplicates_complete [a1; b1; a2] 0 2 a1 a2).
  - repeat constructor.
  - reflexivity.
  - reflexivity.
  - reflexivity.
  - vm_compute. reflexivity.
Defined.

(** X9.  Some group is returned exactly when two entries at different places
    have the same category and the same base name; otherwise the result
    is empty. *)
Theorem findDuplicates_nonempty (knowledge : list KnowledgeEntry) :
  findDuplicates knowledge <> [] <->
  exists i j e1 e2,
    (i < j)%nat /\ nth_error knowledge i = Some e1 /\
    nth_error knowledge j = Some e2 /\
    category e1 = category e2 /\
    getBaseName (title e1) = getBaseName (title e2).
Proof.
  split.
  - intros H. destruct (findDuplicates knowledge) as [|g r] eqn:E;
      [congruence|].
    assert (Hg : In g (findDuplicates knowledge)) by (rewrite E; now left).
    apply group_of_key in Hg as (k & _ & L & _).
    assert (L2 : (2 <= length (filter (keyIs k) knowledge))%nat) by lia.
    apply two_pass in L2 as (i & j & e1 & e2 & Hij & H1 & H2 & K1 & K2).
    exists i, j, e1, e2. repeat split; trivial;
      apply jseqb_eq in K1, K2;
      apply (groupKey_inj e1 e2); congruence.
  - intros (i & j & e1 & e2 & Hij & H1 & H2 & Hc & Hb).
    destruct (findDuplicates_pair knowledge i j e1 e2 Hij H1 H2 Hc Hb)
      as (g & Hg & _).
    intros E. rewrite E in Hg. destruct Hg.
Qed.

(** X10.  No entry is in two groups. *)
Theorem findDuplicates_disjoint (knowledge : list KnowledgeEntry)
    (g1 g2 : DuplicateGroup) (e : KnowledgeEntry) :
  In g1 (findDuplicates knowledge) -> In g2 (findDuplicates knowledge) ->
  In e (entries g1) -> In e (entries g2) -> g1 = g2.
Proof.
  intros H1 H2 E1 E2.
  apply group_of_key in H1 as (k1 & _ & _ & ->).
  apply group_of_key in H2 as (k2 & _ & _ & ->).
  cbn [entries] in *.
  apply filter_In in E1 as [_ K1], E2 as [_ K2].
  apply jseqb_eq in K1, K2. congruence.
Qed.

Lemma findDuplicates_disjoint_witness :
  let a1 := entryOf Person "张三" "1" in
  let b1 := entryOf Plot "开端" "2" in
  let a2 := entryOf Person "张三 （2）" "3" in
  let b2 := entryOf Plot "开端(2)" "4" in
  let found := findDuplicates [a1; b1; a2; b2] in
  nth 0 found (mkGroup [] [] [])
  = mkGroup (js "张三") (js "人物") [a1; a2].
Proof.
  intros a1 b1 a2 b2 found.
  apply (findDuplicates_disjoint [a1; b1; a2; b2]
           (nth 0 found (mkGroup [] [] []))
           (mkGroup (js "张三") (js "人物") [a1; a2]) a1).
  - vm_compute. now left.
  - vm_compute. now left.
  - vm_compute. now left.
  - vm_compute. now left.
Defined.

(** *** The fields of a group *)

Lemma splitColons_category (cat : jsstring) :
  ~ In 58%N cat ->
  forall (b cur : jsstring),
  splitColons (cat ++ COLONS ++ b) cur
  = (rev cur ++ cat) :: splitColons b [].
Proof.
  induction cat as [|c cat IH]; intros Hn b cur.
  - cbn. now rewrite app_nil_r.
  - cbn [app splitColons].
    assert (Hc : (c =? 58)%N = false)
      by (apply N.eqb_neq; intros ->; apply Hn; now left).
    rewrite Hc. cbn [andb].
    destruct (cat ++ COLONS ++ b) as [|c2 s2] eqn:E.
    + destruct cat; discriminate E.
    + rewrite <- E, IH by (intros H; apply Hn; now right).
      cbn [rev]. now rewrite <- app_assoc.
Qed.

Lemma splitColons_whole (s : jsstring) :
  forall cur, includes s COLONS = false ->
  splitColons s cur = [rev cur ++ s].
Proof.
  induction s as [|c s IH]; intros cur H.
  - cbn. now rewrite app_nil_r.
  - cbn [includes] in H. apply orb_false_iff in H as [H1 H2].
    cbn [splitColons]. destruct s as [|c2 s2].
    + reflexivity.
    + cbn [startsWith COLONS] in H1.
      rewrite (N.eqb_sym 58 c), (N.eqb_sym 58 c2) in H1.
      replace ((c =? 58)%N && (c2 =? 58)%N) with false.
      * rewrite IH by exact H2. cbn [rev]. now rewrite <- app_assoc.
      * symmetry. destruct (c =? 58)%N, (c2 =? 58)%N; cbn in *;
          trivial. now destruct s2.
Qed.

Lemma categoryName_no_colon (c : KnowledgeCategory) :
  ~ In 58%N (categoryName c).
Proof.
  destruct c; cbn; intros H;
    repeat (destruct H as [H|H]; [discriminate H|]); exact H.
Qed.

(** X11.  The category shown for a group is the category of its members; the
    base name shown is the base name of its members when that name holds
    no two colons in a row (a name that does is cut at them). *)
Theorem findDuplicates_fields (knowledge : list KnowledgeEntry)
    (g : DuplicateGroup) (e : KnowledgeEntry) :
  In g (findDuplicates knowledge) -> In e (entries g) ->
  groupCategory g = categoryName (category e) /\
  (includes (getBaseName (title e)) COLONS = false ->
   baseName g = getBaseName (title e)).
Proof.
  intros Hg He. apply group_of_key in Hg as (k & _ & _ & ->).
  cbn [entries groupCategory baseName] in *.
  apply filter_In in He as [_ K]. apply jseqb_eq in K. subst k.
  unfold groupKey.
  rewrite (splitColons_category _ (categoryName_no_colon (category e))).
  cbn [rev app nth]. split; [reflexivity|].
  intros H. now rewrite (splitColons_whole _ [] H).
Qed.

Lemma findDuplicates_fields_witness :
  let a1 := entryOf Person "张三" "1" in
  let a2 := entryOf Person "张三 （2）" "3" in
  let g := nth 0 (findDuplicates [a1; a2]) (mkGroup [] [] []) in
  groupCategory g = categoryName (category a1) /\
  baseName g = getBaseName (title a1).
Proof.
  intros a1 a2 g.
  destruct (findDuplicates_fields [a1; a2] g a1) as [H1 H2].
  - vm_compute. now left.
  - vm_compute. now left.
  - split; [exact H1|]. apply H2. vm_compute. reflexivity.
Defined.

End DuplicatesMore.

(* ================================================================== *)
(** * The export module *)
(* ================================================================== *)

Section ExportFacts.
Import ExportDoc.

Example sanitizeFileName_ex :
  sanitizeFileName (js "  my: file/name?  v1.. ") = js "my_ file_name_ v1" /\
  sanitizeFileName (js " ... ") = js "document" /\
  sanitizeFileName (js "a	b") = js "a_b" /\
  sanitizeFileName (js "第一章　　开端.") = js "第一章 开端".
Proof. repeat split; vm_compute; reflexivity. Qed.

Example escapeHtml_ex :
  escapeHtml (js "a<b & 'c' > d") = js "a&lt;b &amp; &#39;c&#39; &gt; d".
Proof. vm_compute. reflexivity. Qed.

Example htmlToPlainText_ex :
  htmlToPlainText (js "<p>第一段<BR />second&nbsp;line</p><div>a &lt;b&gt; &amp;amp;</div><H2>t</H2>")
  = js "第一段
second line

a <b> &amp;
t".
Proof. vm_compute. reflexivity. Qed.

End ExportFacts.

(* ================================================================== *)
(** * Merging all groups: handleMergeAll *)
(* ================================================================== *)

Section MergeAll.
Import Effects.

Variable server : nat -> request -> fetchOutcome.
Variable JSON_parse_object : jsstring -> result (list (jsstring * json)).
Variable CATEGORY_FIELDS : KnowledgeCategory -> option (list Prompt.Field).
Variable createEmptyDetails : jsstring -> list (jsstring * json).
Variable aiSettings : AISettings.
Variable deleteOriginals : bool.

(** The events of one turn of the loop after the selection of the
    group. *)
Lemma handleMerge_events (group : Merge.DuplicateGroup) (tr : list event) :
  apiKey aiSettings <> [] ->
  forallb (hasFields CATEGORY_FIELDS) (Merge.entries group) = true ->
  exists evs,
    handleMerge server JSON_parse_object CATEGORY_FIELDS createEmptyDetails
                aiSettings deleteOriginals group tr = (Ok tt, tr ++ evs) /\
    filter (fun e => isFetch e || isSleep e) evs
      = [EvFetch (mergeRequest aiSettings group)] /\
    filter isStoreOp evs
      = storeOpsOf server JSON_parse_object createEmptyDetails aiSettings
                   deleteOriginals (requestsMade tr) group.
Proof.
  intros Hkey Hfields.
  rewrite (handleMerge_run server JSON_parse_object CATEGORY_FIELDS
             createEmptyDetails aiSettings deleteOriginals group tr
             Hkey Hfields).
  eexists. split; [reflexivity|]. unfold storeOpsOf.
  destruct (replyOf JSON_parse_object _) as [parsed| |e];
    cbn [afterReply]; rewrite !filter_app.
  - split.
    + destruct deleteOriginals; cbn [filter isFetch isSleep orb app];
        rewrite ?filter_map_none by reflexivity; reflexivity.
    + destruct deleteOriginals; cbn [filter isStoreOp app];
        rewrite ?filter_map_all by reflexivity;
        rewrite ?filter_app; cbn [filter isStoreOp app];
        rewrite ?filter_map_all by reflexivity;
        now rewrite ?app_nil_r.
  - split; reflexivity.
  - split; reflexivity.
Qed.

(** X12.  With a key, and fields for the entries of every group, merging all
    groups never throws: one request is made for every group, in the order
    of the list and whatever the earlier replies were, each followed by a
    pause of 2000 ms; what is done to the store is what every group does
    on its own, in turn. *)
Theorem handleMergeAll_paced (duplicates : list Merge.DuplicateGroup) :
  apiKey aiSettings <> [] ->
  Forall (fun g => forallb (hasFields CATEGORY_FIELDS) (Merge.entries g)
                   = true) duplicates ->
  forall (i : Z) (tr : list event),
  exists evs,
    mergeAllFrom server JSON_parse_object CATEGORY_FIELDS createEmptyDetails
                 aiSettings deleteOriginals i duplicates tr
      = (Ok tt, tr ++ evs) /\
    filter (fun e => isFetch e || isSleep e) evs
      = pacedMerges aiSettings duplicates /\
    filter isStoreOp evs
      = flat_map (fun ng => storeOpsOf server JSON_parse_object
                              createEmptyDetails aiSettings deleteOriginals
                              (fst ng) (snd ng))
                 (combine (seq (requestsMade tr) (length duplicates))
                          duplicates).
Proof.
  intros Hkey. induction 1 as [|g rest Hg Hrest IH]; intros i tr.
  - exists []. cbn. now rewrite app_nil_r.
  - cbn [mergeAllFrom]. unfold bind at 1, emit at 1. unfold bind at 1.
    destruct (handleMerge_events g (tr ++ [EvSetSelectedGroup (Some i)])
                Hkey Hg) as (evs1 & E1 & F1 & S1).
    rewrite E1. unfold bind at 1, emit at 1.
    destruct (IH (i + 1)%Z
                (((tr ++ [EvSetSelectedGroup (Some i)]) ++ evs1)
                 ++ [EvSleep 2000])) as (evs2 & E2 & F2 & S2).
    rewrite E2.
    exists ([EvSetSelectedGroup (Some i)] ++ evs1 ++ [EvSleep 2000] ++ evs2).
    assert (R1 : requestsMade (tr ++ [EvSetSelectedGroup (Some i)])
                 = requestsMade tr)
      by (rewrite requestsMade_app; cbn; lia).
    assert (R2 : requestsMade
                   (((tr ++ [EvSetSelectedGroup (Some i)]) ++ evs1)
                    ++ [EvSleep 2000]) = S (requestsMade tr)).
    { rewrite !requestsMade_app. unfold requestsMade at 3.
      assert (K : filter isFetch evs1
                  = [EvFetch (mergeRequest aiSettings g)]).
      { assert (Q : filter isFetch
                      (filter (fun e => isFetch e || isSleep e) evs1)
                    = filter isFetch evs1).
        { clear. induction evs1 as [|e l IHl]; [reflexivity|].
          cbn [filter]. destruct (isFetch e) eqn:Fe; cbn [orb filter].
          - rewrite Fe. now rewrite IHl.
          - destruct (isSleep e); cbn [filter]; rewrite ?Fe; exact IHl. }
        rewrite <- Q, F1. reflexivity. }
      rewrite K. cbn. lia. }
    split; [|split].
    + f_equal. now rewrite <- !app_assoc.
    + rewrite !filter_app, F1, F2. reflexivity.
    + rewrite !filter_app, S1, S2, R1, R2. reflexivity.
Qed.

(** X13.  Without a key merging all groups makes no request and leaves the
    store alone; the error is set once for every group, and the pause of
    2000 ms after every group is still made. *)
Theorem handleMergeAll_no_key (duplicates : list Merge.DuplicateGroup) :
  apiKey aiSettings = [] ->
  forall (i : Z) (tr : list event),
  exists evs,
    mergeAllFrom server JSON_parse_object CATEGORY_FIELDS createEmptyDetails
                 aiSettings deleteOriginals i duplicates tr
      = (Ok tt, tr ++ evs) /\
    filter isFetch evs = [] /\
    filter isStoreOp evs = [] /\
    filter isSetError evs
      = repeat (EvSetError MSG_NO_KEY) (length duplicates) /\
    filter isSleep evs = repeat (EvSleep 2000) (length duplicates).
Proof.
  intros Hkey. induction duplicates as [|g rest IH]; intros i tr.
  - exists []. cbn. now rewrite app_nil_r.
  - cbn [mergeAllFrom]. unfold bind at 1, emit at 1. unfold bind at 1.
    unfold handleMerge. rewrite Hkey. cbn [nonEmpty negb].
    unfold emit at 1. unfold bind at 1, emit at 1.
    destruct (IH (i + 1)%Z
                (((tr ++ [EvSetSelectedGroup (Some i)])
                  ++ [EvSetError MSG_NO_KEY]) ++ [EvSleep 2000]))
      as (evs & E & F & S & Er & Sl).
    rewrite E.
    exists ([EvSetSelectedGroup (Some i); EvSetError MSG_NO_KEY;
             EvSleep 2000] ++ evs).
    repeat split.
    + f_equal. now rewrite <- !app_assoc.
    + rewrite filter_app, F. reflexivity.
    + rewrite filter_app, S. reflexivity.
    + rewrite filter_app, Er. reflexivity.
    + rewrite filter_app, Sl. reflexivity.
Qed.

End MergeAll.

Section MergeAllExamples.
Import Effects.

Lemma handleMergeAll_paced_witness :
  let g1 := Merge.mkGroup (js "张三") (js "人物")
              [entryOf Person "张三" "1"; entryOf Person "张三 (2)" "2"] in
  let g2 := Merge.mkGroup (js "开端") (js "剧情")
              [entryOf Plot "开端" "3"; entryOf Plot "开端(2)" "4"] in
  exists evs,
    handleMergeAll (always (mkResponse 500 (JsonOk errorBody))) parseNothing
                   Prompt.sampleFields (fun _ => []) sampleSettings true
                   [g1; g2] [] = (Ok tt, evs) /\
    filter (fun e => isFetch e || isSleep e) evs
      = pacedMerges sampleSettings [g1; g2].
Proof.
  intros g1 g2.
  destruct (handleMergeAll_paced
              (always (mkResponse 500 (JsonOk errorBody))) parseNothing
              Prompt.sampleFields (fun _ => []) sampleSettings true
              [g1; g2]) with (i := 0%Z) (tr := @nil event)
    as (evs & E & F & _).
  - discriminate.
  - repeat constructor.
  - exists evs. split; [exact E | exact F].
Defined.

Lemma handleMergeAll_no_key_witness :
  let g1 := Merge.mkGroup (js "张三") (js "人物")
              [entryOf Person "张三" "1"; entryOf Person "张三 (2)" "2"] in
  exists evs,
    handleMergeAll (always (mkResponse 200 (JsonOk errorBody))) parseNothing
                   Prompt.sampleFields (fun _ => [])
                   (mkSettings [] [] [] []) true [g1; g1] []
      = (Ok tt, evs) /\
    filter isFetch evs = [] /\ filter isStoreOp evs = [].
Proof.
  intros g1.
  destruct (handleMergeAll_no_key
              (always (mkResponse 200 (JsonOk errorBody))) parseNothing
              Prompt.sampleFields (fun _ => []) (mkSettings [] [] [] [])
              true [g1; g1] eq_refl 0%Z (@nil event))
    as (evs & E & F & S & _).
  exists evs. repeat split; assumption.
Defined.

End MergeAllExamples.

(* ================================================================== *)
(** * The export module: file names and HTML *)
(* ================================================================== *)

Section ExportNames.
Import ExportDoc.

(** ** The steps of sanitizeFileName *)

Lemma replaceIllegal_legal (s : jsstring) :
  existsb isIllegal (replaceIllegal s) = false.
Proof.
  induction s as [|c s IH]; [reflexivity|].
  cbn [replaceIllegal map existsb]. fold (replaceIllegal s). rewrite IH.
  destruct (isIllegal c) eqn:E; [reflexivity | now rewrite E].
Qed.

Lemma replaceIllegal_id (s : jsstring) :
  existsb isIllegal s = false -> replaceIllegal s = s.
Proof.
  induction s as [|c s IH]; [reflexivity|].
  cbn [existsb replaceIllegal map]. intros H.
  apply orb_false_iff in H as [Hc Hs]. rewrite Hc.
  fold (replaceIllegal s). now rewrite IH.
Qed.

Lemma collapseFrom_legal (s : jsstring) :
  forall inRun : bool,
  existsb isIllegal s = false ->
  existsb isIllegal (collapseFrom s inRun) = false.
Proof.
  induction s as [|c s IH]; intros inRun H; [reflexivity|].
  cbn [existsb] in H. apply orb_false_iff in H as [Hc Hs].
  cbn [collapseFrom].
  destruct (isWhiteSpace c), inRun; cbn [existsb];
    rewrite ?Hc, ?IH; auto.
Qed.

Lemma existsb_false_app (p : N -> bool) (x w : jsstring) :
  existsb p (x ++ w) = false -> existsb p x = false.
Proof. rewrite existsb_app. intros H. now apply orb_false_iff in H. Qed.

Lemma existsb_false_dropWhile (p q : N -> bool) (s : jsstring) :
  existsb p s = false -> existsb p (dropWhile q s) = false.
Proof.
  induction s as [|c s IH]; [reflexivity|]. intros H.
  cbn [dropWhile]. destruct (q c); [|exact H].
  cbn [existsb] in H. apply orb_false_iff in H as [_ H]. now apply IH.
Qed.

Lemma stripTrailing_prefix (s : jsstring) :
  exists w, s = stripTrailing s ++ w /\ forallb isDotOrSpace w = true.
Proof.
  induction s as [|c s (w & E & F)]; [now exists []|].
  cbn [stripTrailing]. destruct (forallb isDotOrSpace (c :: s)) eqn:A.
  - now exists (c :: s).
  - exists w. split; [cbn; now rewrite <- E | exact F].
Qed.

(** What [stripTrailing] returns does not end in a dot or a space. *)
Lemma stripTrailing_last (s : jsstring) :
  stripTrailing s = [] \/
  exists r c, stripTrailing s = r ++ [c] /\ isDotOrSpace c = false.
Proof.
  induction s as [|c s IH]; [now left|].
  cbn [stripTrailing]. destruct (forallb isDotOrSpace (c :: s)) eqn:A;
    [now left|]. right.
  destruct IH as [E|(r & d & E & Hd)].
  - rewrite E. exists [], c. split; [reflexivity|].
    cbn [forallb] in A. apply andb_false_iff in A as [A|A]; [exact A|].
    destruct (stripTrailing_prefix s) as (w & Ew & Fw).
    rewrite E in Ew. cbn in Ew. subst w. congruence.
  - exists (c :: r), d. split; [cbn; now rewrite E | exact Hd].
Qed.

Lemma stripTrailing_id (r : jsstring) (c : N) :
  isDotOrSpace c = false -> stripTrailing (r ++ [c]) = r ++ [c].
Proof.
  intros Hc. induction r as [|x r IH].
  - cbn. now rewrite Hc.
  - cbn [app stripTrailing]. rewrite IH.
    replace (forallb isDotOrSpace (x :: r ++ [c])) with false;
      [reflexivity|].
    symmetry. change (x :: r ++ [c]) with ((x :: r) ++ [c]).
    rewrite forallb_app. cbn. rewrite Hc. apply andb_false_r.
Qed.

Lemma trimEnd_id (r : jsstring) (c : N) :
  isWhiteSpace c = false -> trimEnd (r ++ [c]) = r ++ [c].
Proof.
  intros Hc. induction r as [|x r IH].
  - cbn. now rewrite Hc.
  - cbn [app trimEnd]. rewrite IH.
    replace (forallb isWhiteSpace (x :: r ++ [c])) with false;
      [reflexivity|].
    symmetry. change (x :: r ++ [c]) with ((x :: r) ++ [c]).
    rewrite forallb_app. cbn. rewrite Hc. apply andb_false_r.
Qed.

(** *** Texts that [collapseSpaces] leaves as they are *)

Lemma collapseFrom_true_head (s : jsstring) (c : N) (r : jsstring) :
  collapseFrom s true = c :: r -> isWhiteSpace c = false.
Proof.
  induction s as [|x s IH]; [discriminate|].
  cbn [collapseFrom]. destruct (isWhiteSpace x) eqn:E; [exact IH|].
  intros H. injection H as <- _. exact E.
Qed.

Lemma collapseFrom_idem (s : jsstring) :
  forall inRun : bool,
  collapseFrom (collapseFrom s inRun) inRun = collapseFrom s inRun.
Proof.
  induction s as [|c s IH]; intros inRun; [reflexivity|].
  cbn [collapseFrom]. destruct (isWhiteSpace c) eqn:E.
  - destruct inRun; [apply IH|].
    cbn [collapseFrom]. change (isWhiteSpace SPACE) with true.
    cbn match. now rewrite IH.
  - cbn [collapseFrom]. rewrite E. now rewrite IH.
Qed.

Lemma collapseFrom_fixed_prefix (x w : jsstring) :
  forall inRun : bool,
  collapseFrom (x ++ w) inRun = x ++ w -> collapseFrom x inRun = x.
Proof.
  induction x as [|c x IH]; intros inRun H; [reflexivity|].
  cbn [app collapseFrom] in *. destruct (isWhiteSpace c) eqn:E.
  - destruct inRun.
    + apply collapseFrom_true_head in H. congruence.
    + injection H as <- H. now rewrite (IH true H).
  - injection H as H. now rewrite (IH false H).
Qed.

Lemma collapseFrom_fixed_tail (c : N) (s : jsstring) :
  collapseFrom (c :: s) false = c :: s -> collapseFrom s false = s.
Proof.
  cbn [collapseFrom]. destruct (isWhiteSpace c).
  - intros H. injection H as _ H. destruct s as [|d s]; [reflexivity|].
    pose proof (collapseFrom_true_head _ _ _ H) as Hd.
    cbn [collapseFrom] in *. now rewrite Hd in *.
  - intros H. now injection H.
Qed.

Lemma collapseFrom_fixed_dropWhile (p : N -> bool) (s : jsstring) :
  collapseFrom s false = s ->
  collapseFrom (dropWhile p s) false = dropWhile p s.
Proof.
  induction s as [|c s IH]; [reflexivity|]. intros H.
  cbn [dropWhile]. destruct (p c); [|exact H].
  apply IH. now apply collapseFrom_fixed_tail in H.
Qed.

(** In such a text the only white space is the space. *)
Lemma collapseFrom_fixed_space (s : jsstring) :
  forall (inRun : bool) (c : N),
  collapseFrom s inRun = s -> In c s -> isWhiteSpace c = true ->
  c = SPACE.
Proof.
  induction s as [|x s IH]; intros inRun c H Hin Hc; [destruct Hin|].
  cbn [collapseFrom] in H. destruct (isWhiteSpace x) eqn:E.
  - destruct inRun.
    + apply collapseFrom_true_head in H. congruence.
    + injection H as Hx H. destruct Hin as [<-|Hin]; [now symmetry|].
      now apply (IH true c).
  - injection H as H. destruct Hin as [<-|Hin]; [congruence|].
    now apply (IH false c).
Qed.

(** ** sanitizeFileName *)

Lemma cleaned_prefix (name : jsstring) :
  exists w,
    trimStart (collapseSpaces (replaceIllegal name)) = cleaned name ++ w.
Proof.
  unfold cleaned.
  set (b := collapseSpaces (replaceIllegal name)).
  destruct (trimEnd_prefix (trimStart b)) as (w1 & E1).
  fold (trim b) in E1.
  destruct (stripTrailing_prefix (trim b)) as (w2 & E2 & _).
  exists (w2 ++ w1). rewrite app_assoc, <- E2. exact E1.
Qed.

Lemma cleaned_legal (name : jsstring) :
  existsb isIllegal (cleaned name) = false.
Proof.
  destruct (cleaned_prefix name) as (w & E).
  apply (existsb_false_app _ _ w). rewrite <- E.
  apply existsb_false_dropWhile, collapseFrom_legal, replaceIllegal_legal.
Qed.

Lemma cleaned_collapsed (name : jsstring) :
  collapseSpaces (cleaned name) = cleaned name.
Proof.
  destruct (cleaned_prefix name) as (w & E).
  apply (collapseFrom_fixed_prefix _ w). rewrite <- E.
  apply collapseFrom_fixed_dropWhile, collapseFrom_idem.
Qed.

Lemma cleaned_head (name : jsstring) (c : N) (r : jsstring) :
  cleaned name = c :: r -> isWhiteSpace c = false.
Proof.
  intros H. destruct (cleaned_prefix name) as (w & E).
  rewrite H in E. now apply dropWhile_head in E.
Qed.

Lemma cleaned_last (name r : jsstring) (c : N) :
  cleaned name = r ++ [c] ->
  isWhiteSpace c = false /\ isDotOrSpace c = false.
Proof.
  intros H.
  assert (Hd : isDotOrSpace c = false).
  { unfold cleaned in H.
    destruct (stripTrailing_last
                (trim (collapseSpaces (replaceIllegal name))))
      as [E|(r' & c' & E & Hc)]; rewrite E in H.
    - now destruct r.
    - apply app_inj_tail in H as [_ ->]. exact Hc. }
  split; [|exact Hd].
  destruct (isWhiteSpace c) eqn:W; [|reflexivity].
  assert (c = SPACE).
  { apply (collapseFrom_fixed_space (cleaned name) false c); trivial.
    - apply cleaned_collapsed.
    - rewrite H. apply in_or_app. right. now left. }
  subst c. discriminate.
Qed.

(** The later steps leave [cleaned] as it is. *)
Lemma cleaned_fixed (name : jsstring) :
  trim (cleaned name) = cleaned name /\
  stripTrailing (cleaned name) = cleaned name.
Proof.
  destruct (cleaned name) as [|x s] eqn:E; [now split|].
  destruct (@exists_last _ (x :: s)) as (r & c & L); [discriminate|].
  rewrite L in E. destruct (cleaned_last name r c E) as (W & D).
  rewrite L. split; [|now apply stripTrailing_id].
  unfold trim, trimStart.
  replace (dropWhile isWhiteSpace (r ++ [c])) with (r ++ [c]);
    [now apply trimEnd_id|].
  rewrite <- L. cbn [dropWhile].
  rewrite <- L in E. now rewrite (cleaned_head name x s E).
Qed.

Lemma sanitizeFileName_cases (name : jsstring) :
  cleaned name = [] /\ sanitizeFileName name = DOCUMENT \/
  cleaned name <> [] /\ sanitizeFileName name = cleaned name.
Proof.
  unfold sanitizeFileName. destruct (cleaned name); [left | right];
    split; try reflexivity; discriminate.
Qed.

(** X18.  The name of the file is never empty. *)
Theorem sanitizeFileName_nonempty (name : jsstring) :
  sanitizeFileName name <> [].
Proof.
  destruct (sanitizeFileName_cases name) as [(_ & ->)|(H & ->)];
    [discriminate | exact H].
Qed.

(** X19.  The name of the file holds none of the characters that the first
    replacement removes. *)
Theorem sanitizeFileName_legal (name : jsstring) :
  existsb isIllegal (sanitizeFileName name) = false.
Proof.
  destruct (sanitizeFileName_cases name) as [(_ & ->)|(_ & ->)];
    [reflexivity | apply cleaned_legal].
Qed.

(** X20.  The name of the file starts with a character that is not white space
    and ends with one that is neither white space nor a dot. *)
Theorem sanitizeFileName_ends (name : jsstring) :
  (exists c r, sanitizeFileName name = c :: r /\ isWhiteSpace c = false) /\
  (exists r c, sanitizeFileName name = r ++ [c] /\
               isWhiteSpace c = false /\ isDotOrSpace c = false).
Proof.
  destruct (sanitizeFileName_cases name) as [(_ & ->)|(H & ->)].
  - split.
    + exists 100%N, (skipn 1 DOCUMENT). now split.
    + exists (firstn 7 DOCUMENT), 116%N. now repeat split.
  - destruct (cleaned name) as [|x s] eqn:E; [contradiction|]. split.
    + exists x, s. split; [reflexivity|]. apply (cleaned_head name x s E).
    + destruct (@exists_last _ (x :: s)) as (r & c & L); [discriminate|].
      exists r, c. split; [exact L|].
      rewrite L in E. apply (cleaned_last name r c E).
Qed.

(** X21.  Cleaning a name that is clean changes nothing. *)
Theorem sanitizeFileName_idem (name : jsstring) :
  sanitizeFileName (sanitizeFileName name) = sanitizeFileName name.
Proof.
  destruct (sanitizeFileName_cases name) as [(_ & ->)|(H & ->)].
  - vm_compute. reflexivity.
  - destruct (cleaned_fixed name) as (T & S).
    assert (E : cleaned (cleaned name) = cleaned name).
    { unfold cleaned at 1.
      rewrite (replaceIllegal_id _ (cleaned_legal name)).
      now rewrite cleaned_collapsed, T, S. }
    unfold sanitizeFileName. rewrite E.
    destruct (cleaned name); [contradiction | reflexivity].
Qed.

End ExportNames.

(** ** escapeHtml *)

Section ExportHtml.
Import ExportDoc.

Lemma replaceChar_app (c : N) (rep a b : jsstring) :
  replaceChar c rep (a ++ b) = replaceChar c rep a ++ replaceChar c rep b.
Proof. apply flat_map_app. Qed.

Lemma escapeHtml_app (a b : jsstring) :
  escapeHtml (a ++ b) = escapeHtml a ++ escapeHtml b.
Proof. unfold escapeHtml. now rewrite !replaceChar_app. Qed.

Lemma escapeHtml_char (c : N) : escapeHtml [c] = entityOf c.
Proof.
  unfold entityOf.
  destruct (c =? 38)%N eqn:E1;
    [apply N.eqb_eq in E1; subst c; vm_compute; reflexivity|].
  destruct (c =? 60)%N eqn:E2;
    [apply N.eqb_eq in E2; subst c; vm_compute; reflexivity|].
  destruct (c =? 62)%N eqn:E3;
    [apply N.eqb_eq in E3; subst c; vm_compute; reflexivity|].
  destruct (c =? 34)%N eqn:E4;
    [apply N.eqb_eq in E4; subst c; vm_compute; reflexivity|].
  destruct (c =? 39)%N eqn:E5;
    [apply N.eqb_eq in E5; subst c; vm_compute; reflexivity|].
  unfold escapeHtml, replaceChar. cbn [flat_map app].
  rewrite E1. cbn [flat_map app]. rewrite E2. cbn [flat_map app].
  rewrite E3. cbn [flat_map app]. rewrite E4. cbn [flat_map app].
  now rewrite E5.
Qed.

Lemma escapeHtml_flat_map (text : jsstring) :
  escapeHtml text = flat_map entityOf text.
Proof.
  induction text as [|c text IH]; [reflexivity|].
  change (c :: text) with ([c] ++ text).
  rewrite escapeHtml_app, escapeHtml_char, IH. reflexivity.
Qed.

(** X22.  The five replacements in a row amount to one pass that writes every
    character as its entity: the ampersands that the later replacements
    write are not escaped again, for the ampersand is replaced first. *)
Theorem escapeHtml_entities (text : jsstring) :
  escapeHtml text = flat_map entityOf text.
Proof. exact (escapeHtml_flat_map text). Qed.

Lemma entityOf_safe (c : N) : existsb isMarkupChar (entityOf c) = false.
Proof.
  unfold entityOf.
  destruct (c =? 38)%N eqn:E1; [reflexivity|].
  destruct (c =? 60)%N eqn:E2; [reflexivity|].
  destruct (c =? 62)%N eqn:E3; [reflexivity|].
  destruct (c =? 34)%N eqn:E4; [reflexivity|].
  destruct (c =? 39)%N eqn:E5; [reflexivity|].
  cbn [existsb]. unfold isMarkupChar. now rewrite E2, E3, E4, E5.
Qed.

(** X23.  The escaped text holds no angle bracket and no quote. *)
Theorem escapeHtml_safe (text : jsstring) :
  existsb isMarkupChar (escapeHtml text) = false.
Proof.
  rewrite escapeHtml_flat_map.
  induction text as [|c text IH]; [reflexivity|].
  cbn [flat_map]. now rewrite existsb_app, entityOf_safe, IH.
Qed.

Lemma entityOf_inj (x y : N) (a b : jsstring) :
  entityOf x ++ a = entityOf y ++ b -> x = y /\ a = b.
Proof.
  unfold entityOf.
  destruct (x =? 38)%N eqn:X1; [apply N.eqb_eq in X1|];
  [|destruct (x =? 60)%N eqn:X2; [apply N.eqb_eq in X2|]];
  [| |destruct (x =? 62)%N eqn:X3; [apply N.eqb_eq in X3|]];
  [| | |destruct (x =? 34)%N eqn:X4; [apply N.eqb_eq in X4|]];
  [| | | |destruct (x =? 39)%N eqn:X5; [apply N.eqb_eq in X5|]];
  (destruct (y =? 38)%N eqn:Y1; [apply N.eqb_eq in Y1|];
   [|destruct (y =? 60)%N eqn:Y2; [apply N.eqb_eq in Y2|]];
   [| |destruct (y =? 62)%N eqn:Y3; [apply N.eqb_eq in Y3|]];
   [| | |destruct (y =? 34)%N eqn:Y4; [apply N.eqb_eq in Y4|]];
   [| | | |destruct (y =? 39)%N eqn:Y5; [apply N.eqb_eq in Y5|]]);
  cbn; intros H; try discriminate H;
  try (injection H; intros; subst; split; (reflexivity || discriminate));
  try (injection H; intros; subst; discriminate).
Qed.

(** X24.  Escaping loses nothing: two texts with the same escaped form are the
    same text. *)
Theorem escapeHtml_injective (a b : jsstring) :
  escapeHtml a = escapeHtml b -> a = b.
Proof.
  rewrite !escapeHtml_flat_map. revert b.
  induction a as [|x a IH]; intros [|y b] H.
  - reflexivity.
  - exfalso. cbn [flat_map] in H.
    generalize (entityOf_inj y y (flat_map entityOf b)
                  (flat_map entityOf b) eq_refl).
    destruct (entityOf y) eqn:E; [|discriminate].
    unfold entityOf in E.
    repeat match type of E with
           | (if ?c then _ else _) = _ => destruct c
           end; discriminate.
  - exfalso. cbn [flat_map] in H.
    destruct (entityOf x) eqn:E; [|discriminate].
    unfold entityOf in E.
    repeat match type of E with
           | (if ?c then _ else _) = _ => destruct c
           end; discriminate.
  - cbn [flat_map] in H. apply entityOf_inj in H as [-> H].
    f_equal. now apply IH.
Qed.

Lemma escapeHtml_injective_witness :
  escapeHtml (js "a<b") = escapeHtml (js "a<b") /\ js "a<b" = js "a<b".
Proof.
  split; [reflexivity|].
  apply (escapeHtml_injective (js "a<b") (js "a<b")). reflexivity.
Defined.

End ExportHtml.

(** ** htmlToPlainText and the removal of tags *)

Section ExportText.
Import ExportDoc.
Import Effects.

Lemma stripTagsFrom_no_close (s : jsstring) :
  existsb (N.eqb 62) s = false -> stripTagsFrom s false = s.
Proof.
  induction s as [|c s IH]; [reflexivity|]. cbn [existsb stripTagsFrom].
  intros H. apply orb_false_iff in H as [_ H].
  rewrite H, andb_false_r. now rewrite IH.
Qed.

(** X25.  What is left when the tags are removed holds no tag: removing the
    tags again changes nothing. *)
Theorem stripTagsFrom_idem (s : jsstring) (inTag : bool) :
  stripTagsFrom (stripTagsFrom s inTag) false = stripTagsFrom s inTag.
Proof.
  revert inTag. induction s as [|c s IH]; intros inTag; [reflexivity|].
  cbn [stripTagsFrom]. destruct inTag; [apply IH|].
  destruct ((c =? 60)%N && existsb (N.eqb 62) s) eqn:E; [apply IH|].
  cbn [stripTagsFrom]. rewrite IH.
  replace ((c =? 60)%N && existsb (N.eqb 62) (stripTagsFrom s false))
    with false; [reflexivity|].
  symmetry. apply andb_false_iff in E as [E|E].
  - now rewrite E.
  - rewrite (stripTagsFrom_no_close s E), E. apply andb_false_r.
Qed.

Lemma stripTagsFrom_no_open (s : jsstring) :
  existsb (N.eqb 60) s = false -> stripTagsFrom s false = s.
Proof.
  induction s as [|c s IH]; [reflexivity|]. cbn [existsb stripTagsFrom].
  intros H. apply orb_false_iff in H as [Hc H].
  rewrite N.eqb_sym, Hc. cbn [andb]. now rewrite IH.
Qed.

Lemma replaceAllFrom_id (matchLen : jsstring -> option nat)
    (rep s : jsstring) :
  (forall c t, In c s -> matchLen (c :: t) = None) ->
  replaceAllFrom matchLen rep s O = s.
Proof.
  induction s as [|c s IH]; [reflexivity|]. intros H.
  cbn [replaceAllFrom]. rewrite (H c s) by now left.
  rewrite IH; [reflexivity|]. intros d t Hd. apply H. now right.
Qed.

Ltac eval_js :=
  repeat match goal with
         | |- context [js ?s] =>
           let v := eval vm_compute in (js s) in change (js s) with v
         end.

(** A pattern that starts with a character that is no letter can only
    match a text that starts with that character. *)
Lemma startsWithCI_head (c x : N) (t w : jsstring) :
  (x < 97)%N -> c <> x -> Segment.startsWithCI (c :: t) (x :: w) = false.
Proof.
  intros Hx Hc. cbn [Segment.startsWithCI].
  apply andb_false_iff. left. apply N.eqb_neq.
  destruct ((65 <=? c)%N && (c <=? 90)%N) eqn:E; [|exact Hc].
  apply andb_true_iff in E as [E _]. apply N.leb_le in E. lia.
Qed.

Lemma startsWith_head (c x : N) (t w : jsstring) :
  c <> x -> startsWith (c :: t) (x :: w) = false.
Proof.
  intros Hc. cbn [startsWith]. apply andb_false_iff. left.
  apply N.eqb_neq. congruence.
Qed.

(** X26.  A text without an opening angle bracket and without an ampersand is
    only trimmed. *)
Theorem htmlToPlainText_plain (text : jsstring) :
  existsb (fun c => (c =? 60) || (c =? 38))%N text = false ->
  htmlToPlainText text = trim text.
Proof.
  intros H.
  assert (Hc : forall c, In c text -> c <> 60%N /\ c <> 38%N).
  { intros c Hin. destruct (existsb_exists
      (fun c => (c =? 60) || (c =? 38))%N text) as [_ K].
    split; intros ->; (rewrite K in H; [discriminate|]);
      eexists; (split; [exact Hin | reflexivity]). }
  assert (Ho : existsb (N.eqb 60) text = false).
  { destruct (existsb (N.eqb 60) text) eqn:E; [|reflexivity].
    apply existsb_exists in E as (c & Hin & E).
    apply N.eqb_eq in E. subst c. now destruct (Hc _ Hin). }
  unfold htmlToPlainText, replaceAll.
  rewrite (replaceAllFrom_id matchBr).
  2:{ intros c t Hin. unfold matchBr. eval_js.
      rewrite startsWithCI_head; [reflexivity | lia | apply Hc, Hin]. }
  rewrite (replaceAllFrom_id (literalCI (js "</p>"))).
  2:{ intros c t Hin. unfold literalCI. eval_js.
      rewrite startsWithCI_head; [reflexivity | lia | apply Hc, Hin]. }
  rewrite (replaceAllFrom_id (literalCI (js "</div>"))).
  2:{ intros c t Hin. unfold literalCI. eval_js.
      rewrite startsWithCI_head; [reflexivity | lia | apply Hc, Hin]. }
  rewrite (replaceAllFrom_id matchHeadingEnd).
  2:{ intros c t Hin. unfold matchHeadingEnd. eval_js.
      rewrite startsWithCI_head; [reflexivity | lia | apply Hc, Hin]. }
  rewrite (stripTagsFrom_no_open text Ho).
  rewrite (replaceAllFrom_id (literal (js "&nbsp;"))).
  2:{ intros c t Hin. unfold literal. eval_js.
      rewrite startsWith_head; [reflexivity | apply Hc, Hin]. }
  rewrite (replaceAllFrom_id (literal (js "&lt;"))).
  2:{ intros c t Hin. unfold literal. eval_js.
      rewrite startsWith_head; [reflexivity | apply Hc, Hin]. }
  rewrite (replaceAllFrom_id (literal (js "&gt;"))).
  2:{ intros c t Hin. unfold literal. eval_js.
      rewrite startsWith_head; [reflexivity | apply Hc, Hin]. }
  rewrite (replaceAllFrom_id (literal (js "&amp;"))).
  2:{ intros c t Hin. unfold literal. eval_js.
      rewrite startsWith_head; [reflexivity | apply Hc, Hin]. }
  reflexivity.
Qed.

Lemma htmlToPlainText_plain_witness :
  htmlToPlainText (js "  第一章 > 开端  ") = js "第一章 > 开端".
Proof.
  rewrite (htmlToPlainText_plain (js "  第一章 > 开端  "));
    vm_compute; reflexivity.
Defined.

End ExportText.

(* ================================================================== *)
(** * The items of an import: mergedResults *)
(* ================================================================== *)

Section ImportMergeFacts.
Import ImportMerge.

Lemma sameItem_key (a b : ExtractedItem) :
  sameItem a b = true <-> itemKey a = itemKey b.
Proof.
  unfold sameItem, itemKey. rewrite andb_true_iff, !jseqb_eq.
  split; [intros [-> ->]; reflexivity | intros H; now injection H].
Qed.

Lemma sameItem_key_false (a b : ExtractedItem) :
  sameItem a b = false <-> itemKey a <> itemKey b.
Proof.
  rewrite <- sameItem_key. now destruct (sameItem a b).
Qed.

(** The callback either adds the item at the end, when no item of the
    list has its title and category, or updates the first that has. *)
Lemma mergeItem_cases (acc : list ExtractedItem) (item : ExtractedItem) :
  (forall a, In a acc -> sameItem a item = false) /\
  mergeItem acc item = acc ++ [item]
  \/
  exists pre a post,
    acc = pre ++ a :: post /\
    (forall b, In b pre -> sameItem b item = false) /\
    sameItem a item = true /\
    mergeItem acc item = pre ++ absorb a item :: post.
Proof.
  induction acc as [|x acc IH].
  - left. split; [intros a []|reflexivity].
  - cbn [mergeItem]. destruct (sameItem x item) eqn:E.
    + right. exists [], x, acc. repeat split; trivial. intros b [].
    + destruct IH as [(H & ->)|(pre & a & post & -> & Hpre & Ha & ->)].
      * left. split; [|reflexivity].
        intros a [<-|Ha]; [exact E | now apply H].
      * right. exists (x :: pre), a, post. repeat split; trivial.
        intros b [<-|Hb]; [exact E | now apply Hpre].
Qed.

Lemma mergedResults_snoc (results : list ExtractedItem)
    (item : ExtractedItem) :
  mergedResults (results ++ [item])
  = mergeItem (mergedResults results) item.
Proof. unfold mergedResults. now rewrite fold_left_app. Qed.

Lemma join_snoc (sep : jsstring) (parts : list jsstring) (p : jsstring) :
  parts <> [] -> join sep (parts ++ [p]) = join sep parts ++ sep ++ p.
Proof.
  induction parts as [|x parts IH]; [contradiction|]. intros _.
  destruct parts as [|y parts]; [reflexivity|].
  assert (E : join sep ((y :: parts) ++ [p])
              = join sep (y :: parts) ++ sep ++ p)
    by (apply IH; discriminate).
  change (join sep ((x :: y :: parts) ++ [p]))
    with (x ++ sep ++ join sep ((y :: parts) ++ [p])).
  rewrite E.
  change (join sep (x :: y :: parts))
    with (x ++ sep ++ join sep (y :: parts)).
  now rewrite <- !app_assoc.
Qed.

(** The invariant of the reduction: the keys of the merged items are
    distinct; every item read has a merged item with its key; the content
    of a merged item is made of the contents of the items read with its
    key, in their order, separated by blank lines. *)
Lemma mergedResults_invariant (results : list ExtractedItem) :
  NoDup (map itemKey (mergedResults results)) /\
  (forall r, In r results ->
     exists m, In m (mergedResults results) /\ itemKey m = itemKey r) /\
  (forall m, In m (mergedResults results) ->
     filter (sameItem m) results <> [] /\
     itemContent m
     = join [NL; NL] (map itemContent (filter (sameItem m) results))).
Proof.
  induction results as [|x results (ND & Hall & Hcont)] using rev_ind.
  - split; [constructor | split; intros ? []].
  - rewrite mergedResults_snoc.
    destruct (mergeItem_cases (mergedResults results) x)
      as [(Hnew & ->)|(pre & a & post & E & Hpre & Ha & ->)].
    + (* a new key *)
      assert (Hx : filter (sameItem x) results = []).
      { destruct (filter (sameItem x) results) as [|r l] eqn:F;
          [reflexivity|]. exfalso.
        assert (Hr : In r (filter (sameItem x) results))
          by (rewrite F; now left).
        apply filter_In in Hr as (Hr & S).
        destruct (Hall r Hr) as (m & Hm & K).
        apply Hnew in Hm. apply sameItem_key_false in Hm.
        apply sameItem_key in S. congruence. }
      assert (Hxx : sameItem x x = true) by now apply sameItem_key.
      split; [|split].
      * rewrite map_app. cbn [map].
        apply NoDup_app; trivial; [repeat constructor; intros [] | ].
        intros k Hk [<-|[]]. apply in_map_iff in Hk as (m & K & Hm).
        apply Hnew in Hm. apply sameItem_key_false in Hm. congruence.
      * intros r Hr. apply in_app_iff in Hr as [Hr|[<-|[]]].
        -- destruct (Hall r Hr) as (m & Hm & K). exists m.
           split; [apply in_or_app; now left | exact K].
        -- exists x. split; [apply in_or_app; right; now left|reflexivity].
      * intros m Hm. rewrite filter_app. cbn [filter].
        apply in_app_iff in Hm as [Hm|[<-|[]]].
        -- rewrite (Hnew m Hm), app_nil_r. apply (Hcont m Hm).
        -- rewrite Hx, Hxx. split; [discriminate | reflexivity].
    + (* the key of a merged item *)
      assert (Ka : itemKey (absorb a x) = itemKey a) by reflexivity.
      assert (Kmap : map itemKey (pre ++ absorb a x :: post)
                     = map itemKey (mergedResults results)).
      { rewrite E, !map_app. cbn [map]. now rewrite Ka. }
      assert (Sab : forall r, sameItem (absorb a x) r = sameItem a r)
        by reflexivity.
      assert (Hother : forall m, In m pre \/ In m post ->
                                 sameItem m x = false).
      { intros m [Hm|Hm]; [now apply Hpre|].
        apply sameItem_key_false. apply sameItem_key in Ha.
        rewrite <- Ha. rewrite E, map_app in ND. cbn [map] in ND.
        apply NoDup_remove_2 in ND. intros K. apply ND.
        apply in_or_app. right. rewrite <- K. now apply in_map. }
      assert (Hin : forall m, In m pre \/ m = a \/ In m post ->
                              In m (mergedResults results)).
      { intros m H. rewrite E. apply in_or_app.
        destruct H as [H|[->|H]]; [now left | right; now left
                                   | right; now right]. }
      split; [|split].
      * now rewrite Kmap.
      * intros r Hr. apply in_app_iff in Hr as [Hr|[<-|[]]].
        -- destruct (Hall r Hr) as (m & Hm & K).
           rewrite E in Hm. apply in_app_iff in Hm as [Hm|[<-|Hm]].
           ++ exists m. split; [apply in_or_app; now left | exact K].
           ++ exists (absorb a x). split; [|now rewrite Ka].
              apply in_or_app. right. now left.
           ++ exists m. split; [|exact K].
              apply in_or_app. right. now right.
        -- exists (absorb a x).
           split; [|rewrite Ka; now apply sameItem_key].
           apply in_or_app. right. now left.
      * intros m Hm. rewrite filter_app. cbn [filter].
        apply in_app_iff in Hm as [Hm|[<-|Hm]].
        -- rewrite (Hother m (or_introl Hm)), app_nil_r.
           apply (Hcont m), Hin. now left.
        -- rewrite Sab, Ha.
           destruct (Hcont a) as (N0 & C); [apply Hin; right; now left|].
           rewrite (filter_ext (sameItem (absorb a x)) (sameItem a) Sab).
           split; [intros Z; now apply app_eq_nil in Z as [_ Z]|].
           rewrite map_app. cbn [map]. rewrite join_snoc.
           ++ cbn [absorb itemContent]. now rewrite C.
           ++ intros Z. apply map_eq_nil in Z. contradiction.
        -- rewrite (Hother m (or_intror Hm)), app_nil_r.
           apply (Hcont m), Hin. right. now right.
Qed.

(** X27.  No two of the merged items have the same title and category. *)
Theorem mergedResults_keys_distinct (results : list ExtractedItem) :
  NoDup (map itemKey (mergedResults results)).
Proof. apply mergedResults_invariant. Qed.

(** X28.  The titles and categories of the merged items are those of the items
    read. *)
Theorem mergedResults_keys (results : list ExtractedItem)
    (k : jsstring * jsstring) :
  In k (map itemKey (mergedResults results)) <->
  In k (map itemKey results).
Proof.
  destruct (mergedResults_invariant results) as (_ & Hall & Hcont).
  rewrite !in_map_iff. split.
  - intros (m & <- & Hm). destruct (Hcont m Hm) as (N0 & _).
    destruct (filter (sameItem m) results) as [|r l] eqn:F;
      [contradiction|].
    assert (Hr : In r (filter (sameItem m) results))
      by (rewrite F; now left).
    apply filter_In in Hr as (Hr & S). apply sameItem_key in S.
    now exists r.
  - intros (r & <- & Hr). destruct (Hall r Hr) as (m & Hm & K).
    now exists m.
Qed.

(** X29.  The content of a merged item is made of the contents of the items
    read that have its title and category, in their order, separated by
    blank lines. *)
Theorem mergedResults_content (results : list ExtractedItem)
    (m : ExtractedItem) :
  In m (mergedResults results) ->
  itemContent m
  = join [NL; NL] (map itemContent (filter (sameItem m) results)).
Proof. intros H. now apply mergedResults_invariant. Qed.

(** X30.  The keywords of a merged item are those of the items read that have
    its title and category. *)
Theorem mergedResults_keywords (results : list ExtractedItem) :
  forall (m : ExtractedItem) (w : jsstring),
  In m (mergedResults results) ->
  (In w (itemKeywords m) <->
   exists r, In r results /\ sameItem m r = true /\
             In w (itemKeywords r)).
Proof.
  induction results as [|x results IH] using rev_ind; [intros ? ? []|].
  intros m w. rewrite mergedResults_snoc.
  destruct (mergedResults_invariant results) as (ND & Hall & _).
  assert (Hsnoc : forall m',
            (exists r, In r (results ++ [x]) /\ sameItem m' r = true /\
                       In w (itemKeywords r)) <->
            (exists r, In r results /\ sameItem m' r = true /\
                       In w (itemKeywords r)) \/
            sameItem m' x = true /\ In w (itemKeywords x)).
  { intros m'. split.
    - intros (r & Hr & S & Hw). apply in_app_iff in Hr as [Hr|[<-|[]]];
        [left; now exists r | now right].
    - intros [(r & Hr & S & Hw)|(S & Hw)].
      + exists r. split; [apply in_or_app; now left | now split].
      + exists x. split; [apply in_or_app; right; now left | now split]. }
  rewrite Hsnoc.
  destruct (mergeItem_cases (mergedResults results) x)
    as [(Hnew & ->)|(pre & a & post & E & Hpre & Ha & ->)].
  - intros Hm. apply in_app_iff in Hm as [Hm|[<-|[]]].
    + rewrite (IH m w Hm), (Hnew m Hm). intuition discriminate.
    + assert (Hxx : sameItem x x = true) by now apply sameItem_key.
      split; [intros Hw; right; now split|].
      intros [(r & Hr & S & Hw)|(_ & Hw)]; [exfalso|exact Hw].
      destruct (Hall r Hr) as (m' & Hm' & K).
      apply Hnew in Hm'. apply sameItem_key_false in Hm'.
      apply sameItem_key in S. congruence.
  - assert (Hother : forall m, In m pre \/ In m post ->
                               sameItem m x = false).
    { intros m' [Hm|Hm]; [now apply Hpre|].
      apply sameItem_key_false. apply sameItem_key in Ha.
      rewrite <- Ha. rewrite E, map_app in ND. cbn [map] in ND.
      apply NoDup_remove_2 in ND. intros K. apply ND.
      apply in_or_app. right. rewrite <- K. now apply in_map. }
    assert (Hin : forall m, In m pre \/ m = a \/ In m post ->
                            In m (mergedResults results)).
    { intros m' H. rewrite E. apply in_or_app.
      destruct H as [H|[->|H]]; [now left | right; now left
                                 | right; now right]. }
    intros Hm. apply in_app_iff in Hm as [Hm|[<-|Hm]].
    + rewrite (IH m w (Hin m (or_introl Hm))),
        (Hother m (or_introl Hm)). intuition discriminate.
    + cbn [absorb itemKeywords]. unfold setOf.
      rewrite firstOcc_In, in_app_iff.
      rewrite (IH a w (Hin a (or_intror (or_introl eq_refl)))).
      change (sameItem (absorb a x) x) with (sameItem a x).
      rewrite Ha. intuition.
    + rewrite (IH m w (Hin m (or_intror (or_intror Hm)))),
        (Hother m (or_intror Hm)). intuition discriminate.
Qed.

Lemma mergedResults_keywords_witness :
  let a := mkItem (js "人物") (js "张三") [js "剑"] (js "少年") in
  let c := mkItem (js "人物") (js "张三") [js "剑"; js "刀"] (js "拜师") in
  let m := mkItem (js "人物") (js "张三") [js "剑"; js "刀"]
                  (js "少年" ++ [NL; NL] ++ js "拜师") in
  In (js "刀") (itemKeywords m) <->
  exists r, In r [a; c] /\ sameItem m r = true /\
            In (js "刀") (itemKeywords r).
Proof.
  intros a c m. apply (mergedResults_keywords [a; c] m (js "刀")).
  vm_compute. now left.
Defined.

(** Items with distinct titles or categories are left as they are. *)
Theorem mergedResults_distinct (results : list ExtractedItem) :
  NoDup (map itemKey results) -> mergedResults results = results.
Proof.
  induction results as [|x results IH] using rev_ind; [reflexivity|].
  rewrite map_app. cbn [map]. intros ND.
  assert (ND' : NoDup (map itemKey results)).
  { apply NoDup_app_remove_r in ND. exact ND. }
  rewrite mergedResults_snoc, (IH ND').
  destruct (mergeItem_cases results x)
    as [(_ & ->)|(pre & a & post & E & _ & Ha & _)]; [reflexivity|].
  exfalso. apply sameItem_key in Ha.
  rewrite E, map_app in ND. cbn [map] in ND. rewrite <- app_assoc in ND.
  apply NoDup_remove_2 in ND. apply ND.
  apply in_or_app. right. cbn [app]. rewrite Ha. apply in_or_app.
  right. now left.
Qed.

Lemma mergedResults_content_witness :
  let a := mkItem (js "人物") (js "张三") [js "剑"] (js "少年") in
  let b := mkItem (js "设定") (js "张三") [] (js "门派") in
  let c := mkItem (js "人物") (js "张三") [js "剑"; js "刀"] (js "拜师") in
  let m := mkItem (js "人物") (js "张三") [js "剑"; js "刀"]
                  (js "少年" ++ [NL; NL] ++ js "拜师") in
  mergedResults [a; b; c] = [m; b] /\
  itemContent m
  = join [NL; NL] (map itemContent (filter (sameItem m) [a; b; c])).
Proof.
  intros a b c m. split; [vm_compute; reflexivity|].
  apply (mergedResults_content [a; b; c] m). vm_compute. now left.
Defined.

Lemma mergedResults_distinct_witness :
  let a := mkItem (js "人物") (js "张三") [js "剑"] (js "少年") in
  let b := mkItem (js "设定") (js "张三") [] (js "门派") in
  mergedResults [a; b] = [a; b].
Proof.
  intros a b. apply (mergedResults_distinct [a; b]).
  repeat constructor; cbn; intuition discriminate.
Defined.

End ImportMergeFacts.

(* ================================================================== *)
(** * The status of a reply: examples *)
(* ================================================================== *)

Section StatusExamples.
Import Effects.

Lemma sendToAI_status_witness :
  fst (sendToAI (always (mkResponse 503 (JsonOk errorBody)))
                Prompt.sampleFields asciiLower emptyStore userAsks
                sampleSettings None [])
  = Throw (mkError PlainError (MSG_API_ERROR_CHAT ++ numberToString 503)).
Proof.
  apply (sendToAI_status (always (mkResponse 503 (JsonOk errorBody)))
           Prompt.sampleFields asciiLower emptyStore userAsks
           sampleSettings None [] (mkResponse 503 (JsonOk errorBody)));
    reflexivity.
Defined.

Lemma handleMerge_status_witness :
  let group := Merge.mkGroup (js "张三") (js "人物")
                 [entryOf Person "张三" "1"; entryOf Person "张三 (2)" "2"] in
  handleMerge (always (mkResponse 429 (JsonOk errorBody))) parseNothing
              Prompt.sampleFields (fun _ => []) sampleSettings true group []
  = (Ok tt,
     [EvSetMerging true; EvSetError []; EvSetMergeResult NoResult;
      EvFetch (mergeRequest sampleSettings group);
      EvSetError (MSG_MERGE_FAILED ++ MSG_API_ERROR_MERGE
                  ++ numberToString 429);
      EvSetMerging false]).
Proof.
  intros group.
  apply (handleMerge_status parseNothing Prompt.sampleFields (fun _ => [])
           sampleSettings true group
           (mkResponse 429 (JsonOk errorBody))).
  - vm_compute. discriminate.
  - vm_compute. reflexivity.
  - reflexivity.
Defined.

Lemma handleAnalyze_completes_witness :
  let server :=
    always (mkResponse 200 (JsonOk (completion (JStr (js "[1]"))))) in
  let chunks := Segment.splitText sampleText Segment.defaultMaxLen in
  let total := Z.of_nat (length chunks) in
  handleAnalyze server parseOneItem sampleSettings sampleText []
  = (Ok tt,
     [EvSetProgress 0 total; EvSetLoading true; EvSetError []]
     ++ loopEvents server parseOneItem sampleSettings total 0 0 chunks
     ++ [EvSetResults (loopItems server parseOneItem sampleSettings 0
                                 chunks);
         EvSetLoading false]).
Proof.
  intros server.
  apply (handleAnalyze_completes server parseOneItem sampleSettings
           sampleText); vm_compute; discriminate.
Defined.

End StatusExamples.
